(** * QuickMath (quickmath.hpp): vectors, matrices and quaternions over binary32

    A shallow embedding of the numeric core of [quickmath.hpp].  The C++ type
    [float] is IEEE-754 binary32; it is modelled by the Standard Library's
    executable specification of binary floating point ([SpecFloat]) at
    precision 24 and maximal exponent 128, with round-to-nearest-even: every
    [+ - * /] and [sqrtf] rounds once, to binary32 (no excess precision and
    no fused multiply-add), which is what the SSE targets of the header
    compute.  The model has a single NaN (no payload, no sign).

    The header is compiled in one of two configurations, chosen by the macro
    [QM_USE_SSE] (the header sets it to 1); every function that has an
    [#if QM_USE_SSE] is modelled with both branches, selected by a boolean of
    the same name.  Overloads are told apart by the module of their argument
    type ([Vec2], [Vec3], [Vec4], [Mat3], [Mat4], [Quat]); an operator is
    [op_add], [op_sub], [op_mul], [op_div_scalar], [op_eq] and so on in that
    module. *)

From Stdlib Require Import ZArith Bool Lia List.
From Stdlib Require Import Floats.SpecFloat.
Import ListNotations.

Local Open Scope Z_scope.

(** ** binary32 arithmetic *)

Module F32.

Definition prec : Z := 24.
Definition emax : Z := 128.

Definition float : Type := spec_float.

Definition add : float -> float -> float := SFadd prec emax.
Definition sub : float -> float -> float := SFsub prec emax.
Definition mul : float -> float -> float := SFmul prec emax.
Definition div : float -> float -> float := SFdiv prec emax.
Definition neg : float -> float := SFopp.
Definition sqrtf : float -> float := SFsqrt prec emax.

(** C's [==] and [!=] on floats: both are false / true on a NaN operand. *)
Definition eqb : float -> float -> bool := SFeqb.
Definition neqb (a b : float) : bool := negb (SFeqb a b).
Definition ltb : float -> float -> bool := SFltb.

Definition is_nan (a : float) : bool :=
  match a with S754_nan => true | _ => false end.

Definition is_finite (a : float) : bool :=
  match a with S754_zero _ | S754_finite _ _ _ => true | _ => false end.

Definition valid : float -> bool := valid_binary prec emax.

(** A decimal literal [n/d] followed by [f]: the binary32 nearest to the
    quotient of two exact integers. *)
Definition lit (n : Z) (d : positive) : float :=
  match n with
  | Z0 => S754_zero false
  | Zpos p => SFdiv prec emax (S754_finite false p 0) (S754_finite false d 0)
  | Zneg p => SFdiv prec emax (S754_finite true p 0) (S754_finite false d 0)
  end.

Definition zero : float := S754_zero false.
Definition nzero : float := S754_zero true.
Definition one : float := Eval vm_compute in lit 1 1.
Definition nan : float := S754_nan.
Definition pinf : float := S754_infinity false.

End F32.

Import F32.

Declare Scope f32_scope.
Delimit Scope f32_scope with f32.
Bind Scope f32_scope with float.
Infix "+" := add : f32_scope.
Infix "-" := sub : f32_scope.
Infix "*" := mul : f32_scope.
Infix "/" := div : f32_scope.
Notation "- x" := (neg x) : f32_scope.
Infix "==" := eqb (at level 70, no associativity) : f32_scope.
Infix "!=" := neqb (at level 70, no associativity) : f32_scope.

Local Open Scope f32_scope.

(** The source's literals. *)
Definition lit_0_5 : float := Eval vm_compute in lit 5 10.            (* 0.5f *)
Definition lit_2 : float := Eval vm_compute in lit 2 1.               (* 2.0f *)
Definition lit_deg : float :=
  Eval vm_compute in lit 1745329251 100000000000.                     (* 0.01745329251f *)
Definition lit_rad : float :=
  Eval vm_compute in lit 572957795131 10000000000.                    (* 57.2957795131f *)

(** ** The C runtime functions behind [QM_SINF], [QM_COSF], [QM_TANF] and
    [QM_ACOSF]

    [QM_SQRTF] is [sqrtf], which IEEE-754 fixes (correctly rounded), so it is
    [F32.sqrtf].  The four transcendental functions are whatever the host's
    [math.h] provides (or what the user #defines instead): they are an
    interface of the header, not part of it. *)
Class CRT : Type := {
  QM_SINF : float -> float;
  QM_COSF : float -> float;
  QM_TANF : float -> float;
  QM_ACOSF : float -> float
}.

Definition QM_SQRTF : float -> float := sqrtf.

(** ** The SSE intrinsics the header uses *)

Module SSE.

(** [__m128]: four packed binary32 lanes, lane 0 in the low 32 bits. *)
Record __m128 : Type := mk128 { f0 : float; f1 : float; f2 : float; f3 : float }.

Definition lane (a : __m128) (i : Z) : float :=
  match i with
  | 0 => f0 a
  | 1 => f1 a
  | 2 => f2 a
  | _ => f3 a
  end%Z.

Definition map2 (op : float -> float -> float) (a b : __m128) : __m128 :=
  mk128 (op (f0 a) (f0 b)) (op (f1 a) (f1 b)) (op (f2 a) (f2 b)) (op (f3 a) (f3 b)).

Definition _mm_add_ps : __m128 -> __m128 -> __m128 := map2 add.
Definition _mm_sub_ps : __m128 -> __m128 -> __m128 := map2 sub.
Definition _mm_mul_ps : __m128 -> __m128 -> __m128 := map2 mul.
Definition _mm_div_ps : __m128 -> __m128 -> __m128 := map2 div.

Definition _mm_set1_ps (s : float) : __m128 := mk128 s s s s.
Definition _mm_setr_ps (e0 e1 e2 e3 : float) : __m128 := mk128 e0 e1 e2 e3.
Definition _mm_store_ss (a : __m128) : float := f0 a.

(** [_mm_hadd_ps a b = (a1+a0, a3+a2, b1+b0, b3+b2)]. *)
Definition _mm_hadd_ps (a b : __m128) : __m128 :=
  mk128 (f1 a + f0 a) (f3 a + f2 a) (f1 b + f0 b) (f3 b + f2 b).

(** [_MM_SHUFFLE(fp3,fp2,fp1,fp0) = (fp3 << 6) | (fp2 << 4) | (fp1 << 2) | fp0]. *)
Definition _MM_SHUFFLE (fp3 fp2 fp1 fp0 : Z) : Z :=
  Z.lor (Z.lor (Z.lor (Z.shiftl fp3 6) (Z.shiftl fp2 4)) (Z.shiftl fp1 2)) fp0.

(** [_mm_shuffle_ps a b imm8]: lanes 0 and 1 are picked from [a] by bits
    1:0 and 3:2 of [imm8], lanes 2 and 3 from [b] by bits 5:4 and 7:6. *)
Definition _mm_shuffle_ps (a b : __m128) (imm8 : Z) : __m128 :=
  mk128 (lane a (Z.land imm8 3))
        (lane a (Z.land (Z.shiftr imm8 2) 3))
        (lane b (Z.land (Z.shiftr imm8 4) 3))
        (lane b (Z.land (Z.shiftr imm8 6) 3)).

(** The binary32 interchange encoding: sign bit 31, biased exponent in bits
    30:23, fraction in bits 22:0.  The model's only NaN is the quiet NaN
    [0x7FC00000]. *)
Definition sign_bit (s : bool) : Z := if s then 0x80000000 else 0.

Definition bits_of (a : float) : Z :=
  match a with
  | S754_zero s => sign_bit s
  | S754_infinity s => sign_bit s + 0x7F800000
  | S754_nan => 0x7FC00000
  | S754_finite s m e =>
      sign_bit s +
      (if Z.pos m <? 0x800000 then Z.pos m
       else (e + 150) * 0x800000 + (Z.pos m - 0x800000))
  end%Z.

Definition of_bits (b : Z) : float :=
  let s := Z.testbit b 31 in
  let ex := Z.land (Z.shiftr b 23) 0xFF in
  let fr := Z.land b 0x7FFFFF in
  if (ex =? 0)%Z then
    match fr with Z.pos m => S754_finite s m (-149) | _ => S754_zero s end
  else if (ex =? 0xFF)%Z then
    (if (fr =? 0)%Z then S754_infinity s else S754_nan)
  else
    match (fr + 0x800000)%Z with
    | Z.pos m => S754_finite s m (ex - 150)
    | _ => S754_nan
    end.

(** [_mm_xor_ps]: bitwise exclusive or of the four lanes. *)
Definition xor_lane (a b : float) : float :=
  of_bits (Z.lxor (bits_of a) (bits_of b)).

Definition _mm_xor_ps : __m128 -> __m128 -> __m128 := map2 xor_lane.

(** [_mm_min_ps] and [_mm_max_ps]: lane by lane [a < b ? a : b] and
    [a > b ? a : b], so the second operand comes back when an operand is a
    NaN and when both are zeros. *)
Definition _mm_min_ps : __m128 -> __m128 -> __m128 :=
  map2 (fun a b => if ltb a b then a else b).
Definition _mm_max_ps : __m128 -> __m128 -> __m128 :=
  map2 (fun a b => if ltb b a then a else b).

(** [_mm_addsub_ps a b = (a0-b0, a1+b1, a2-b2, a3+b3)]. *)
Definition _mm_addsub_ps (a b : __m128) : __m128 :=
  mk128 (f0 a - f0 b) (f1 a + f1 b) (f2 a - f2 b) (f3 a + f3 b).

Definition _mm_unpacklo_ps (a b : __m128) : __m128 := mk128 (f0 a) (f0 b) (f1 a) (f1 b).
Definition _mm_unpackhi_ps (a b : __m128) : __m128 := mk128 (f2 a) (f2 b) (f3 a) (f3 b).
Definition _mm_movelh_ps (a b : __m128) : __m128 := mk128 (f0 a) (f1 a) (f0 b) (f1 b).
Definition _mm_movehl_ps (a b : __m128) : __m128 := mk128 (f2 b) (f3 b) (f2 a) (f3 a).

(** The macro [_MM_TRANSPOSE4_PS] of [xmmintrin.h], which overwrites its four
    arguments: here it returns their new values. *)
Definition _MM_TRANSPOSE4_PS (row0 row1 row2 row3 : __m128)
  : __m128 * __m128 * __m128 * __m128 :=
  let tmp0 := _mm_unpacklo_ps row0 row1 in
  let tmp2 := _mm_unpacklo_ps row2 row3 in
  let tmp1 := _mm_unpackhi_ps row0 row1 in
  let tmp3 := _mm_unpackhi_ps row2 row3 in
  (_mm_movelh_ps tmp0 tmp2, _mm_movehl_ps tmp2 tmp0,
   _mm_movelh_ps tmp1 tmp3, _mm_movehl_ps tmp3 tmp1).

End SSE.

Import SSE.

(** ** The helper macros [QM_MIN], [QM_MAX] and [QM_ABS] *)

Definition QM_MIN (x y : float) : float := if ltb x y then x else y.
Definition QM_MAX (x y : float) : float := if ltb y x then x else y.
Definition QM_ABS (x : float) : float := if ltb zero x then x else - x.

(** ** Vectors

    The unions [QMvec2], [QMvec3], [QMvec4] are records of their named
    components; the array view [v\[i\]] and, for [QMvec4], the [packed] view
    are the same four floats, so they are conversions.  A default-constructed
    value has every component [+0] ([float v\[n\] = {}]). *)

Module Vec2.

Record QMvec2 : Type := mk { x : float; y : float }.

Definition default : QMvec2 := mk zero zero.

Definition op_add (v1 v2 : QMvec2) : QMvec2 := mk (x v1 + x v2) (y v1 + y v2).
Definition op_sub (v1 v2 : QMvec2) : QMvec2 := mk (x v1 - x v2) (y v1 - y v2).
Definition op_div_scalar (v : QMvec2) (s : float) : QMvec2 := mk (x v / s) (y v / s).

Definition QM_dot (v1 v2 : QMvec2) : float := x v1 * x v2 + y v1 * y v2.

Definition QM_length (v : QMvec2) : float := QM_SQRTF (QM_dot v v).

Definition QM_normalize (v : QMvec2) : QMvec2 :=
  let result := default in
  let len := QM_length v in
  if len != zero then op_div_scalar v len else result.

Definition op_eq (v1 v2 : QMvec2) : bool := (x v1 == x v2) && (y v1 == y v2).

Definition op_mul (v1 v2 : QMvec2) : QMvec2 := mk (x v1 * x v2) (y v1 * y v2).

Definition QM_distance (v1 v2 : QMvec2) : float :=
  let to := op_sub v1 v2 in
  QM_length to.

Definition QM_min (v1 v2 : QMvec2) : QMvec2 :=
  mk (QM_MIN (x v1) (x v2)) (QM_MIN (y v1) (y v2)).
Definition QM_max (v1 v2 : QMvec2) : QMvec2 :=
  mk (QM_MAX (x v1) (x v2)) (QM_MAX (y v1) (y v2)).

End Vec2.

Module Vec3.

Record QMvec3 : Type := mk { x : float; y : float; z : float }.

Definition default : QMvec3 := mk zero zero zero.

Definition op_add (v1 v2 : QMvec3) : QMvec3 :=
  mk (x v1 + x v2) (y v1 + y v2) (z v1 + z v2).
Definition op_sub (v1 v2 : QMvec3) : QMvec3 :=
  mk (x v1 - x v2) (y v1 - y v2) (z v1 - z v2).
Definition op_div_scalar (v : QMvec3) (s : float) : QMvec3 :=
  mk (x v / s) (y v / s) (z v / s).

Definition QM_dot (v1 v2 : QMvec3) : float :=
  x v1 * x v2 + y v1 * y v2 + z v1 * z v2.

Definition QM_length (v : QMvec3) : float := QM_SQRTF (QM_dot v v).

Definition QM_normalize (v : QMvec3) : QMvec3 :=
  let result := default in
  let len := QM_length v in
  if len != zero then op_div_scalar v len else result.

Definition op_eq (v1 v2 : QMvec3) : bool :=
  (x v1 == x v2) && (y v1 == y v2) && (z v1 == z v2).

Definition op_mul (v1 v2 : QMvec3) : QMvec3 :=
  mk (x v1 * x v2) (y v1 * y v2) (z v1 * z v2).

Definition QM_cross (v1 v2 : QMvec3) : QMvec3 :=
  mk (y v1 * z v2 - z v1 * y v2)
     (z v1 * x v2 - x v1 * z v2)
     (x v1 * y v2 - y v1 * x v2).

Definition QM_distance (v1 v2 : QMvec3) : float :=
  let to := op_sub v1 v2 in
  QM_length to.

Definition QM_min (v1 v2 : QMvec3) : QMvec3 :=
  mk (QM_MIN (x v1) (x v2)) (QM_MIN (y v1) (y v2)) (QM_MIN (z v1) (z v2)).
Definition QM_max (v1 v2 : QMvec3) : QMvec3 :=
  mk (QM_MAX (x v1) (x v2)) (QM_MAX (y v1) (y v2)) (QM_MAX (z v1) (z v2)).

End Vec3.

Module Vec4.

Record QMvec4 : Type := mk { x : float; y : float; z : float; w : float }.

Definition default : QMvec4 := mk zero zero zero zero.

(** The [packed] member of the union. *)
Definition packed (v : QMvec4) : __m128 := mk128 (x v) (y v) (z v) (w v).
Definition of_packed (p : __m128) : QMvec4 := mk (f0 p) (f1 p) (f2 p) (f3 p).

Section Config.
Variable QM_USE_SSE : bool.

Definition op_add (v1 v2 : QMvec4) : QMvec4 :=
  if QM_USE_SSE then of_packed (_mm_add_ps (packed v1) (packed v2))
  else mk (x v1 + x v2) (y v1 + y v2) (z v1 + z v2) (w v1 + w v2).

Definition op_sub (v1 v2 : QMvec4) : QMvec4 :=
  if QM_USE_SSE then of_packed (_mm_sub_ps (packed v1) (packed v2))
  else mk (x v1 - x v2) (y v1 - y v2) (z v1 - z v2) (w v1 - w v2).

Definition op_div_scalar (v : QMvec4) (s : float) : QMvec4 :=
  if QM_USE_SSE then
    let scale := _mm_set1_ps s in
    of_packed (_mm_div_ps (packed v) scale)
  else mk (x v / s) (y v / s) (z v / s) (w v / s).

Definition QM_dot (v1 v2 : QMvec4) : float :=
  if QM_USE_SSE then
    let r := _mm_mul_ps (packed v1) (packed v2) in
    let r := _mm_hadd_ps r r in
    let r := _mm_hadd_ps r r in
    _mm_store_ss r
  else x v1 * x v2 + y v1 * y v2 + z v1 * z v2 + w v1 * w v2.

Definition QM_length (v : QMvec4) : float := QM_SQRTF (QM_dot v v).

(** No test of [len] here, in either configuration. *)
Definition QM_normalize (v : QMvec4) : QMvec4 :=
  let len := QM_length v in
  op_div_scalar v len.

End Config.

Definition op_eq (v1 v2 : QMvec4) : bool :=
  (x v1 == x v2) && (y v1 == y v2) && (z v1 == z v2) && (w v1 == w v2).

Section Config.
Variable QM_USE_SSE : bool.

Definition op_mul (v1 v2 : QMvec4) : QMvec4 :=
  if QM_USE_SSE then of_packed (_mm_mul_ps (packed v1) (packed v2))
  else mk (x v1 * x v2) (y v1 * y v2) (z v1 * z v2) (w v1 * w v2).

Definition QM_distance (v1 v2 : QMvec4) : float :=
  let to := op_sub QM_USE_SSE v1 v2 in
  QM_length QM_USE_SSE to.

Definition QM_min (v1 v2 : QMvec4) : QMvec4 :=
  if QM_USE_SSE then of_packed (_mm_min_ps (packed v1) (packed v2))
  else mk (QM_MIN (x v1) (x v2)) (QM_MIN (y v1) (y v2))
          (QM_MIN (z v1) (z v2)) (QM_MIN (w v1) (w v2)).

Definition QM_max (v1 v2 : QMvec4) : QMvec4 :=
  if QM_USE_SSE then of_packed (_mm_max_ps (packed v1) (packed v2))
  else mk (QM_MAX (x v1) (x v2)) (QM_MAX (y v1) (y v2))
          (QM_MAX (z v1) (z v2)) (QM_MAX (w v1) (w v2)).

End Config.

End Vec4.

Import Vec2 Vec3 Vec4.

(** ** Helper functions *)

Definition QM_rad_to_deg (rad : float) : float := rad * lit_rad.
Definition QM_deg_to_rad (deg : float) : float := deg * lit_deg.

(** ** 3x3 matrices, column-major

    As for [QMmat4] below: [m\[i\]\[j\]] is component [j] of column [i], and
    the source only indexes with the constants 0..2. *)

Module Mat3.

Record QMmat3 : Type := mk { v0 : QMvec3; v1 : QMvec3; v2 : QMvec3 }.

Definition default : QMmat3 := mk Vec3.default Vec3.default Vec3.default.

Definition v (a : QMmat3) (i : nat) : QMvec3 :=
  match i with
  | 0%nat => v0 a
  | 1%nat => v1 a
  | _ => v2 a
  end.

Definition at3 (c : QMvec3) (j : nat) : float :=
  match j with
  | 0%nat => Vec3.x c
  | 1%nat => Vec3.y c
  | _ => Vec3.z c
  end.

Definition m (a : QMmat3) (i j : nat) : float := at3 (v a i) j.

Definition set3 (c : QMvec3) (j : nat) (s : float) : QMvec3 :=
  match j with
  | 0%nat => Vec3.mk s (Vec3.y c) (Vec3.z c)
  | 1%nat => Vec3.mk (Vec3.x c) s (Vec3.z c)
  | 2%nat => Vec3.mk (Vec3.x c) (Vec3.y c) s
  | _ => c
  end.

(** [a.m\[i\]\[j\] = s]. *)
Definition set_m (a : QMmat3) (i j : nat) (s : float) : QMmat3 :=
  match i with
  | 0%nat => mk (set3 (v0 a) j s) (v1 a) (v2 a)
  | 1%nat => mk (v0 a) (set3 (v1 a) j s) (v2 a)
  | 2%nat => mk (v0 a) (v1 a) (set3 (v2 a) j s)
  | _ => a
  end.

Definition QM_mat3_identity : QMmat3 :=
  mk (Vec3.mk one zero zero)
     (Vec3.mk zero one zero)
     (Vec3.mk zero zero one).

Definition op_add (m1 m2 : QMmat3) : QMmat3 :=
  let result := default in
  let result := set_m result 0 0 (m m1 0 0 + m m2 0 0) in
  let result := set_m result 0 1 (m m1 0 1 + m m2 0 1) in
  let result := set_m result 0 2 (m m1 0 2 + m m2 0 2) in
  let result := set_m result 1 0 (m m1 1 0 + m m2 1 0) in
  let result := set_m result 1 1 (m m1 1 1 + m m2 1 1) in
  let result := set_m result 1 2 (m m1 1 2 + m m2 1 2) in
  let result := set_m result 2 0 (m m1 2 0 + m m2 2 0) in
  let result := set_m result 2 1 (m m1 2 1 + m m2 2 1) in
  let result := set_m result 2 2 (m m1 2 2 + m m2 2 2) in
  result.

Definition op_sub (m1 m2 : QMmat3) : QMmat3 :=
  let result := default in
  let result := set_m result 0 0 (m m1 0 0 - m m2 0 0) in
  let result := set_m result 0 1 (m m1 0 1 - m m2 0 1) in
  let result := set_m result 0 2 (m m1 0 2 - m m2 0 2) in
  let result := set_m result 1 0 (m m1 1 0 - m m2 1 0) in
  let result := set_m result 1 1 (m m1 1 1 - m m2 1 1) in
  let result := set_m result 1 2 (m m1 1 2 - m m2 1 2) in
  let result := set_m result 2 0 (m m1 2 0 - m m2 2 0) in
  let result := set_m result 2 1 (m m1 2 1 - m m2 2 1) in
  let result := set_m result 2 2 (m m1 2 2 - m m2 2 2) in
  result.

Definition op_mul (m1 m2 : QMmat3) : QMmat3 :=
  let result := default in
  let result := set_m result 0 0 (m m1 0 0 * m m2 0 0 + m m1 1 0 * m m2 0 1 + m m1 2 0 * m m2 0 2) in
  let result := set_m result 0 1 (m m1 0 1 * m m2 0 0 + m m1 1 1 * m m2 0 1 + m m1 2 1 * m m2 0 2) in
  let result := set_m result 0 2 (m m1 0 2 * m m2 0 0 + m m1 1 2 * m m2 0 1 + m m1 2 2 * m m2 0 2) in
  let result := set_m result 1 0 (m m1 0 0 * m m2 1 0 + m m1 1 0 * m m2 1 1 + m m1 2 0 * m m2 1 2) in
  let result := set_m result 1 1 (m m1 0 1 * m m2 1 0 + m m1 1 1 * m m2 1 1 + m m1 2 1 * m m2 1 2) in
  let result := set_m result 1 2 (m m1 0 2 * m m2 1 0 + m m1 1 2 * m m2 1 1 + m m1 2 2 * m m2 1 2) in
  let result := set_m result 2 0 (m m1 0 0 * m m2 2 0 + m m1 1 0 * m m2 2 1 + m m1 2 0 * m m2 2 2) in
  let result := set_m result 2 1 (m m1 0 1 * m m2 2 0 + m m1 1 1 * m m2 2 1 + m m1 2 1 * m m2 2 2) in
  let result := set_m result 2 2 (m m1 0 2 * m m2 2 0 + m m1 1 2 * m m2 2 1 + m m1 2 2 * m m2 2 2) in
  result.

Definition op_mul_vec (a : QMmat3) (v : QMvec3) : QMvec3 :=
  Vec3.mk (m a 0 0 * Vec3.x v + m a 1 0 * Vec3.y v + m a 2 0 * Vec3.z v)
          (m a 0 1 * Vec3.x v + m a 1 1 * Vec3.y v + m a 2 1 * Vec3.z v)
          (m a 0 2 * Vec3.x v + m a 1 2 * Vec3.y v + m a 2 2 * Vec3.z v).

Definition QM_transpose (a : QMmat3) : QMmat3 :=
  let result := default in
  let result := set_m result 0 0 (m a 0 0) in
  let result := set_m result 0 1 (m a 1 0) in
  let result := set_m result 0 2 (m a 2 0) in
  let result := set_m result 1 0 (m a 0 1) in
  let result := set_m result 1 1 (m a 1 1) in
  let result := set_m result 1 2 (m a 2 1) in
  let result := set_m result 2 0 (m a 0 2) in
  let result := set_m result 2 1 (m a 1 2) in
  let result := set_m result 2 2 (m a 2 2) in
  result.

(** The determinant sum whose reciprocal [QM_inverse] takes: the first
    column against the first row of cofactors. *)
Definition inverse_det (mat : QMmat3) : float :=
  let a := m mat 0 0 in let b := m mat 0 1 in let c := m mat 0 2 in
  let d := m mat 1 0 in let e := m mat 1 1 in let f := m mat 1 2 in
  let g := m mat 2 0 in let h := m mat 2 1 in let i := m mat 2 2 in
  a * (e * i - f * h) + b * (- (d * i - g * f)) + c * (d * h - g * e).

Definition QM_inverse (mat : QMmat3) : QMmat3 :=
  let result := default in
  let a := m mat 0 0 in let b := m mat 0 1 in let c := m mat 0 2 in
  let d := m mat 1 0 in let e := m mat 1 1 in let f := m mat 1 2 in
  let g := m mat 2 0 in let h := m mat 2 1 in let i := m mat 2 2 in
  let result := set_m result 0 0 (e * i - f * h) in
  let result := set_m result 0 1 (- (b * i - h * c)) in
  let result := set_m result 0 2 (b * f - e * c) in
  let result := set_m result 1 0 (- (d * i - g * f)) in
  let result := set_m result 1 1 (a * i - c * g) in
  let result := set_m result 1 2 (- (a * f - d * c)) in
  let result := set_m result 2 0 (d * h - g * e) in
  let result := set_m result 2 1 (- (a * h - g * b)) in
  let result := set_m result 2 2 (a * e - b * d) in
  let det := one / (a * m result 0 0 + b * m result 1 0 + c * m result 2 0) in
  let result := set_m result 0 0 (m result 0 0 * det) in
  let result := set_m result 0 1 (m result 0 1 * det) in
  let result := set_m result 0 2 (m result 0 2 * det) in
  let result := set_m result 1 0 (m result 1 0 * det) in
  let result := set_m result 1 1 (m result 1 1 * det) in
  let result := set_m result 1 2 (m result 1 2 * det) in
  let result := set_m result 2 0 (m result 2 0 * det) in
  let result := set_m result 2 1 (m result 2 1 * det) in
  let result := set_m result 2 2 (m result 2 2 * det) in
  result.

Definition QM_translate (t : QMvec2) : QMmat3 :=
  let result := QM_mat3_identity in
  let result := set_m result 2 0 (Vec2.x t) in
  let result := set_m result 2 1 (Vec2.y t) in
  result.

Definition QM_scale (s : QMvec2) : QMmat3 :=
  let result := QM_mat3_identity in
  let result := set_m result 0 0 (Vec2.x s) in
  let result := set_m result 1 1 (Vec2.y s) in
  result.

Definition QM_rotate `{CRT} (angle : float) : QMmat3 :=
  let result := QM_mat3_identity in
  let radians := QM_deg_to_rad angle in
  let sine := QM_SINF radians in
  let cosine := QM_COSF radians in
  let result := set_m result 0 0 cosine in
  let result := set_m result 1 0 sine in
  let result := set_m result 0 1 (- sine) in
  let result := set_m result 1 1 cosine in
  result.

End Mat3.

(** ** 4x4 matrices, column-major

    [m\[i\]\[j\]] is component [j] of column [i]; [v\[i\]] and [packed\[i\]]
    are column [i].  The source only ever indexes with the constants 0..3;
    an index above 3 reads the last column or component here and writes
    nothing. *)

Module Mat4.

Record QMmat4 : Type := mk { v0 : QMvec4; v1 : QMvec4; v2 : QMvec4; v3 : QMvec4 }.

Definition default : QMmat4 := mk Vec4.default Vec4.default Vec4.default Vec4.default.

Definition v (a : QMmat4) (i : nat) : QMvec4 :=
  match i with
  | 0%nat => v0 a
  | 1%nat => v1 a
  | 2%nat => v2 a
  | _ => v3 a
  end.

Definition at4 (c : QMvec4) (j : nat) : float :=
  match j with
  | 0%nat => Vec4.x c
  | 1%nat => Vec4.y c
  | 2%nat => Vec4.z c
  | _ => Vec4.w c
  end.

Definition m (a : QMmat4) (i j : nat) : float := at4 (v a i) j.

Definition packed (a : QMmat4) (i : nat) : __m128 := Vec4.packed (v a i).

Definition set4 (c : QMvec4) (j : nat) (s : float) : QMvec4 :=
  match j with
  | 0%nat => Vec4.mk s (Vec4.y c) (Vec4.z c) (Vec4.w c)
  | 1%nat => Vec4.mk (Vec4.x c) s (Vec4.z c) (Vec4.w c)
  | 2%nat => Vec4.mk (Vec4.x c) (Vec4.y c) s (Vec4.w c)
  | 3%nat => Vec4.mk (Vec4.x c) (Vec4.y c) (Vec4.z c) s
  | _ => c
  end.

(** [a.m\[i\]\[j\] = s]. *)
Definition set_m (a : QMmat4) (i j : nat) (s : float) : QMmat4 :=
  match i with
  | 0%nat => mk (set4 (v0 a) j s) (v1 a) (v2 a) (v3 a)
  | 1%nat => mk (v0 a) (set4 (v1 a) j s) (v2 a) (v3 a)
  | 2%nat => mk (v0 a) (v1 a) (set4 (v2 a) j s) (v3 a)
  | 3%nat => mk (v0 a) (v1 a) (v2 a) (set4 (v3 a) j s)
  | _ => a
  end.

(** [a.packed\[i\] = p]. *)
Definition set_packed (a : QMmat4) (i : nat) (p : __m128) : QMmat4 :=
  match i with
  | 0%nat => mk (of_packed p) (v1 a) (v2 a) (v3 a)
  | 1%nat => mk (v0 a) (of_packed p) (v2 a) (v3 a)
  | 2%nat => mk (v0 a) (v1 a) (of_packed p) (v3 a)
  | 3%nat => mk (v0 a) (v1 a) (v2 a) (of_packed p)
  | _ => a
  end.

Definition QM_mat4_identity : QMmat4 :=
  mk (Vec4.mk one zero zero zero)
     (Vec4.mk zero one zero zero)
     (Vec4.mk zero zero one zero)
     (Vec4.mk zero zero zero one).

Definition QM_mat4_mult_column_sse (c1 : __m128) (m2 : QMmat4) : __m128 :=
  let result := _mm_mul_ps (_mm_shuffle_ps c1 c1 (_MM_SHUFFLE 0 0 0 0)) (packed m2 0) in
  let result :=
    _mm_add_ps result (_mm_mul_ps (_mm_shuffle_ps c1 c1 (_MM_SHUFFLE 1 1 1 1)) (packed m2 1)) in
  let result :=
    _mm_add_ps result (_mm_mul_ps (_mm_shuffle_ps c1 c1 (_MM_SHUFFLE 2 2 2 2)) (packed m2 2)) in
  let result :=
    _mm_add_ps result (_mm_mul_ps (_mm_shuffle_ps c1 c1 (_MM_SHUFFLE 3 3 3 3)) (packed m2 3)) in
  result.

Section Config.
Variable QM_USE_SSE : bool.

Definition op_mul (m1 m2 : QMmat4) : QMmat4 :=
  let result := default in
  if QM_USE_SSE then
    let result := set_packed result 0 (QM_mat4_mult_column_sse (packed m2 0) m1) in
    let result := set_packed result 1 (QM_mat4_mult_column_sse (packed m2 1) m1) in
    let result := set_packed result 2 (QM_mat4_mult_column_sse (packed m2 2) m1) in
    let result := set_packed result 3 (QM_mat4_mult_column_sse (packed m2 3) m1) in
    result
  else
    let result := set_m result 0 0 (m m1 0 0 * m m2 0 0 + m m1 1 0 * m m2 0 1 + m m1 2 0 * m m2 0 2 + m m1 3 0 * m m2 0 3) in
    let result := set_m result 0 1 (m m1 0 1 * m m2 0 0 + m m1 1 1 * m m2 0 1 + m m1 2 1 * m m2 0 2 + m m1 3 1 * m m2 0 3) in
    let result := set_m result 0 2 (m m1 0 2 * m m2 0 0 + m m1 1 2 * m m2 0 1 + m m1 2 2 * m m2 0 2 + m m1 3 2 * m m2 0 3) in
    let result := set_m result 0 3 (m m1 0 3 * m m2 0 0 + m m1 1 3 * m m2 0 1 + m m1 2 3 * m m2 0 2 + m m1 3 3 * m m2 0 3) in
    let result := set_m result 1 0 (m m1 0 0 * m m2 1 0 + m m1 1 0 * m m2 1 1 + m m1 2 0 * m m2 1 2 + m m1 3 0 * m m2 1 3) in
    let result := set_m result 1 1 (m m1 0 1 * m m2 1 0 + m m1 1 1 * m m2 1 1 + m m1 2 1 * m m2 1 2 + m m1 3 1 * m m2 1 3) in
    let result := set_m result 1 2 (m m1 0 2 * m m2 1 0 + m m1 1 2 * m m2 1 1 + m m1 2 2 * m m2 1 2 + m m1 3 2 * m m2 1 3) in
    let result := set_m result 1 3 (m m1 0 3 * m m2 1 0 + m m1 1 3 * m m2 1 1 + m m1 2 3 * m m2 1 2 + m m1 3 3 * m m2 1 3) in
    let result := set_m result 2 0 (m m1 0 0 * m m2 2 0 + m m1 1 0 * m m2 2 1 + m m1 2 0 * m m2 2 2 + m m1 3 0 * m m2 2 3) in
    let result := set_m result 2 1 (m m1 0 1 * m m2 2 0 + m m1 1 1 * m m2 2 1 + m m1 2 1 * m m2 2 2 + m m1 3 1 * m m2 2 3) in
    let result := set_m result 2 2 (m m1 0 2 * m m2 2 0 + m m1 1 2 * m m2 2 1 + m m1 2 2 * m m2 2 2 + m m1 3 2 * m m2 2 3) in
    let result := set_m result 2 3 (m m1 0 3 * m m2 2 0 + m m1 1 3 * m m2 2 1 + m m1 2 3 * m m2 2 2 + m m1 3 3 * m m2 2 3) in
    let result := set_m result 3 0 (m m1 0 0 * m m2 3 0 + m m1 1 0 * m m2 3 1 + m m1 2 0 * m m2 3 2 + m m1 3 0 * m m2 3 3) in
    let result := set_m result 3 1 (m m1 0 1 * m m2 3 0 + m m1 1 1 * m m2 3 1 + m m1 2 1 * m m2 3 2 + m m1 3 1 * m m2 3 3) in
    let result := set_m result 3 2 (m m1 0 2 * m m2 3 0 + m m1 1 2 * m m2 3 1 + m m1 2 2 * m m2 3 2 + m m1 3 2 * m m2 3 3) in
    let result := set_m result 3 3 (m m1 0 3 * m m2 3 0 + m m1 1 3 * m m2 3 1 + m m1 2 3 * m m2 3 2 + m m1 3 3 * m m2 3 3) in
    result.

Definition op_mul_vec (a : QMmat4) (v : QMvec4) : QMvec4 :=
  if QM_USE_SSE then
    of_packed (QM_mat4_mult_column_sse (Vec4.packed v) a)
  else
    Vec4.mk
      (m a 0 0 * Vec4.x v + m a 1 0 * Vec4.y v + m a 2 0 * Vec4.z v + m a 3 0 * Vec4.w v)
      (m a 0 1 * Vec4.x v + m a 1 1 * Vec4.y v + m a 2 1 * Vec4.z v + m a 3 1 * Vec4.w v)
      (m a 0 2 * Vec4.x v + m a 1 2 * Vec4.y v + m a 2 2 * Vec4.z v + m a 3 2 * Vec4.w v)
      (m a 0 3 * Vec4.x v + m a 1 3 * Vec4.y v + m a 2 3 * Vec4.z v + m a 3 3 * Vec4.w v).

End Config.

Definition QM_translate (t : QMvec3) : QMmat4 :=
  let result := QM_mat4_identity in
  let result := set_m result 3 0 (Vec3.x t) in
  let result := set_m result 3 1 (Vec3.y t) in
  let result := set_m result 3 2 (Vec3.z t) in
  result.

Definition QM_perspective `{CRT} (fov aspect near far : float) : QMmat4 :=
  let result := default in
  let scale := QM_TANF (QM_deg_to_rad (fov * lit_0_5)) * near in
  let right := aspect * scale in
  let left := - right in
  let top := scale in
  let bot := - top in
  let result := set_m result 0 0 (near / right) in
  let result := set_m result 1 1 (near / top) in
  let result := set_m result 2 2 (- (far + near) / (far - near)) in
  let result := set_m result 3 2 (- lit_2 * far * near / (far - near)) in
  let result := set_m result 2 3 (- one) in
  result.

(** Sums, transpose and inverse. *)

Section Config.
Variable QM_USE_SSE : bool.

Definition op_add (m1 m2 : QMmat4) : QMmat4 :=
  let result := default in
  if QM_USE_SSE then
    let result := set_packed result 0 (_mm_add_ps (packed m1 0) (packed m2 0)) in
    let result := set_packed result 1 (_mm_add_ps (packed m1 1) (packed m2 1)) in
    let result := set_packed result 2 (_mm_add_ps (packed m1 2) (packed m2 2)) in
    let result := set_packed result 3 (_mm_add_ps (packed m1 3) (packed m2 3)) in
    result
  else
    let result := set_m result 0 0 (m m1 0 0 + m m2 0 0) in
    let result := set_m result 0 1 (m m1 0 1 + m m2 0 1) in
    let result := set_m result 0 2 (m m1 0 2 + m m2 0 2) in
    let result := set_m result 0 3 (m m1 0 3 + m m2 0 3) in
    let result := set_m result 1 0 (m m1 1 0 + m m2 1 0) in
    let result := set_m result 1 1 (m m1 1 1 + m m2 1 1) in
    let result := set_m result 1 2 (m m1 1 2 + m m2 1 2) in
    let result := set_m result 1 3 (m m1 1 3 + m m2 1 3) in
    let result := set_m result 2 0 (m m1 2 0 + m m2 2 0) in
    let result := set_m result 2 1 (m m1 2 1 + m m2 2 1) in
    let result := set_m result 2 2 (m m1 2 2 + m m2 2 2) in
    let result := set_m result 2 3 (m m1 2 3 + m m2 2 3) in
    let result := set_m result 3 0 (m m1 3 0 + m m2 3 0) in
    let result := set_m result 3 1 (m m1 3 1 + m m2 3 1) in
    let result := set_m result 3 2 (m m1 3 2 + m m2 3 2) in
    let result := set_m result 3 3 (m m1 3 3 + m m2 3 3) in
    result.

Definition op_sub (m1 m2 : QMmat4) : QMmat4 :=
  let result := default in
  if QM_USE_SSE then
    let result := set_packed result 0 (_mm_sub_ps (packed m1 0) (packed m2 0)) in
    let result := set_packed result 1 (_mm_sub_ps (packed m1 1) (packed m2 1)) in
    let result := set_packed result 2 (_mm_sub_ps (packed m1 2) (packed m2 2)) in
    let result := set_packed result 3 (_mm_sub_ps (packed m1 3) (packed m2 3)) in
    result
  else
    let result := set_m result 0 0 (m m1 0 0 - m m2 0 0) in
    let result := set_m result 0 1 (m m1 0 1 - m m2 0 1) in
    let result := set_m result 0 2 (m m1 0 2 - m m2 0 2) in
    let result := set_m result 0 3 (m m1 0 3 - m m2 0 3) in
    let result := set_m result 1 0 (m m1 1 0 - m m2 1 0) in
    let result := set_m result 1 1 (m m1 1 1 - m m2 1 1) in
    let result := set_m result 1 2 (m m1 1 2 - m m2 1 2) in
    let result := set_m result 1 3 (m m1 1 3 - m m2 1 3) in
    let result := set_m result 2 0 (m m1 2 0 - m m2 2 0) in
    let result := set_m result 2 1 (m m1 2 1 - m m2 2 1) in
    let result := set_m result 2 2 (m m1 2 2 - m m2 2 2) in
    let result := set_m result 2 3 (m m1 2 3 - m m2 2 3) in
    let result := set_m result 3 0 (m m1 3 0 - m m2 3 0) in
    let result := set_m result 3 1 (m m1 3 1 - m m2 3 1) in
    let result := set_m result 3 2 (m m1 3 2 - m m2 3 2) in
    let result := set_m result 3 3 (m m1 3 3 - m m2 3 3) in
    result.

Definition QM_transpose (a : QMmat4) : QMmat4 :=
  let result := a in
  if QM_USE_SSE then
    let '(row0, row1, row2, row3) :=
      _MM_TRANSPOSE4_PS (packed result 0) (packed result 1) (packed result 2) (packed result 3) in
    let result := set_packed result 0 row0 in
    let result := set_packed result 1 row1 in
    let result := set_packed result 2 row2 in
    let result := set_packed result 3 row3 in
    result
  else
    let result := set_m result 0 0 (m a 0 0) in
    let result := set_m result 0 1 (m a 1 0) in
    let result := set_m result 0 2 (m a 2 0) in
    let result := set_m result 0 3 (m a 3 0) in
    let result := set_m result 1 0 (m a 0 1) in
    let result := set_m result 1 1 (m a 1 1) in
    let result := set_m result 1 2 (m a 2 1) in
    let result := set_m result 1 3 (m a 3 1) in
    let result := set_m result 2 0 (m a 0 2) in
    let result := set_m result 2 1 (m a 1 2) in
    let result := set_m result 2 2 (m a 2 2) in
    let result := set_m result 2 3 (m a 3 2) in
    let result := set_m result 3 0 (m a 0 3) in
    let result := set_m result 3 1 (m a 1 3) in
    let result := set_m result 3 2 (m a 2 3) in
    let result := set_m result 3 3 (m a 3 3) in
    result.

(** The sixteen cofactors of [QM_inverse], before they are scaled, and the
    determinant sum whose reciprocal scales them.  The local [m] of the
    source is [m'] here, [m] being the accessor. *)
Definition inverse_cofactors (mat : QMmat4) : QMmat4 :=
  let result := default in
  let a := m mat 0 0 in let b := m mat 0 1 in let c := m mat 0 2 in let d := m mat 0 3 in
  let e := m mat 1 0 in let f := m mat 1 1 in let g := m mat 1 2 in let h := m mat 1 3 in
  let i := m mat 2 0 in let j := m mat 2 1 in let k := m mat 2 2 in let l := m mat 2 3 in
  let m' := m mat 3 0 in let n := m mat 3 1 in let o := m mat 3 2 in let p := m mat 3 3 in
  let tmp0 := k * p - o * l in
  let tmp1 := j * p - n * l in
  let tmp2 := j * o - n * k in
  let tmp3 := i * p - m' * l in
  let tmp4 := i * o - m' * k in
  let tmp5 := i * n - m' * j in
  let result := set_m result 0 0 (f * tmp0 - g * tmp1 + h * tmp2) in
  let result := set_m result 1 0 (- (e * tmp0 - g * tmp3 + h * tmp4)) in
  let result := set_m result 2 0 (e * tmp1 - f * tmp3 + h * tmp5) in
  let result := set_m result 3 0 (- (e * tmp2 - f * tmp4 + g * tmp5)) in
  let result := set_m result 0 1 (- (b * tmp0 - c * tmp1 + d * tmp2)) in
  let result := set_m result 1 1 (a * tmp0 - c * tmp3 + d * tmp4) in
  let result := set_m result 2 1 (- (a * tmp1 - b * tmp3 + d * tmp5)) in
  let result := set_m result 3 1 (a * tmp2 - b * tmp4 + c * tmp5) in
  let tmp0 := g * p - o * h in
  let tmp1 := f * p - n * h in
  let tmp2 := f * o - n * g in
  let tmp3 := e * p - m' * h in
  let tmp4 := e * o - m' * g in
  let tmp5 := e * n - m' * f in
  let result := set_m result 0 2 (b * tmp0 - c * tmp1 + d * tmp2) in
  let result := set_m result 1 2 (- (a * tmp0 - c * tmp3 + d * tmp4)) in
  let result := set_m result 2 2 (a * tmp1 - b * tmp3 + d * tmp5) in
  let result := set_m result 3 2 (- (a * tmp2 - b * tmp4 + c * tmp5)) in
  let tmp0 := g * l - k * h in
  let tmp1 := f * l - j * h in
  let tmp2 := f * k - j * g in
  let tmp3 := e * l - i * h in
  let tmp4 := e * k - i * g in
  let tmp5 := e * j - i * f in
  let result := set_m result 0 3 (- (b * tmp0 - c * tmp1 + d * tmp2)) in
  let result := set_m result 1 3 (a * tmp0 - c * tmp3 + d * tmp4) in
  let result := set_m result 2 3 (- (a * tmp1 - b * tmp3 + d * tmp5)) in
  let result := set_m result 3 3 (a * tmp2 - b * tmp4 + c * tmp5) in
  result.

Definition inverse_det (mat : QMmat4) : float :=
  let result := inverse_cofactors mat in
  let a := m mat 0 0 in let b := m mat 0 1 in let c := m mat 0 2 in let d := m mat 0 3 in
  a * m result 0 0 + b * m result 1 0 + c * m result 2 0 + d * m result 3 0.

Definition QM_inverse (mat : QMmat4) : QMmat4 :=
  let result := inverse_cofactors mat in
  let det := one / inverse_det mat in
  if QM_USE_SSE then
    let scale := _mm_set1_ps det in
    let result := set_packed result 0 (_mm_mul_ps (packed result 0) scale) in
    let result := set_packed result 1 (_mm_mul_ps (packed result 1) scale) in
    let result := set_packed result 2 (_mm_mul_ps (packed result 2) scale) in
    let result := set_packed result 3 (_mm_mul_ps (packed result 3) scale) in
    result
  else
    let result := set_m result 0 0 (m result 0 0 * det) in
    let result := set_m result 0 1 (m result 0 1 * det) in
    let result := set_m result 0 2 (m result 0 2 * det) in
    let result := set_m result 0 3 (m result 0 3 * det) in
    let result := set_m result 1 0 (m result 1 0 * det) in
    let result := set_m result 1 1 (m result 1 1 * det) in
    let result := set_m result 1 2 (m result 1 2 * det) in
    let result := set_m result 1 3 (m result 1 3 * det) in
    let result := set_m result 2 0 (m result 2 0 * det) in
    let result := set_m result 2 1 (m result 2 1 * det) in
    let result := set_m result 2 2 (m result 2 2 * det) in
    let result := set_m result 2 3 (m result 2 3 * det) in
    let result := set_m result 3 0 (m result 3 0 * det) in
    let result := set_m result 3 1 (m result 3 1 * det) in
    let result := set_m result 3 2 (m result 3 2 * det) in
    let result := set_m result 3 3 (m result 3 3 * det) in
    result.

End Config.

Definition QM_scale (s : QMvec3) : QMmat4 :=
  let result := QM_mat4_identity in
  let result := set_m result 0 0 (Vec3.x s) in
  let result := set_m result 1 1 (Vec3.y s) in
  let result := set_m result 2 2 (Vec3.z s) in
  result.

Definition QM_rotate `{CRT} (axis : QMvec3) (angle : float) : QMmat4 :=
  let result := QM_mat4_identity in
  let normalized := Vec3.QM_normalize axis in
  let radians := QM_deg_to_rad angle in
  let sine := QM_SINF radians in
  let cosine := QM_COSF radians in
  let cosine2 := one - cosine in
  let nx := Vec3.x normalized in
  let ny := Vec3.y normalized in
  let nz := Vec3.z normalized in
  let result := set_m result 0 0 (nx * nx * cosine2 + cosine) in
  let result := set_m result 0 1 (nx * ny * cosine2 + nz * sine) in
  let result := set_m result 0 2 (nx * nz * cosine2 - ny * sine) in
  let result := set_m result 1 0 (ny * nx * cosine2 - nz * sine) in
  let result := set_m result 1 1 (ny * ny * cosine2 + cosine) in
  let result := set_m result 1 2 (ny * nz * cosine2 + nx * sine) in
  let result := set_m result 2 0 (nz * nx * cosine2 + ny * sine) in
  let result := set_m result 2 1 (nz * ny * cosine2 - nx * sine) in
  let result := set_m result 2 2 (nz * nz * cosine2 + cosine) in
  result.

Definition QM_top_left (a : QMmat4) : Mat3.QMmat3 :=
  let result := Mat3.default in
  let result := Mat3.set_m result 0 0 (m a 0 0) in
  let result := Mat3.set_m result 0 1 (m a 0 1) in
  let result := Mat3.set_m result 0 2 (m a 0 2) in
  let result := Mat3.set_m result 1 0 (m a 1 0) in
  let result := Mat3.set_m result 1 1 (m a 1 1) in
  let result := Mat3.set_m result 1 2 (m a 1 2) in
  let result := Mat3.set_m result 2 0 (m a 2 0) in
  let result := Mat3.set_m result 2 1 (m a 2 1) in
  let result := Mat3.set_m result 2 2 (m a 2 2) in
  result.

Definition QM_orthographic (left right bot top near far : float) : QMmat4 :=
  let result := QM_mat4_identity in
  let result := set_m result 0 0 (lit_2 / (right - left)) in
  let result := set_m result 1 1 (lit_2 / (top - bot)) in
  let result := set_m result 2 2 (lit_2 / (near - far)) in
  let result := set_m result 3 0 ((left + right) / (left - right)) in
  let result := set_m result 3 1 ((bot + top) / (bot - top)) in
  let result := set_m result 3 2 ((near + far) / (near - far)) in
  result.

(** The view matrix: [RUD * QM_translate(-pos)], the product being
    [operator*] of the configuration. *)

Section Config.
Variable QM_USE_SSE : bool.

Definition QM_look (pos dir up : QMvec3) : QMmat4 :=
  let r := Vec3.QM_normalize (Vec3.QM_cross up dir) in
  let u := Vec3.QM_cross dir r in
  let RUD := QM_mat4_identity in
  let RUD := set_m RUD 0 0 (Vec3.x r) in
  let RUD := set_m RUD 1 0 (Vec3.y r) in
  let RUD := set_m RUD 2 0 (Vec3.z r) in
  let RUD := set_m RUD 0 1 (Vec3.x u) in
  let RUD := set_m RUD 1 1 (Vec3.y u) in
  let RUD := set_m RUD 2 1 (Vec3.z u) in
  let RUD := set_m RUD 0 2 (Vec3.x dir) in
  let RUD := set_m RUD 1 2 (Vec3.y dir) in
  let RUD := set_m RUD 2 2 (Vec3.z dir) in
  let oppPos := Vec3.mk (- Vec3.x pos) (- Vec3.y pos) (- Vec3.z pos) in
  let result := op_mul QM_USE_SSE RUD (QM_translate oppPos) in
  result.

Definition QM_lookat (pos target up : QMvec3) : QMmat4 :=
  let dir := Vec3.QM_normalize (Vec3.op_sub pos target) in
  let result := QM_look pos dir up in
  result.

End Config.

End Mat4.

(** ** Quaternions *)

Module Quat.

Record QMquaternion : Type := mk { x : float; y : float; z : float; w : float }.

Definition default : QMquaternion := mk zero zero zero zero.

Definition packed (q : QMquaternion) : __m128 := mk128 (x q) (y q) (z q) (w q).
Definition of_packed (p : __m128) : QMquaternion := mk (f0 p) (f1 p) (f2 p) (f3 p).

Definition QM_quaternion_identity : QMquaternion := mk zero zero zero one.

Definition QM_conjugate (q : QMquaternion) : QMquaternion :=
  mk (- x q) (- y q) (- z q) (w q).

Definition op_eq (q1 q2 : QMquaternion) : bool :=
  (x q1 == x q2) && (y q1 == y q2) && (z q1 == z q2) && (w q1 == w q2).

Section Config.
Variable QM_USE_SSE : bool.

Definition op_add (q1 q2 : QMquaternion) : QMquaternion :=
  if QM_USE_SSE then of_packed (_mm_add_ps (packed q1) (packed q2))
  else mk (x q1 + x q2) (y q1 + y q2) (z q1 + z q2) (w q1 + w q2).

Definition op_sub (q1 q2 : QMquaternion) : QMquaternion :=
  if QM_USE_SSE then of_packed (_mm_sub_ps (packed q1) (packed q2))
  else mk (x q1 - x q2) (y q1 - y q2) (z q1 - z q2) (w q1 - w q2).

Definition op_mul (q1 q2 : QMquaternion) : QMquaternion :=
  if QM_USE_SSE then
    let temp1 := _mm_shuffle_ps (packed q1) (packed q1) (_MM_SHUFFLE 3 3 3 3) in
    let temp2 := packed q2 in
    let result := _mm_mul_ps temp1 temp2 in
    let temp1 :=
      _mm_xor_ps (_mm_shuffle_ps (packed q1) (packed q1) (_MM_SHUFFLE 0 0 0 0))
                 (_mm_setr_ps zero (- zero) zero (- zero)) in
    let temp2 := _mm_shuffle_ps (packed q2) (packed q2) (_MM_SHUFFLE 0 1 2 3) in
    let result := _mm_add_ps result (_mm_mul_ps temp1 temp2) in
    let temp1 :=
      _mm_xor_ps (_mm_shuffle_ps (packed q1) (packed q1) (_MM_SHUFFLE 1 1 1 1))
                 (_mm_setr_ps zero zero (- zero) (- zero)) in
    let temp2 := _mm_shuffle_ps (packed q2) (packed q2) (_MM_SHUFFLE 1 0 3 2) in
    let result := _mm_add_ps result (_mm_mul_ps temp1 temp2) in
    let temp1 :=
      _mm_xor_ps (_mm_shuffle_ps (packed q1) (packed q1) (_MM_SHUFFLE 2 2 2 2))
                 (_mm_setr_ps (- zero) zero zero (- zero)) in
    let temp2 := _mm_shuffle_ps (packed q2) (packed q2) (_MM_SHUFFLE 2 3 0 1) in
    let result := _mm_add_ps result (_mm_mul_ps temp1 temp2) in
    of_packed result
  else
    mk (w q1 * x q2 + x q1 * w q2 + y q1 * z q2 - z q1 * y q2)
       (w q1 * y q2 - x q1 * z q2 + y q1 * w q2 + z q1 * x q2)
       (w q1 * z q2 + x q1 * y q2 - y q1 * x q2 + z q1 * w q2)
       (w q1 * w q2 - x q1 * x q2 - y q1 * y q2 - z q1 * z q2).

Definition op_mul_scalar (q : QMquaternion) (s : float) : QMquaternion :=
  if QM_USE_SSE then
    let scale := _mm_set1_ps s in
    of_packed (_mm_mul_ps (packed q) scale)
  else mk (x q * s) (y q * s) (z q * s) (w q * s).

Definition op_div_scalar (q : QMquaternion) (s : float) : QMquaternion :=
  if QM_USE_SSE then
    let scale := _mm_set1_ps s in
    of_packed (_mm_div_ps (packed q) scale)
  else mk (x q / s) (y q / s) (z q / s) (w q / s).

Definition QM_dot (q1 q2 : QMquaternion) : float :=
  if QM_USE_SSE then
    let r := _mm_mul_ps (packed q1) (packed q2) in
    let r := _mm_hadd_ps r r in
    let r := _mm_hadd_ps r r in
    _mm_store_ss r
  else x q1 * x q2 + y q1 * y q2 + z q1 * z q2 + w q1 * w q2.

Definition QM_length (q : QMquaternion) : float := QM_SQRTF (QM_dot q q).

(** The test of [len] is outside the [#if]: both configurations have it. *)
Definition QM_normalize (q : QMquaternion) : QMquaternion :=
  let result := default in
  let len := QM_length q in
  if len != zero then op_div_scalar q len else result.

(** The scalar branch calls [QM_quaternion_dot], a name the header never
    declares (that branch does not compile as it stands); it is a
    parameter here.  The SSE branch evaluates [_mm_div_ps] and drops its
    value: [result] is returned as the four assignments left it. *)
Variable QM_quaternion_dot : QMquaternion -> QMquaternion -> float.

Definition QM_inverse (q : QMquaternion) : QMquaternion :=
  let result := mk (- x q) (- y q) (- z q) (w q) in
  if QM_USE_SSE then
    let scale := _mm_set1_ps (QM_dot q q) in
    let _ := _mm_div_ps (packed result) scale in
    result
  else
    let invLen2 := one / QM_quaternion_dot q q in
    let result := mk (x result * invLen2) (y result) (z result) (w result) in
    let result := mk (x result) (y result * invLen2) (z result) (w result) in
    let result := mk (x result) (y result) (z result * invLen2) (w result) in
    let result := mk (x result) (y result) (z result) (w result * invLen2) in
    result.

Definition QM_slerp `{CRT} (q1 q2 : QMquaternion) (a : float) : QMquaternion :=
  let cosine := QM_dot q1 q2 in
  let angle := QM_ACOSF cosine in
  let sine1 := QM_SINF ((one - a) * angle) in
  let sine2 := QM_SINF (a * angle) in
  let invSine := one / QM_SINF angle in
  let q1scaled := op_mul_scalar q1 sine1 in
  let q2scaled := op_mul_scalar q2 sine2 in
  let result := op_add q1scaled q2scaled in
  let result := op_mul_scalar result invSine in
  result.

End Config.

Definition QM_quaternion_from_axis_angle `{CRT} (axis : QMvec3) (angle : float)
  : QMquaternion :=
  let radians := QM_deg_to_rad (angle * lit_0_5) in
  let normalized := Vec3.QM_normalize axis in
  let sine := QM_SINF radians in
  mk (Vec3.x normalized * sine) (Vec3.y normalized * sine) (Vec3.z normalized * sine)
     (QM_COSF radians).

Section Config.
Variable QM_USE_SSE : bool.

Definition QM_quaternion_from_euler `{CRT} (angles : QMvec3) : QMquaternion :=
  let radians :=
    Vec3.mk (QM_deg_to_rad (Vec3.x angles * lit_0_5))
            (QM_deg_to_rad (Vec3.y angles * lit_0_5))
            (QM_deg_to_rad (Vec3.z angles * lit_0_5)) in
  let sinx := QM_SINF (Vec3.x radians) in
  let cosx := QM_COSF (Vec3.x radians) in
  let siny := QM_SINF (Vec3.y radians) in
  let cosy := QM_COSF (Vec3.y radians) in
  let sinz := QM_SINF (Vec3.z radians) in
  let cosz := QM_COSF (Vec3.z radians) in
  if QM_USE_SSE then
    let packedx := _mm_setr_ps sinx cosx cosx cosx in
    let packedy := _mm_setr_ps cosy siny cosy cosy in
    let packedz := _mm_setr_ps cosz cosz sinz cosz in
    let result := _mm_mul_ps (_mm_mul_ps packedx packedy) packedz in
    let packedx := _mm_shuffle_ps packedx packedx (_MM_SHUFFLE 0 0 0 1) in
    let packedy := _mm_shuffle_ps packedy packedy (_MM_SHUFFLE 1 1 0 1) in
    let packedz := _mm_shuffle_ps packedz packedz (_MM_SHUFFLE 2 0 2 2) in
    of_packed (_mm_addsub_ps result (_mm_mul_ps (_mm_mul_ps packedx packedy) packedz))
  else
    mk (sinx * cosy * cosz - cosx * siny * sinz)
       (cosx * siny * cosz + sinx * cosy * sinz)
       (cosx * cosy * sinz - sinx * siny * cosz)
       (cosx * cosy * cosz + sinx * siny * sinz).

End Config.

Definition QM_quaternion_to_mat4 (q : QMquaternion) : Mat4.QMmat4 :=
  let result := Mat4.QM_mat4_identity in
  let x2 := x q + x q in
  let y2 := y q + y q in
  let z2 := z q + z q in
  let xx2 := x q * x2 in
  let xy2 := x q * y2 in
  let xz2 := x q * z2 in
  let yy2 := y q * y2 in
  let yz2 := y q * z2 in
  let zz2 := z q * z2 in
  let sx2 := w q * x2 in
  let sy2 := w q * y2 in
  let sz2 := w q * z2 in
  let result := Mat4.set_m result 0 0 (one - (yy2 + zz2)) in
  let result := Mat4.set_m result 0 1 (xy2 - sz2) in
  let result := Mat4.set_m result 0 2 (xz2 + sy2) in
  let result := Mat4.set_m result 1 0 (xy2 + sz2) in
  let result := Mat4.set_m result 1 1 (one - (xx2 + zz2)) in
  let result := Mat4.set_m result 1 2 (yz2 - sx2) in
  let result := Mat4.set_m result 2 0 (xz2 - sy2) in
  let result := Mat4.set_m result 2 1 (yz2 + sx2) in
  let result := Mat4.set_m result 2 2 (one - (xx2 + yy2)) in
  result.

End Quat.

Import Mat4 Quat.

(** ** What the specification says, in its own words *)

(** The scalar Hamilton product, as the specification writes it out. *)
Definition hamilton (q1 q2 : QMquaternion) : QMquaternion :=
  let '(Quat.mk x1 y1 z1 w1) := q1 in
  let '(Quat.mk x2 y2 z2 w2) := q2 in
  Quat.mk (w1 * x2 + x1 * w2 + y1 * z2 - z1 * y2)
          (w1 * y2 - x1 * z2 + y1 * w2 + z1 * x2)
          (w1 * z2 + x1 * y2 - y1 * x2 + z1 * w2)
          (w1 * w2 - x1 * x2 - y1 * y2 - z1 * z2).

(** Entry (column [j], row [i]) of a 4x4 product as the sum over [k] of
    [m1\[k\]\[i\] * m2\[j\]\[k\]], accumulated for [k = 0, 1, 2, 3] in that order. *)
Definition mat4_entry_sum (m1 m2 : QMmat4) (j i : nat) : float :=
  fold_left (fun acc k => acc + m m1 k i * m m2 j k) [1%nat; 2%nat; 3%nat]
            (m m1 0 i * m m2 j 0).

Definition mat4_of_entries (f : nat -> nat -> float) : QMmat4 :=
  Mat4.mk (Vec4.mk (f 0 0) (f 0 1) (f 0 2) (f 0 3))%nat
          (Vec4.mk (f 1 0) (f 1 1) (f 1 2) (f 1 3))%nat
          (Vec4.mk (f 2 0) (f 2 1) (f 2 2) (f 2 3))%nat
          (Vec4.mk (f 3 0) (f 3 1) (f 3 2) (f 3 3))%nat.

(** The quaternion inverse the specification describes: the conjugate with
    every component scaled by [1 / dot(q, q)]. *)
Definition inverse_scaled (sse : bool) (q : QMquaternion) : QMquaternion :=
  Quat.op_mul_scalar sse (QM_conjugate q) (one / Quat.QM_dot sse q q).

(** The entries [QM_perspective] never assigns, as (column, row). *)
Definition unassigned_perspective : list (nat * nat) :=
  [(0, 1); (0, 2); (0, 3); (1, 0); (1, 2); (1, 3);
   (2, 0); (2, 1); (3, 0); (3, 1); (3, 3)]%nat.

(** ** Hosts

    What ISO C (Annex F) fixes about [acosf] and [sinf] at the arguments the
    degenerate cases of [QM_slerp] reach: [acos(1) = +0], [acos(x)] is a NaN
    for [x > 1], [sin(+0) = +0], and a NaN argument gives a NaN. *)
Definition annex_f (H : CRT) : Prop :=
  QM_ACOSF one = zero /\
  (forall a, ltb one a = true -> QM_ACOSF a = nan) /\
  QM_SINF zero = zero /\
  QM_SINF nan = nan.

(** A host tabulated at the few arguments the examples below evaluate: the
    values at zero, [acosf 1 = +0], and [tanf] at the binary32 nearest to
    pi/4, whose correctly rounded tangent is [1.0f]; NaN everywhere else. *)
Definition crt_sample : CRT := {|
  QM_SINF := fun a => match a with S754_zero _ => a | _ => nan end;
  QM_COSF := fun a => match a with S754_zero _ => one | _ => nan end;
  QM_TANF := fun a =>
    match a with
    | S754_zero _ => a
    | _ => if a == S754_finite false 13176795 (-24) then one else nan
    end;
  QM_ACOSF := fun a => if a == one then zero else nan
|}.

(** ** Sample values *)

Definition two_m25 : float := S754_finite false 8388608 (-48).    (* 2^-25 *)
Definition two_m80 : float := S754_finite false 8388608 (-103).   (* 2^-80 *)
Definition q_0002 : QMquaternion := Quat.mk zero zero zero lit_2.

(** ** Predicates on floats, vectors and quaternions *)

(** A finite, well-formed binary32. *)
Definition fin (a : float) : bool := valid a && is_finite a.

Definition fin2 (v : QMvec2) : bool := fin (Vec2.x v) && fin (Vec2.y v).
Definition fin3 (v : QMvec3) : bool := fin (Vec3.x v) && fin (Vec3.y v) && fin (Vec3.z v).
Definition fin4 (v : QMvec4) : bool :=
  fin (Vec4.x v) && fin (Vec4.y v) && fin (Vec4.z v) && fin (Vec4.w v).

Definition quat_valid (q : QMquaternion) : bool :=
  valid (Quat.x q) && valid (Quat.y q) && valid (Quat.z q) && valid (Quat.w q).

Definition quat_finite (q : QMquaternion) : bool :=
  is_finite (Quat.x q) && is_finite (Quat.y q) && is_finite (Quat.z q)
  && is_finite (Quat.w q).

Definition quat_has_nan (q : QMquaternion) : bool :=
  is_nan (Quat.x q) || is_nan (Quat.y q) || is_nan (Quat.z q) || is_nan (Quat.w q).

(** The value of a finite float in units of [2^-149], the smallest positive
    binary32: an integer for every well-formed float. *)
Definition scaled (a : float) : Z :=
  match a with
  | S754_finite s m e => (cond_Zopp s (Z.pos m) * 2 ^ (e + 149))%Z
  | _ => 0%Z
  end.

(** [a + b] is computed without rounding: the sum is finite and its value is
    the sum of the values. *)
Definition exact_add (a b : float) : bool :=
  is_finite (a + b) && (scaled (a + b) =? scaled a + scaled b)%Z.

Definition exact_add2 (v1 v2 : QMvec2) : bool :=
  exact_add (Vec2.x v1) (Vec2.x v2) && exact_add (Vec2.y v1) (Vec2.y v2).
Definition exact_add3 (v1 v2 : QMvec3) : bool :=
  exact_add (Vec3.x v1) (Vec3.x v2) && exact_add (Vec3.y v1) (Vec3.y v2)
  && exact_add (Vec3.z v1) (Vec3.z v2).
Definition exact_add4 (v1 v2 : QMvec4) : bool :=
  exact_add (Vec4.x v1) (Vec4.x v2) && exact_add (Vec4.y v1) (Vec4.y v2)
  && exact_add (Vec4.z v1) (Vec4.z v2) && exact_add (Vec4.w v1) (Vec4.w v2).

(** ** Notions used in the proofs about rounding and encoding *)

Definition sign_of (a : float) : bool :=
  match a with
  | S754_zero s | S754_infinity s | S754_finite s _ _ => s
  | S754_nan => false
  end.

Definition with_sign (t : bool) (a : float) : float :=
  match a with
  | S754_zero _ => S754_zero t
  | S754_infinity _ => S754_infinity t
  | S754_nan => S754_nan
  | S754_finite _ m e => S754_finite t m e
  end.

(** [of_bits] on the three fields of an encoding. *)
Definition decode (s : bool) (ex fr : Z) : float :=
  if (ex =? 0)%Z then
    match fr with Z.pos m => S754_finite s m (-149) | _ => S754_zero s end
  else if (ex =? 0xFF)%Z then
    (if (fr =? 0)%Z then S754_infinity s else S754_nan)
  else
    match (fr + 0x800000)%Z with
    | Z.pos m => S754_finite s m (ex - 150)
    | _ => S754_nan
    end.

(** The mantissa [m] is the canonical one for the exponent [e]. *)
Definition canon (m : positive) (e : Z) : Prop :=
  fexp prec emax (Z.pos (digits2_pos m) + e) = e.

Definition finite_or_inf (s : bool) (m : positive) (e : Z) : float :=
  if (e <=? 104)%Z then S754_finite s m e else S754_infinity s.

(** A result of rounding with sign [s]: not a NaN, of that sign, and
    well formed. *)
Definition rounded (s : bool) (r : float) : Prop :=
  match r with
  | S754_nan => False
  | S754_zero s' | S754_infinity s' => s' = s
  | S754_finite s' m e => s' = s /\ bounded prec emax m e = true
  end.

(** Not a NaN, and of sign [s]. *)
Definition signed (s : bool) (r : float) : Prop :=
  match r with
  | S754_nan => False
  | S754_zero s' | S754_infinity s' | S754_finite s' _ _ => s' = s
  end.

(** ** Further notions of the statements

    [same a b]: the two floats are the same value, or both are zeros (of
    either sign): what [==] sees, NaN apart. *)

Definition is_zero (a : float) : bool :=
  match a with
  | S754_zero _ => true
  | _ => false
  end.

Definition same (a b : float) : Prop := a = b \/ (is_zero a = true /\ is_zero b = true).

Definition nan2 (v : QMvec2) : bool := is_nan (Vec2.x v) || is_nan (Vec2.y v).
Definition nan3 (v : QMvec3) : bool :=
  is_nan (Vec3.x v) || is_nan (Vec3.y v) || is_nan (Vec3.z v).
Definition nan4 (v : QMvec4) : bool :=
  is_nan (Vec4.x v) || is_nan (Vec4.y v) || is_nan (Vec4.z v) || is_nan (Vec4.w v).

Definition fin_mat4 (a : QMmat4) : bool :=
  fin4 (v0 a) && fin4 (v1 a) && fin4 (v2 a) && fin4 (v3 a).

(** No component of [v] is greater than the same component of [bound]. *)
Definition not_above2 (v bound : QMvec2) : bool :=
  negb (ltb (Vec2.x bound) (Vec2.x v)) && negb (ltb (Vec2.y bound) (Vec2.y v)).
Definition not_above3 (v bound : QMvec3) : bool :=
  negb (ltb (Vec3.x bound) (Vec3.x v)) && negb (ltb (Vec3.y bound) (Vec3.y v))
  && negb (ltb (Vec3.z bound) (Vec3.z v)).
Definition not_above4 (v bound : QMvec4) : bool :=
  negb (ltb (Vec4.x bound) (Vec4.x v)) && negb (ltb (Vec4.y bound) (Vec4.y v))
  && negb (ltb (Vec4.z bound) (Vec4.z v)) && negb (ltb (Vec4.w bound) (Vec4.w v)).

(** A NaN, or a value whose sign bit is clear. *)
Definition nonneg_or_nan (r : float) : Prop :=
  match r with
  | S754_nan => True
  | S754_zero s | S754_infinity s | S754_finite s _ _ => s = false
  end.

(** [b] is [-a], or both are [+0] (the two orders of an exact cancellation). *)
Definition opp_or_zero (a b : float) : Prop := b = - a \/ (a = zero /\ b = zero).

Definition zero_or_nan (a : float) : Prop := a = zero \/ a = nan.

Definition quat_fin (q : QMquaternion) : bool :=
  fin (Quat.x q) && fin (Quat.y q) && fin (Quat.z q) && fin (Quat.w q).

(** [2^100], whose square overflows. *)
Definition two_100 : float := S754_finite false 8388608 77.

(** Unfolds the lane-wise intrinsics and the [packed] views. *)
Ltac lanes :=
  unfold _mm_add_ps, _mm_sub_ps, _mm_mul_ps, _mm_div_ps, _mm_min_ps, _mm_max_ps,
    _mm_addsub_ps, _mm_hadd_ps, _mm_set1_ps, _mm_setr_ps, _mm_store_ss, map2,
    Vec4.of_packed, Vec4.packed, Quat.of_packed, Quat.packed;
  cbn [f0 f1 f2 f3 Vec2.x Vec2.y Vec3.x Vec3.y Vec3.z Vec4.x Vec4.y Vec4.z Vec4.w
       Quat.x Quat.y Quat.z Quat.w].

(** [==] entry by entry; the header has no [operator==] on matrices. *)
Definition mat4_eq (a b : QMmat4) : bool :=
  Vec4.op_eq (v0 a) (v0 b) && Vec4.op_eq (v1 a) (v1 b)
  && Vec4.op_eq (v2 a) (v2 b) && Vec4.op_eq (v3 a) (v3 b).

(** [0 < 2 ^ n], for the side conditions of division and multiplication. *)
Ltac pow2_pos := apply Z.pow_pos_nonneg; lia.

(** * Properties of binary32 arithmetic

    The lemmas of this part are about [F32] alone; the header's functions
    come back in the last part of the file. *)

Local Close Scope f32_scope.

(** ** The literals and their encodings *)

Example lit_encodings :
  bits_of one = 0x3F800000 /\ bits_of lit_0_5 = 0x3F000000 /\
  bits_of lit_2 = 0x40000000 /\ bits_of (lit 1 10) = 0x3DCCCCCD /\
  bits_of lit_deg = 0x3C8EFA35 /\ bits_of lit_rad = 0x42652EE1 /\
  bits_of (QM_deg_to_rad (lit 45 1)) = 0x3F490FDB /\
  of_bits 0x3DCCCCCD = lit 1 10 /\ of_bits 0x80000000 = nzero.
Proof. vm_compute. repeat split. Qed.

(** ** Mantissas and their number of digits *)

Section Digits.

Lemma digits2_pos_bounds (m : positive) :
  2 ^ (Z.pos (digits2_pos m) - 1) <= Z.pos m < 2 ^ Z.pos (digits2_pos m).
Proof.
  induction m as [p IH | p IH |]; cbn [digits2_pos].
  - pose proof (Pos2Z.inj_xI p) as E. rewrite Pos2Z.inj_succ.
    replace (Z.succ (Z.pos (digits2_pos p)) - 1) with (Z.succ (Z.pos (digits2_pos p) - 1)) by lia.
    rewrite !Z.pow_succ_r by lia. lia.
  - pose proof (Pos2Z.inj_xO p) as E. rewrite Pos2Z.inj_succ.
    replace (Z.succ (Z.pos (digits2_pos p)) - 1) with (Z.succ (Z.pos (digits2_pos p) - 1)) by lia.
    rewrite !Z.pow_succ_r by lia. lia.
  - simpl. lia.
Qed.

Lemma Zdigits2_pos_unique (m : positive) (d : Z) :
  2 ^ (d - 1) <= Z.pos m < 2 ^ d -> 0 < d -> Z.pos (digits2_pos m) = d.
Proof.
  intros [Hlo Hhi] Hd.
  pose proof (digits2_pos_bounds m) as [Hlo' Hhi'].
  set (d' := Z.pos (digits2_pos m)) in *.
  assert (0 < d') by (unfold d'; lia).
  destruct (Z_lt_le_dec d d') as [Hlt | Hge].
  - assert (2 ^ d <= 2 ^ (d' - 1)) by (apply Z.pow_le_mono_r; lia). lia.
  - destruct (Z_lt_le_dec d' d) as [Hlt' | Hge']; [| lia].
    assert (2 ^ d' <= 2 ^ (d - 1)) by (apply Z.pow_le_mono_r; lia). lia.
Qed.

Lemma digits2_pos_shift (m : positive) (k : Z) (p : positive) :
  0 <= k -> Z.pos p = Z.pos m * 2 ^ k ->
  Z.pos (digits2_pos p) = Z.pos (digits2_pos m) + k.
Proof.
  intros Hk Hp. pose proof (digits2_pos_bounds m) as [Hlo Hhi].
  apply Zdigits2_pos_unique; [| lia].
  rewrite Hp.
  replace (Z.pos (digits2_pos m) + k - 1) with (Z.pos (digits2_pos m) - 1 + k) by lia.
  rewrite !Z.pow_add_r by lia.
  assert (0 < 2 ^ k) by pow2_pos.
  split; nia.
Qed.

Lemma Zdigits2_div (m : positive) (n : Z) (q : positive) :
  0 <= n -> Z.pos q = Z.pos m / 2 ^ n ->
  Z.pos (digits2_pos q) = Z.pos (digits2_pos m) - n.
Proof.
  intros Hn Hq. pose proof (digits2_pos_bounds m) as [Hlo Hhi].
  set (d := Z.pos (digits2_pos m)) in *.
  assert (H2n : 0 < 2 ^ n) by pow2_pos.
  assert (Hnd : n < d).
  { destruct (Z_lt_le_dec n d) as [|Hge]; [assumption | exfalso].
    assert (2 ^ d <= 2 ^ n) by (apply Z.pow_le_mono_r; lia).
    rewrite Z.div_small in Hq by lia. lia. }
  apply Zdigits2_pos_unique; [| lia].
  rewrite Hq. split.
  - apply Z.div_le_lower_bound; [lia |].
    rewrite <- Z.pow_add_r by lia. replace (n + (d - n - 1)) with (d - 1) by lia. exact Hlo.
  - apply Z.div_lt_upper_bound; [lia |].
    rewrite <- Z.pow_add_r by lia. replace (n + (d - n)) with d by lia. exact Hhi.
Qed.

Lemma digits2_pos_mul (a b : positive) :
  Z.pos (digits2_pos a) + Z.pos (digits2_pos b) - 1 <= Z.pos (digits2_pos (a * b)).
Proof.
  pose proof (digits2_pos_bounds a) as [Ha _].
  pose proof (digits2_pos_bounds b) as [Hb _].
  pose proof (digits2_pos_bounds (a * b)) as [_ Hab].
  set (da := Z.pos (digits2_pos a)) in *. set (db := Z.pos (digits2_pos b)) in *.
  set (dab := Z.pos (digits2_pos (a * b))) in *.
  assert (0 < da /\ 0 < db /\ 0 < dab) as (? & ? & ?) by (unfold da, db, dab; lia).
  assert (Hp : 2 ^ (da - 1 + (db - 1)) < 2 ^ dab).
  { rewrite Z.pow_add_r by lia. rewrite Pos2Z.inj_mul in Hab.
    assert (0 < 2 ^ (da - 1)) by pow2_pos.
    assert (0 < 2 ^ (db - 1)) by pow2_pos. nia. }
  apply Z.pow_lt_mono_r_iff in Hp; lia.
Qed.

(** A well-formed finite float is subnormal with exponent [-149], or normal
    with a 24-bit mantissa. *)
Lemma valid_finite_cases s m e :
  valid (S754_finite s m e) = true ->
  (e = -149 /\ Z.pos m < 0x800000) \/
  (0x800000 <= Z.pos m < 0x1000000 /\ -149 <= e <= 104).
Proof.
  unfold valid, valid_binary, bounded, canonical_mantissa, fexp, emin, prec, emax.
  intros H. apply andb_prop in H. destruct H as [Hc He].
  apply Z.eqb_eq in Hc. apply Z.leb_le in He.
  pose proof (digits2_pos_bounds m) as [Hlo Hhi].
  set (d := Z.pos (digits2_pos m)) in *.
  assert (Hd : 0 < d) by (unfold d; lia).
  destruct (Z_lt_le_dec d 24) as [Hlt | Hge].
  - left. split; [lia |].
    apply Z.lt_le_trans with (1 := Hhi).
    change 0x800000 with (2 ^ 23). apply Z.pow_le_mono_r; lia.
  - right. assert (d = 24) by lia.
    rewrite H in Hlo, Hhi. simpl in Hlo, Hhi. lia.
Qed.

Lemma fexp_eq (e : Z) : fexp prec emax e = Z.max (e - 24) (-149).
Proof. reflexivity. Qed.

Lemma bounded_iff (m : positive) (e : Z) :
  bounded prec emax m e = true <-> canon m e /\ e <= 104.
Proof.
  unfold bounded, canonical_mantissa, canon.
  rewrite andb_true_iff, Z.eqb_eq, Z.leb_le. reflexivity.
Qed.

Lemma valid_finite_iff (s : bool) (m : positive) (e : Z) :
  valid (S754_finite s m e) = true <-> canon m e /\ e <= 104.
Proof. apply bounded_iff. Qed.

Lemma valid_emin (s : bool) (m : positive) (e : Z) :
  valid (S754_finite s m e) = true -> -149 <= e.
Proof.
  intros H. apply valid_finite_iff in H as [Hc _].
  unfold canon in Hc. rewrite fexp_eq in Hc. lia.
Qed.

End Digits.

(** ** The binary32 encoding and [_mm_xor_ps] with a sign mask *)

Section Encoding.

Lemma land_sign_bit_small (r : Z) :
  0 <= r < 0x80000000 -> Z.land r 0x80000000 = 0.
Proof.
  intros Hr. apply Z.bits_inj'. intros n Hn.
  rewrite Z.land_spec, Z.bits_0.
  change 0x80000000 with (2 ^ 31).
  rewrite Z.pow2_bits_eqb by lia.
  destruct (Z.eqb_spec 31 n) as [<- | _]; [| apply andb_false_r].
  rewrite andb_true_r.
  destruct (Z.eq_dec r 0) as [-> | Hnz]; [apply Z.bits_0 |].
  apply Z.bits_above_log2; [lia |].
  apply Z.log2_lt_pow2; [lia |]. change (2 ^ 31) with 0x80000000. lia.
Qed.

Lemma lxor_sign_bit (s t : bool) (r : Z) :
  0 <= r < 0x80000000 ->
  Z.lxor (sign_bit s + r) (sign_bit t) = sign_bit (xorb s t) + r.
Proof.
  intros Hr. pose proof (land_sign_bit_small r Hr) as Hl.
  assert (Hx : Z.lxor r 0x80000000 = 0x80000000 + r).
  { rewrite Z.add_comm. symmetry. now apply Z.add_nocarry_lxor. }
  destruct s, t; cbn [sign_bit xorb]; rewrite ?Z.add_0_l, ?Z.lxor_0_r; try reflexivity.
  - rewrite <- Hx, Z.lxor_assoc, Z.lxor_nilpotent, Z.lxor_0_r. reflexivity.
  - exact Hx.
Qed.

Lemma of_bits_fields (s : bool) (ex fr : Z) :
  0 <= ex < 256 -> 0 <= fr < 0x800000 ->
  of_bits (sign_bit s + (ex * 0x800000 + fr)) = decode s ex fr.
Proof.
  intros Hex Hfr. unfold of_bits, decode.
  assert (Hs : Z.testbit (sign_bit s + (ex * 0x800000 + fr)) 31 = s).
  { rewrite Z.testbit_odd, Z.shiftr_div_pow2 by lia.
    change (2 ^ 31) with 0x80000000.
    replace ((sign_bit s + (ex * 0x800000 + fr)) / 0x80000000) with (if s then 1 else 0).
    - now destruct s.
    - destruct s; cbn [sign_bit]; Z.div_mod_to_equations; lia. }
  assert (He : Z.land (Z.shiftr (sign_bit s + (ex * 0x800000 + fr)) 23) 0xFF = ex).
  { change 0xFF with (Z.ones 8). rewrite Z.land_ones, Z.shiftr_div_pow2 by lia.
    change (2 ^ 23) with 0x800000. change (2 ^ 8) with 256.
    destruct s; cbn [sign_bit]; Z.div_mod_to_equations; lia. }
  assert (Hf : Z.land (sign_bit s + (ex * 0x800000 + fr)) 0x7FFFFF = fr).
  { change 0x7FFFFF with (Z.ones 23). rewrite Z.land_ones by lia.
    change (2 ^ 23) with 0x800000.
    destruct s; cbn [sign_bit]; Z.div_mod_to_equations; lia. }
  cbv zeta. rewrite Hs, He, Hf. reflexivity.
Qed.

(** The fields of a well-formed float. *)
Lemma bits_of_fields (a : float) :
  valid a = true ->
  exists ex fr, 0 <= ex < 256 /\ 0 <= fr < 0x800000 /\
    bits_of a = sign_bit (sign_of a) + (ex * 0x800000 + fr) /\
    forall t, decode t ex fr = with_sign t a.
Proof.
  destruct a as [s | s | | s m e]; intros Hv.
  - exists 0, 0. cbn. repeat split; lia.
  - exists 255, 0. cbn. repeat split; lia.
  - exists 255, 0x400000. cbn. repeat split; lia.
  - destruct (valid_finite_cases s m e Hv) as [[-> Hm] | [Hm He]].
    + exists 0, (Z.pos m). cbn [bits_of sign_of].
      destruct (Z.ltb_spec (Z.pos m) 0x800000); [| lia].
      repeat split; try lia; reflexivity.
    + exists (e + 150), (Z.pos m - 0x800000). cbn [bits_of sign_of].
      destruct (Z.ltb_spec (Z.pos m) 0x800000); [lia |].
      repeat split; try lia.
      intros t. unfold decode.
      destruct (Z.eqb_spec (e + 150) 0); [lia |].
      destruct (Z.eqb_spec (e + 150) 0xFF); [lia |].
      replace (Z.pos m - 0x800000 + 0x800000) with (Z.pos m) by lia.
      cbn [with_sign]. f_equal. lia.
Qed.

Lemma xor_lane_sign (a : float) (t : bool) :
  valid a = true -> xor_lane a (S754_zero t) = with_sign (xorb (sign_of a) t) a.
Proof.
  intros Hv. destruct (bits_of_fields a Hv) as (ex & fr & Hex & Hfr & Hb & Hd).
  unfold xor_lane. cbn [bits_of]. rewrite Hb.
  rewrite lxor_sign_bit by lia.
  rewrite of_bits_fields by assumption. apply Hd.
Qed.

Lemma xor_lane_zero (a : float) : valid a = true -> xor_lane a zero = a.
Proof.
  intros Hv. unfold zero. rewrite xor_lane_sign by assumption.
  destruct a as [[] | [] | | [] m e]; reflexivity.
Qed.

Lemma xor_lane_neg_zero (a : float) :
  valid a = true -> xor_lane a (- zero)%f32 = (- a)%f32.
Proof.
  intros Hv. cbn [zero neg SFopp negb]. rewrite xor_lane_sign by assumption.
  destruct a as [[] | [] | | [] m e]; reflexivity.
Qed.

End Encoding.

(** ** Commutativity and signs *)

Section Algebra.

Lemma mul_comm (a b : float) : mul a b = mul b a.
Proof.
  unfold mul, SFmul.
  destruct a as [sa | sa | | sa ma ea], b as [sb | sb | | sb mb eb];
    try reflexivity; try (now rewrite xorb_comm).
  now rewrite xorb_comm, Pos.mul_comm, Z.add_comm.
Qed.

Lemma binary_round_aux_negb (s : bool) (mx ex : Z) (l : location) :
  binary_round_aux prec emax (negb s) mx ex l = SFopp (binary_round_aux prec emax s mx ex l).
Proof.
  unfold binary_round_aux.
  destruct (shr_fexp prec emax mx ex l) as [mrs' e'].
  destruct (shr_fexp prec emax _ e' loc_Exact) as [mrs'' e''].
  destruct (shr_m mrs'') as [| m | m]; try reflexivity.
  now destruct (e'' <=? emax - prec).
Qed.

Lemma mul_neg_l (a b : float) : mul (neg a) b = neg (mul a b).
Proof.
  unfold mul, neg, SFmul.
  destruct a as [sa | sa | | sa ma ea], b as [sb | sb | | sb mb eb];
    cbn [SFopp]; try reflexivity; try (now rewrite <- negb_xorb_l).
  rewrite <- negb_xorb_l. apply binary_round_aux_negb.
Qed.

Lemma cond_Zopp_negb (s : bool) (m : Z) : cond_Zopp (negb s) m = - cond_Zopp s m.
Proof. destruct s; cbn; lia. Qed.

Lemma add_neg_r (a b : float) : add a (neg b) = sub a b.
Proof.
  unfold add, sub, neg, SFadd, SFsub.
  destruct a as [[] | [] | | sa ma ea], b as [[] | [] | | sb mb eb];
    cbn [SFopp negb]; try reflexivity.
  rewrite cond_Zopp_negb. reflexivity.
Qed.

Lemma compare_cont_swap (p q : positive) :
  Pos.compare_cont Eq p q = CompOpp (Pos.compare_cont Eq q p).
Proof. now rewrite Pos.compare_cont_antisym. Qed.

Lemma feqb_refl (a : float) : is_nan a = false -> eqb a a = true.
Proof.
  destruct a as [s | s | | s m e]; cbn; try reflexivity; try discriminate.
  - now destruct s.
  - intros _. unfold eqb, SFeqb, SFcompare.
    rewrite Z.compare_refl, Pos.compare_cont_refl. now destruct s.
Qed.

End Algebra.

(** ** Rounding

    [binary_round_aux] shifts the mantissa right to the target exponent,
    rounds to nearest even, and shifts once more when the increment carried
    into a 25th bit. *)

Section Rounding.

Lemma shr_1_m (mrs : shr_record) :
  0 <= shr_m mrs -> shr_m (shr_1 mrs) = shr_m mrs / 2.
Proof.
  destruct mrs as [m r s]. cbn [shr_m]. intros Hm.
  destruct m as [| [p | p |] |]; cbn [shr_1 shr_m]; try lia.
  all: Z.div_mod_to_equations; lia.
Qed.

Lemma iter_shr_1_m (n : positive) (mrs : shr_record) :
  0 <= shr_m mrs ->
  shr_m (iter_pos shr_1 n mrs) = shr_m mrs / 2 ^ Z.pos n.
Proof.
  revert mrs. induction n as [n IH | n IH |]; intros mrs Hm; cbn [iter_pos].
  - assert (H1 : 0 <= shr_m (shr_1 mrs)).
    { rewrite shr_1_m by assumption. apply Z.div_pos; lia. }
    assert (H2 : 0 <= shr_m (iter_pos shr_1 n (shr_1 mrs))).
    { rewrite IH by assumption. apply Z.div_pos; [lia | pow2_pos]. }
    rewrite IH, IH, shr_1_m by assumption.
    rewrite !Z.div_div by (try lia; pow2_pos).
    f_equal. rewrite (Pos2Z.inj_xI n).
    replace (2 * Z.pos n + 1) with (1 + Z.pos n + Z.pos n) by lia.
    rewrite !Z.pow_add_r by lia. lia.
  - assert (H2 : 0 <= shr_m (iter_pos shr_1 n mrs)).
    { rewrite IH by assumption. apply Z.div_pos; [lia | pow2_pos]. }
    rewrite IH, IH by assumption.
    rewrite !Z.div_div by (try lia; pow2_pos).
    f_equal. rewrite (Pos2Z.inj_xO n).
    replace (2 * Z.pos n) with (Z.pos n + Z.pos n) by lia.
    rewrite !Z.pow_add_r by lia. lia.
  - rewrite shr_1_m by assumption. reflexivity.
Qed.

Lemma shr_1_exact (m : Z) :
  0 <= m -> shr_1 (Build_shr_record (2 * m) false false) = Build_shr_record m false false.
Proof. intros Hm. destruct m as [| p |]; [reflexivity | reflexivity | lia]. Qed.

Lemma iter_shr_1_exact (n : positive) (m : Z) :
  0 <= m ->
  iter_pos shr_1 n (Build_shr_record (m * 2 ^ Z.pos n) false false)
  = Build_shr_record m false false.
Proof.
  revert m. induction n as [n IH | n IH |]; intros m Hm; cbn [iter_pos].
  - assert (H2 : 0 < 2 ^ Z.pos n) by pow2_pos.
    replace (m * 2 ^ Z.pos n~1) with (2 * (m * 2 ^ Z.pos n * 2 ^ Z.pos n)).
    + rewrite shr_1_exact by nia. rewrite IH by nia. apply IH. assumption.
    + rewrite (Pos2Z.inj_xI n).
      replace (2 * Z.pos n + 1) with (1 + Z.pos n + Z.pos n) by lia.
      rewrite !Z.pow_add_r by lia. lia.
  - assert (H2 : 0 < 2 ^ Z.pos n) by pow2_pos.
    replace (m * 2 ^ Z.pos n~0) with (m * 2 ^ Z.pos n * 2 ^ Z.pos n).
    + rewrite IH by nia. apply IH. assumption.
    + rewrite (Pos2Z.inj_xO n).
      replace (2 * Z.pos n) with (Z.pos n + Z.pos n) by lia.
      rewrite !Z.pow_add_r by lia. lia.
  - change (2 ^ 1) with 2. rewrite Z.mul_comm. now apply shr_1_exact.
Qed.

Lemma round_nearest_even_cases (m : Z) (l : location) :
  round_nearest_even m l = m \/ round_nearest_even m l = m + 1.
Proof.
  destruct l as [| []]; cbn [round_nearest_even]; auto.
  destruct (Z.even m); auto.
Qed.

Lemma shr_spec (mrs : shr_record) (e n : Z) :
  0 <= shr_m mrs ->
  shr_m (fst (shr mrs e n)) = shr_m mrs / 2 ^ Z.max 0 n /\
  snd (shr mrs e n) = e + Z.max 0 n.
Proof.
  intros Hm. destruct n as [| p | p]; cbn [shr fst snd].
  - change (Z.max 0 0) with 0. rewrite Z.pow_0_r, Z.div_1_r. lia.
  - rewrite iter_shr_1_m by assumption. replace (Z.max 0 (Z.pos p)) with (Z.pos p) by lia.
    split; reflexivity.
  - replace (Z.max 0 (Z.neg p)) with 0 by lia. rewrite Z.pow_0_r, Z.div_1_r. lia.
Qed.

Lemma shr_m_of_loc (m : Z) (l : location) : shr_m (shr_record_of_loc m l) = m.
Proof. destruct l as [| []]; reflexivity. Qed.

Lemma shr_fexp_spec (mx ex : Z) (l : location) :
  0 <= mx ->
  let n := Z.max 0 (fexp prec emax (Zdigits2 mx + ex) - ex) in
  shr_m (fst (shr_fexp prec emax mx ex l)) = mx / 2 ^ n /\
  snd (shr_fexp prec emax mx ex l) = ex + n.
Proof.
  intros Hm n. unfold shr_fexp.
  pose proof (shr_spec (shr_record_of_loc mx l) ex
                (fexp prec emax (Zdigits2 mx + ex) - ex)) as H.
  rewrite shr_m_of_loc in H. apply H. assumption.
Qed.

(** Re-normalisation after the rounding increment. *)
Lemma shr_fexp_renorm (p1 : positive) (e' dq : Z) :
  0 <= dq -> fexp prec emax (dq + e') = e' ->
  2 ^ (dq - 1) <= Z.pos p1 <= 2 ^ dq ->
  exists m2, shr_m (fst (shr_fexp prec emax (Z.pos p1) e' loc_Exact)) = Z.pos m2 /\
             canon m2 (snd (shr_fexp prec emax (Z.pos p1) e' loc_Exact)).
Proof.
  intros Hdq Hc [Hlo Hhi]. rewrite fexp_eq in Hc.
  destruct (Z_lt_le_dec (Z.pos p1) (2 ^ dq)) as [Hlt | Hge].
  - (* same number of digits *)
    assert (Hpos : 0 < dq).
    { destruct (Z.eq_dec dq 0) as [-> |]; [simpl in Hlt; lia | lia]. }
    assert (Hd : Z.pos (digits2_pos p1) = dq) by (apply Zdigits2_pos_unique; lia).
    unfold shr_fexp. cbn [Zdigits2]. rewrite Hd, fexp_eq.
    replace (Z.max (dq + e' - 24) (-149) - e') with 0 by lia.
    cbn [shr fst snd shr_record_of_loc shr_m]. exists p1. split; [reflexivity |].
    unfold canon. rewrite Hd, fexp_eq. lia.
  - assert (Hp : Z.pos p1 = 2 ^ dq) by lia.
    assert (Hd : Z.pos (digits2_pos p1) = dq + 1).
    { apply Zdigits2_pos_unique; [| lia].
      replace (dq + 1 - 1) with dq by lia. rewrite Z.pow_add_r by lia. lia. }
    unfold shr_fexp. cbn [Zdigits2]. rewrite Hd, fexp_eq.
    destruct (Z.eq_dec dq 24) as [-> | Hne].
    + replace (Z.max (24 + 1 + e' - 24) (-149) - e') with 1 by lia.
      assert (p1 = 16777216%positive) by (simpl in Hp; lia). subst p1.
      cbn [shr fst snd shr_record_of_loc shr_m iter_pos shr_1].
      exists 8388608%positive. split; [reflexivity |].
      unfold canon. cbn [digits2_pos Pos.succ]. rewrite fexp_eq. lia.
    + replace (Z.max (dq + 1 + e' - 24) (-149) - e') with 0 by lia.
      cbn [shr fst snd shr_record_of_loc shr_m]. exists p1. split; [reflexivity |].
      unfold canon. rewrite Hd, fexp_eq. lia.
Qed.

(** What [binary_round_aux] returns on a positive mantissa that is not below
    its target exponent: never a NaN, the sign it was given, and a canonical
    mantissa. *)
Lemma binary_round_aux_rounded (s : bool) (m : positive) (ex : Z) (l : location) :
  ex <= fexp prec emax (Z.pos (digits2_pos m) + ex) ->
  rounded s (binary_round_aux prec emax s (Z.pos m) ex l).
Proof.
  intros Hex. unfold binary_round_aux.
  pose proof (shr_fexp_spec (Z.pos m) ex l ltac:(lia)) as [Hq He'].
  cbn [Zdigits2] in Hq, He'. cbv zeta in Hq, He'.
  destruct (shr_fexp prec emax (Z.pos m) ex l) as [mrs' e']. cbn [fst snd] in Hq, He'.
  set (d := Z.pos (digits2_pos m)) in *.
  set (n := Z.max 0 (fexp prec emax (d + ex) - ex)) in *.
  assert (Hn : n = fexp prec emax (d + ex) - ex) by (unfold n; lia).
  assert (H2n : 0 < 2 ^ n) by pow2_pos.
  set (q := shr_m mrs') in *.
  assert (Hq0 : 0 <= q) by (rewrite Hq; apply Z.div_pos; lia).
  (* the digits of the shifted mantissa *)
  assert (Hdq : exists dq, 0 <= dq /\ fexp prec emax (dq + e') = e' /\
                           2 ^ (dq - 1) <= q < 2 ^ dq).
  { destruct (Z.eq_dec q 0) as [Hz | Hnz].
    - exists 0. rewrite Hz. simpl (2 ^ (0 - 1)). simpl (2 ^ 0). repeat split; try lia.
      (* the whole mantissa was shifted out: the target exponent is emin *)
      assert (Hsmall : Z.pos m < 2 ^ n).
      { destruct (Z_lt_le_dec (Z.pos m) (2 ^ n)); [assumption | exfalso].
        assert (1 <= Z.pos m / 2 ^ n) by (apply Z.div_le_lower_bound; lia). lia. }
      assert (Hdn : d <= n).
      { destruct (Z_lt_le_dec n d) as [Hlt |]; [exfalso | assumption].
        pose proof (digits2_pos_bounds m) as [Hlo _]. fold d in Hlo.
        assert (2 ^ n <= 2 ^ (d - 1)) by (apply Z.pow_le_mono_r; lia). lia. }
      rewrite fexp_eq in *. lia.
    - destruct q as [| pq |] eqn:Eq; [lia | | lia].
      pose proof (Zdigits2_div m n pq ltac:(lia) Hq) as Hd.
      pose proof (digits2_pos_bounds pq) as Hb. rewrite Hd in Hb. fold d in Hb.
      assert (Hnd : n < d).
      { destruct (Z_lt_le_dec n d); [assumption | exfalso].
        pose proof (Pos2Z.is_pos (digits2_pos pq)). fold d in Hd. lia. }
      exists (d - n). repeat split; try lia.
      replace (d - n + e') with (d + ex) by lia. lia. }
  destruct Hdq as (dq & Hdq0 & Hcan & Hlo & Hhi).
  set (m1 := round_nearest_even q (loc_of_shr_record mrs')).
  assert (Hm1 : m1 = q \/ m1 = q + 1) by apply round_nearest_even_cases.
  destruct (Z.eq_dec m1 0) as [Hz | Hnz].
  - (* rounded to zero *)
    rewrite Hz. pose proof (shr_fexp_spec 0 e' loc_Exact ltac:(lia)) as [H0 _].
    destruct (shr_fexp prec emax 0 e' loc_Exact) as [mrs'' e'']. cbn [fst] in H0.
    rewrite Z.div_0_l in H0 by (apply Z.pow_nonzero; lia). rewrite H0. reflexivity.
  - destruct m1 as [| p1 |] eqn:E1; [lia | | lia].
    destruct (shr_fexp_renorm p1 e' dq Hdq0 Hcan ltac:(lia)) as (m2 & Hm2 & Hc2).
    destruct (shr_fexp prec emax (Z.pos p1) e' loc_Exact) as [mrs'' e''].
    cbn [fst snd] in Hm2, Hc2. rewrite Hm2.
    destruct (Z.leb_spec e'' (emax - prec)) as [Hle | Hgt]; cbn [rounded]; [| reflexivity].
    split; [reflexivity |]. apply bounded_iff. split; [assumption | exact Hle].
Qed.

Lemma binary_round_aux_not_nan (s : bool) (mx ex : Z) (l : location) :
  0 <= mx -> binary_round_aux prec emax s mx ex l <> S754_nan.
Proof.
  intros Hm. unfold binary_round_aux.
  pose proof (shr_fexp_spec mx ex l Hm) as [Hq _]. cbv zeta in Hq.
  destruct (shr_fexp prec emax mx ex l) as [mrs' e']. cbn [fst] in Hq.
  set (m1 := round_nearest_even (shr_m mrs') (loc_of_shr_record mrs')).
  assert (Hm1 : 0 <= m1).
  { assert (0 <= shr_m mrs').
    { rewrite Hq. apply Z.div_pos; [lia | pow2_pos]. }
    pose proof (round_nearest_even_cases (shr_m mrs') (loc_of_shr_record mrs')) as Hr.
    fold m1 in Hr. lia. }
  pose proof (shr_fexp_spec m1 e' loc_Exact Hm1) as [Hq2 _]. cbv zeta in Hq2.
  destruct (shr_fexp prec emax m1 e' loc_Exact) as [mrs'' e'']. cbn [fst] in Hq2.
  assert (0 <= shr_m mrs'').
  { rewrite Hq2. apply Z.div_pos; [lia | pow2_pos]. }
  destruct (shr_m mrs'') as [| p | p]; [discriminate | | lia].
  destruct (e'' <=? emax - prec); discriminate.
Qed.

Lemma binary_round_aux_signed (s : bool) (mx ex : Z) (l : location) :
  0 <= mx -> signed s (binary_round_aux prec emax s mx ex l).
Proof.
  intros Hm. pose proof (binary_round_aux_not_nan s mx ex l Hm) as Hn.
  unfold binary_round_aux in *.
  destruct (shr_fexp prec emax mx ex l) as [mrs' e'].
  destruct (shr_fexp prec emax _ e' loc_Exact) as [mrs'' e''].
  destruct (shr_m mrs'') as [| p | p]; [reflexivity | | congruence].
  destruct (e'' <=? emax - prec); reflexivity.
Qed.

(** Rounding a value that is representable gives its canonical form. *)
Lemma binary_round_aux_shifted (s : bool) (p m : positive) (e k : Z) :
  0 <= k -> Z.pos p = Z.pos m * 2 ^ k -> canon m e ->
  binary_round_aux prec emax s (Z.pos p) (e - k) loc_Exact = finite_or_inf s m e.
Proof.
  intros Hk Hp Hc. unfold binary_round_aux, shr_fexp at 1. cbn [Zdigits2].
  rewrite (digits2_pos_shift m k p Hk Hp).
  replace (Z.pos (digits2_pos m) + k + (e - k)) with (Z.pos (digits2_pos m) + e) by lia.
  rewrite Hc. replace (e - (e - k)) with k by lia.
  assert (Hs : shr (shr_record_of_loc (Z.pos p) loc_Exact) (e - k) k
               = (Build_shr_record (Z.pos m) false false, e)).
  { cbn [shr_record_of_loc]. destruct k as [| pk | pk]; cbn [shr].
    - f_equal; [f_equal | ]; lia.
    - rewrite Hp, iter_shr_1_exact by lia. f_equal. lia.
    - lia. }
  rewrite Hs. cbn [shr_m loc_of_shr_record round_nearest_even].
  unfold shr_fexp. cbn [Zdigits2]. rewrite Hc, Z.sub_diag.
  cbn [shr shr_record_of_loc shr_m]. reflexivity.
Qed.

Lemma binary_round_aux_canonical (s : bool) (m : positive) (e : Z) :
  canon m e ->
  binary_round_aux prec emax s (Z.pos m) e loc_Exact = finite_or_inf s m e.
Proof.
  intros Hc. replace e with (e - 0) at 1 by lia.
  apply (binary_round_aux_shifted s m m e 0); [lia | rewrite Z.pow_0_r; lia | assumption].
Qed.

Lemma iter_xO_pow (p d : positive) : Z.pos (Pos.iter xO p d) = Z.pos p * 2 ^ Z.pos d.
Proof.
  change (Pos.iter xO p d) with (shift_pos d p).
  rewrite shift_pos_correct, Zpower_pos_nat, Zpower_nat_Z, positive_nat_Z. lia.
Qed.

Lemma shl_align_spec (m : positive) (e e' : Z) :
  let k := Z.max 0 (e - e') in
  Z.pos (fst (shl_align m e e')) = Z.pos m * 2 ^ k /\ snd (shl_align m e e') = e - k.
Proof.
  unfold shl_align. destruct (e' - e) as [| d | d] eqn:E; cbn [fst snd].
  - replace (Z.max 0 (e - e')) with 0 by lia. rewrite Z.pow_0_r. lia.
  - replace (Z.max 0 (e - e')) with 0 by lia. rewrite Z.pow_0_r. lia.
  - replace (Z.max 0 (e - e')) with (Z.pos d) by lia. rewrite iter_xO_pow. lia.
Qed.

Lemma binary_round_rounded (s : bool) (p : positive) (e : Z) :
  rounded s (binary_round prec emax s p e).
Proof.
  unfold binary_round.
  pose proof (shl_align_spec p e (fexp prec emax (Z.pos (digits2_pos p) + e))) as [Hm He].
  cbv zeta in Hm, He.
  destruct (shl_align p e _) as [mz ez]. cbn [fst snd] in Hm, He.
  apply binary_round_aux_rounded.
  set (k := Z.max 0 (e - fexp prec emax (Z.pos (digits2_pos p) + e))) in *.
  assert (Hk : 0 <= k) by (unfold k; lia).
  rewrite (digits2_pos_shift p k mz Hk Hm).
  rewrite He. unfold k. rewrite !fexp_eq. lia.
Qed.

Lemma binary_normalize_rounded (m e : Z) :
  m <> 0 -> rounded (m <? 0) (binary_normalize prec emax m e false).
Proof.
  intros Hm. destruct m as [| p | p]; [lia | |]; cbn [binary_normalize];
    apply binary_round_rounded.
Qed.

Lemma binary_round_representable (s : bool) (p m : positive) (e2 e : Z) :
  canon m e -> e <= 104 -> -149 <= e2 ->
  Z.pos p * 2 ^ (e2 + 149) = Z.pos m * 2 ^ (e + 149) ->
  binary_round prec emax s p e2 = S754_finite s m e.
Proof.
  intros Hc He He2 Hv.
  assert (Hemin : -149 <= e) by (unfold canon in Hc; rewrite fexp_eq in Hc; lia).
  assert (Hfin : finite_or_inf s m e = S754_finite s m e).
  { unfold finite_or_inf. destruct (Z.leb_spec e 104); [reflexivity | lia]. }
  unfold binary_round.
  destruct (Z_lt_le_dec e e2) as [Hlt | Hge].
  - (* the mantissa is shifted left to the canonical exponent *)
    assert (Hm : Z.pos m = Z.pos p * 2 ^ (e2 - e)).
    { replace (e2 + 149) with (e2 - e + (e + 149)) in Hv by lia.
      rewrite (Z.pow_add_r 2 (e2 - e) (e + 149)), Z.mul_assoc in Hv by lia.
      apply Z.mul_reg_r in Hv; [lia | apply Z.pow_nonzero; lia]. }
    pose proof (digits2_pos_shift p (e2 - e) m ltac:(lia) Hm) as Hd.
    replace (Z.pos (digits2_pos p) + e2) with (Z.pos (digits2_pos m) + e) by lia.
    rewrite Hc.
    pose proof (shl_align_spec p e2 e) as [Hmz Hez]. cbv zeta in Hmz, Hez.
    destruct (shl_align p e2 e) as [mz ez]. cbn [fst snd] in Hmz, Hez.
    replace (Z.max 0 (e2 - e)) with (e2 - e) in * by lia.
    assert (mz = m) by lia. subst mz. replace ez with e by lia.
    rewrite binary_round_aux_canonical by assumption. exact Hfin.
  - assert (Hp : Z.pos p = Z.pos m * 2 ^ (e - e2)).
    { replace (e + 149) with (e - e2 + (e2 + 149)) in Hv by lia.
      rewrite (Z.pow_add_r 2 (e - e2) (e2 + 149)), Z.mul_assoc in Hv by lia.
      apply Z.mul_reg_r in Hv; [lia | apply Z.pow_nonzero; lia]. }
    pose proof (digits2_pos_shift m (e - e2) p ltac:(lia) Hp) as Hd.
    replace (Z.pos (digits2_pos p) + e2) with (Z.pos (digits2_pos m) + e) by lia.
    rewrite Hc.
    pose proof (shl_align_spec p e2 e) as [Hmz Hez]. cbv zeta in Hmz, Hez.
    destruct (shl_align p e2 e) as [mz ez]. cbn [fst snd] in Hmz, Hez.
    replace (Z.max 0 (e2 - e)) with 0 in * by lia. rewrite Z.pow_0_r in Hmz.
    assert (mz = p) by lia. subst mz. replace ez with (e - (e - e2)) by lia.
    rewrite (binary_round_aux_shifted s p m e (e - e2)) by (assumption || lia). exact Hfin.
Qed.

Lemma rounded_valid (s : bool) (r : float) : rounded s r -> valid r = true /\ is_nan r = false.
Proof.
  destruct r as [s' | s' | | s' m e]; cbn; intros H; try contradiction;
    try (split; reflexivity).
  destruct H as [_ H]. split; [exact H | reflexivity].
Qed.

Lemma rounded_signed (s : bool) (r : float) : rounded s r -> signed s r.
Proof. destruct r; cbn; tauto. Qed.

Lemma signed_not_nan (s : bool) (r : float) : signed s r -> is_nan r = false.
Proof. destruct r; cbn; intros H; [reflexivity | reflexivity | contradiction | reflexivity]. Qed.

End Rounding.

(** ** Products, sums, quotients and square roots *)

Section Operations.

Lemma mul_rounded (sx sy : bool) (mx my : positive) (ex ey : Z) :
  valid (S754_finite sx mx ex) = true -> valid (S754_finite sy my ey) = true ->
  rounded (xorb sx sy) (mul (S754_finite sx mx ex) (S754_finite sy my ey)).
Proof.
  intros Hx Hy. apply valid_finite_iff in Hx as [Hcx _]. apply valid_finite_iff in Hy as [Hcy _].
  unfold mul, SFmul. apply binary_round_aux_rounded.
  pose proof (digits2_pos_mul mx my) as Hd.
  unfold canon in *. rewrite fexp_eq in *.
  pose proof (Pos2Z.is_pos (digits2_pos mx)). pose proof (Pos2Z.is_pos (digits2_pos my)). lia.
Qed.

Lemma mul_valid (a b : float) :
  valid a = true -> valid b = true -> valid (mul a b) = true.
Proof.
  intros Ha Hb.
  destruct a as [sa | sa | | sa ma ea], b as [sb | sb | | sb mb eb]; try reflexivity.
  exact (proj1 (rounded_valid _ _ (mul_rounded sa sb ma mb ea eb Ha Hb))).
Qed.

Lemma mul_one_l (a : float) : valid a = true -> mul one a = a.
Proof.
  intros Ha. destruct a as [[] | [] | | s m e]; try reflexivity.
  apply valid_finite_iff in Ha as [Hc He].
  unfold mul, one, SFmul. cbn [xorb].
  replace (-23 + e) with (e - 23) by lia.
  rewrite (binary_round_aux_shifted s (8388608 * m) m e 23); try lia; try assumption.
  unfold finite_or_inf. destruct (Z.leb_spec e 104); [reflexivity | lia].
Qed.

Lemma add_valid (a b : float) : valid a = true -> valid b = true -> valid (add a b) = true.
Proof.
  intros Ha Hb.
  destruct a as [[] | [] | | sa ma ea], b as [[] | [] | | sb mb eb]; try reflexivity; try assumption.
  unfold add, SFadd.
  match goal with |- valid (binary_normalize _ _ ?S _ _) = true =>
    destruct (Z.eq_dec S 0) as [-> | Hnz];
      [reflexivity | exact (proj1 (rounded_valid _ _ (binary_normalize_rounded S _ Hnz)))]
  end.
Qed.

Lemma mul_self_signed (a : float) : is_nan a = false -> signed false (mul a a).
Proof.
  destruct a as [s | s | | s m e]; cbn [is_nan]; intros H; try discriminate.
  - cbn. apply xorb_nilpotent.
  - cbn. apply xorb_nilpotent.
  - unfold mul, SFmul. rewrite xorb_nilpotent. apply binary_round_aux_signed. lia.
Qed.

Lemma add_signed_false (a b : float) :
  signed false a -> signed false b -> signed false (add a b).
Proof.
  destruct a as [sa | sa | | sa ma ea], b as [sb | sb | | sb mb eb];
    cbn [signed]; intros Ha Hb; try contradiction; subst; try reflexivity.
  unfold add, SFadd. cbn [cond_Zopp].
  apply rounded_signed.
  apply (binary_normalize_rounded (Z.pos _ + Z.pos _)). lia.
Qed.

Lemma sqrtf_signed_false (a : float) : signed false a -> is_nan (sqrtf a) = false.
Proof.
  destruct a as [sa | sa | | sa ma ea]; cbn [signed]; intros Ha; try contradiction; subst;
    try reflexivity.
  unfold sqrtf, SFsqrt, SFsqrt_core_binary.
  set (e' := Z.min _ _). set (m' := match ea - 2 * e' with Z.pos _ => _ | _ => _ end).
  assert (Hm' : 0 <= m').
  { unfold m'. destruct (ea - 2 * e'); try lia. apply Z.shiftl_nonneg. lia. }
  pose proof (Z.sqrtrem_spec m' Hm') as Hs.
  destruct (Z.sqrtrem m') as [q r].
  apply (signed_not_nan false). apply binary_round_aux_signed. lia.
Qed.

Lemma div_finite_not_nan (s : bool) (m : positive) (e : Z) (b : float) :
  is_nan b = false -> is_nan (div (S754_finite s m e) b) = false.
Proof.
  destruct b as [sb | sb | | sb mb eb]; cbn [is_nan]; intros Hb; try discriminate;
    try reflexivity.
  unfold div, SFdiv, SFdiv_core_binary. cbn [Zdigits2].
  set (e' := Z.min _ _). set (m' := match e - eb - e' with Z.pos _ => _ | _ => _ end).
  assert (Hm' : 0 <= m').
  { unfold m'. destruct (e - eb - e'); try lia. apply Z.shiftl_nonneg. lia. }
  pose proof (Z_div_mod m' (Z.pos mb) ltac:(lia)) as Hd.
  destruct (Z.div_eucl m' (Z.pos mb)) as [q r].
  apply (signed_not_nan (xorb s sb)). apply binary_round_aux_signed. nia.
Qed.

End Operations.

(** ** Sums computed without rounding *)

Section Exact.

Lemma canonical_unique (s1 s2 : bool) (m1 m2 : positive) (e1 e2 : Z) :
  valid (S754_finite s1 m1 e1) = true -> valid (S754_finite s2 m2 e2) = true ->
  scaled (S754_finite s1 m1 e1) = scaled (S754_finite s2 m2 e2) ->
  S754_finite s1 m1 e1 = S754_finite s2 m2 e2.
Proof.
  intros H1 H2 Hv.
  pose proof (valid_emin _ _ _ H1) as He1. pose proof (valid_emin _ _ _ H2) as He2.
  apply valid_finite_iff in H1 as [Hc1 Hb1]. apply valid_finite_iff in H2 as [Hc2 Hb2].
  cbn [scaled] in Hv.
  assert (P1 : 0 < 2 ^ (e1 + 149)) by pow2_pos.
  assert (P2 : 0 < 2 ^ (e2 + 149)) by pow2_pos.
  assert (Hs : s1 = s2) by (destruct s1, s2; cbn [cond_Zopp] in Hv; try reflexivity; nia).
  subst s2.
  assert (Hm : Z.pos m1 * 2 ^ (e1 + 149) = Z.pos m2 * 2 ^ (e2 + 149))
    by (destruct s1; cbn [cond_Zopp] in Hv; lia).
  pose proof (binary_round_representable s1 m1 m1 e1 e1 Hc1 Hb1 He1 eq_refl) as R1.
  pose proof (binary_round_representable s1 m1 m2 e1 e2 Hc2 Hb2 He1 Hm) as R2.
  congruence.
Qed.

Lemma aligned_scaled (s : bool) (m : positive) (e e2 : Z) :
  e2 <= e -> -149 <= e2 ->
  cond_Zopp s (Z.pos (fst (shl_align m e e2))) * 2 ^ (e2 + 149) = scaled (S754_finite s m e).
Proof.
  intros Hle Hmin. pose proof (shl_align_spec m e e2) as [Hm _]. cbv zeta in Hm.
  rewrite Hm. replace (Z.max 0 (e - e2)) with (e - e2) by lia. cbn [scaled].
  replace (e + 149) with (e - e2 + (e2 + 149)) by lia.
  rewrite (Z.pow_add_r 2 (e - e2) (e2 + 149)) by lia.
  destruct s; cbn [cond_Zopp]; lia.
Qed.

(** Subtracting [y] from a float whose value is exactly [x + y] gives back [x]. *)
Lemma sub_exact (x y z : float) :
  valid x = true -> valid y = true -> valid z = true ->
  is_finite x = true -> is_finite y = true -> is_finite z = true ->
  scaled z = scaled x + scaled y ->
  eqb (sub z y) x = true.
Proof.
  intros Vx Vy Vz Fx Fy Fz Hv.
  assert (Hnz : forall s m e, valid (S754_finite s m e) = true -> scaled (S754_finite s m e) <> 0).
  { intros s m e V. pose proof (valid_emin _ _ _ V). cbn [scaled].
    assert (0 < 2 ^ (e + 149)) by pow2_pos.
    destruct s; cbn [cond_Zopp]; nia. }
  destruct z as [sz | sz | | sz mz ez]; try discriminate;
    destruct y as [sy | sy | | sy my ey]; try discriminate.
  - (* 0 - 0 *)
    destruct x as [sx | sx | | sx mx ex]; try discriminate.
    + destruct sz, sy; reflexivity.
    + exfalso. apply (Hnz _ _ _ Vx). cbn [scaled] in *. lia.
  - (* 0 - y = -y, and x = -y *)
    destruct x as [sx | sx | | sx mx ex]; try discriminate.
    + exfalso. apply (Hnz _ _ _ Vy). cbn [scaled] in *. lia.
    + cbn [sub SFsub].
      assert (E : S754_finite (negb sy) my ey = S754_finite sx mx ex).
      { apply canonical_unique; try assumption.
        cbn [scaled] in *. destruct sy; cbn [negb cond_Zopp] in *; lia. }
      rewrite E. apply feqb_refl. reflexivity.
  - (* z - 0 = z, and x = z *)
    destruct x as [sx | sx | | sx mx ex]; try discriminate.
    + exfalso. apply (Hnz _ _ _ Vz). cbn [scaled] in *. lia.
    + cbn [sub SFsub].
      assert (E : S754_finite sz mz ez = S754_finite sx mx ex).
      { apply canonical_unique; try assumption. cbn [scaled] in *. lia. }
      rewrite E. apply feqb_refl. reflexivity.
  - (* the general case *)
    pose proof (valid_emin _ _ _ Vz) as Hez. pose proof (valid_emin _ _ _ Vy) as Hey.
    unfold sub, SFsub.
    set (e2 := Z.min ez ey).
    set (T := cond_Zopp sz (Z.pos (fst (shl_align mz ez e2)))
              - cond_Zopp sy (Z.pos (fst (shl_align my ey e2)))).
    assert (HT : T * 2 ^ (e2 + 149) = scaled x).
    { unfold T. rewrite Z.mul_sub_distr_r.
      rewrite !aligned_scaled by (unfold e2; lia). lia. }
    assert (P2 : 0 < 2 ^ (e2 + 149)) by (apply Z.pow_pos_nonneg; unfold e2; lia).
    destruct x as [sx | sx | | sx mx ex]; try discriminate.
    + cbn [scaled] in HT. assert (T = 0) by nia.
      replace T with 0 by congruence. reflexivity.
    + pose proof (valid_emin _ _ _ Vx) as Hex.
      apply valid_finite_iff in Vx as [Hc Hb].
      cbn [scaled] in HT.
      assert (Px : 0 < 2 ^ (ex + 149)) by pow2_pos.
      assert (E : binary_normalize prec emax T e2 false = S754_finite sx mx ex).
      { destruct T as [| p | p]; cbn [binary_normalize].
        - exfalso. destruct sx; cbn [cond_Zopp] in HT; nia.
        - assert (sx = false) by (destruct sx; cbn [cond_Zopp] in HT; [nia | reflexivity]).
          subst sx. cbn [cond_Zopp] in HT.
          apply binary_round_representable; try assumption. unfold e2; lia.
        - assert (sx = true) by (destruct sx; cbn [cond_Zopp] in HT; [reflexivity | nia]).
          subst sx. cbn [cond_Zopp] in HT.
          apply binary_round_representable; try assumption; [unfold e2; lia | lia]. }
      rewrite E. apply feqb_refl. reflexivity.
Qed.

Lemma add_sub_cancel (x y : float) :
  valid x = true -> valid y = true ->
  is_finite x = true -> is_finite y = true ->
  exact_add x y = true ->
  eqb (sub (add x y) y) x = true.
Proof.
  intros Vx Vy Fx Fy H. unfold exact_add in H.
  apply andb_prop in H as [Fz Hv]. apply Z.eqb_eq in Hv.
  apply sub_exact; try assumption. now apply add_valid.
Qed.

End Exact.

Local Open Scope f32_scope.

Section Comparisons.

Lemma neg_involutive (a : float) : - - a = a.
Proof. destruct a as [[] | [] | | [] m e]; reflexivity. Qed.

Lemma mul_neg_neg (a : float) : (- a) * (- a) = a * a.
Proof. now rewrite mul_neg_l, mul_comm, mul_neg_l, neg_involutive. Qed.

Lemma ltb_not_eqb (a b : float) : ltb a b = true -> (b == a) = false.
Proof.
  unfold ltb, SFltb, eqb, SFeqb.
  destruct a as [sa | sa | | sa ma ea], b as [sb | sb | | sb mb eb];
    try (destruct sa); try (destruct sb); cbn [SFcompare]; try discriminate; try reflexivity.
  - rewrite (Z.compare_antisym ea eb), (compare_cont_swap mb ma).
    destruct (ea ?= eb)%Z; cbn [CompOpp]; try discriminate; try reflexivity.
    destruct (Pos.compare_cont Eq ma mb); cbn [CompOpp]; try discriminate; reflexivity.
  - rewrite (Z.compare_antisym ea eb), (compare_cont_swap mb ma).
    destruct (ea ?= eb)%Z; cbn [CompOpp]; try discriminate; try reflexivity.
    destruct (Pos.compare_cont Eq ma mb); cbn [CompOpp]; try discriminate; reflexivity.
Qed.

Lemma eqb_not_finite (a b : float) :
  is_finite a = false -> is_finite b = true -> (a == b) = false.
Proof.
  destruct a as [sa | [] | | sa ma ea], b as [sb | sb | | [] mb eb]; cbn; congruence.
Qed.

Lemma mul_pinf_not_finite (a : float) : is_finite (a * pinf) = false.
Proof. destruct a; reflexivity. Qed.

Lemma mul_finite_not_nan (a : float) (s : bool) (m : positive) (e : Z) :
  is_nan a = false -> is_nan (a * S754_finite s m e) = false.
Proof.
  destruct a as [sa | sa | | sa ma ea]; cbn [is_nan]; intros Ha; try discriminate;
    try reflexivity.
  apply (signed_not_nan (xorb sa s)). unfold mul, SFmul.
  apply binary_round_aux_signed. lia.
Qed.

Lemma fin_add_sub (x y : float) :
  fin x = true -> fin y = true -> exact_add x y = true -> (x + y - y == x) = true.
Proof.
  unfold fin. intros Hx Hy He.
  apply andb_prop in Hx as [Vx Fx]. apply andb_prop in Hy as [Vy Fy].
  now apply add_sub_cancel.
Qed.

End Comparisons.

(** * The header's functions *)

(** ** Vectors *)

(** C2: [QM_normalize] on [QMvec2] and [QMvec3] tests the length and returns
    the zero vector when it compares equal to zero (so the zero vector comes
    back unchanged); on [QMvec4] nothing is tested in either configuration:
    the zero vector has length zero, every component is divided by it, and
    every component of the result is a NaN. *)
Theorem normalize_zero_length :
  (forall v : QMvec2, (Vec2.QM_length v == zero) = true -> Vec2.QM_normalize v = Vec2.default) /\
  (forall v : QMvec3, (Vec3.QM_length v == zero) = true -> Vec3.QM_normalize v = Vec3.default) /\
  Vec2.QM_normalize Vec2.default = Vec2.default /\
  Vec3.QM_normalize Vec3.default = Vec3.default /\
  (forall sse, Vec4.QM_length sse Vec4.default = zero) /\
  (forall sse, Vec4.QM_normalize sse Vec4.default = Vec4.mk nan nan nan nan).
Proof.
  repeat split.
  - intros v H. unfold Vec2.QM_normalize, neqb. cbv zeta. unfold eqb in H. now rewrite H.
  - intros v H. unfold Vec3.QM_normalize, neqb. cbv zeta. unfold eqb in H. now rewrite H.
  - intros []; reflexivity.
  - intros []; reflexivity.
Qed.

(** A vector whose length underflows to zero: [(2^-80, 0)]. *)
Lemma normalize_zero_length_witness :
  (Vec2.QM_length (Vec2.mk two_m80 zero) == zero) = true /\
  Vec2.QM_normalize (Vec2.mk two_m80 zero) = Vec2.default.
Proof.
  split; [reflexivity |].
  apply (proj1 normalize_zero_length). reflexivity.
Defined.

(** C6, as amended: for vectors of dimension 2, 3 or 4 with finite
    components, [(v1 + v2) - v2 == v1] holds componentwise whenever every
    component sum [v1_i + v2_i] is computed without rounding. *)
Theorem vec_add_sub_exact :
  (forall v1 v2 : QMvec2, fin2 v1 = true -> fin2 v2 = true -> exact_add2 v1 v2 = true ->
     Vec2.op_eq (Vec2.op_sub (Vec2.op_add v1 v2) v2) v1 = true) /\
  (forall v1 v2 : QMvec3, fin3 v1 = true -> fin3 v2 = true -> exact_add3 v1 v2 = true ->
     Vec3.op_eq (Vec3.op_sub (Vec3.op_add v1 v2) v2) v1 = true) /\
  (forall (sse : bool) (v1 v2 : QMvec4),
     fin4 v1 = true -> fin4 v2 = true -> exact_add4 v1 v2 = true ->
     Vec4.op_eq (Vec4.op_sub sse (Vec4.op_add sse v1 v2) v2) v1 = true).
Proof.
  repeat split.
  - intros [x1 y1] [x2 y2]. unfold fin2, exact_add2, Vec2.op_eq, Vec2.op_sub, Vec2.op_add.
    cbn [Vec2.x Vec2.y]. rewrite !andb_true_iff.
    intros [? ?] [? ?] [? ?]. split; now apply fin_add_sub.
  - intros [x1 y1 z1] [x2 y2 z2].
    unfold fin3, exact_add3, Vec3.op_eq, Vec3.op_sub, Vec3.op_add.
    cbn [Vec3.x Vec3.y Vec3.z]. rewrite !andb_true_iff.
    intros [[? ?] ?] [[? ?] ?] [[? ?] ?]. repeat split; now apply fin_add_sub.
  - intros sse [x1 y1 z1 w1] [x2 y2 z2 w2].
    unfold fin4, exact_add4, Vec4.op_eq.
    cbn [Vec4.x Vec4.y Vec4.z Vec4.w]. rewrite !andb_true_iff.
    intros [[[? ?] ?] ?] [[[? ?] ?] ?] [[[? ?] ?] ?].
    destruct sse; cbn [Vec4.op_sub Vec4.op_add Vec4.packed Vec4.of_packed _mm_add_ps
                       _mm_sub_ps map2 f0 f1 f2 f3 Vec4.x Vec4.y Vec4.z Vec4.w];
      repeat split; now apply fin_add_sub.
Qed.

(** Two vectors with small dyadic components: every sum is exact. *)
Lemma vec_add_sub_exact_witness :
  let v1 := Vec4.mk (lit 1 1) (lit 5 2) (lit (-3) 1) zero in
  let v2 := Vec4.mk (lit 2 1) (lit 1 2) (lit 3 1) (lit 7 1) in
  fin4 v1 = true /\ fin4 v2 = true /\ exact_add4 v1 v2 = true /\
  Vec4.op_eq (Vec4.op_sub true (Vec4.op_add true v1 v2) v2) v1 = true.
Proof.
  cbv zeta. split; [reflexivity | split; [reflexivity | split; [reflexivity |]]].
  apply (proj2 (proj2 vec_add_sub_exact)); reflexivity.
Defined.

(** C6, the counterexample: [2^-25] and [1] are finite and so is their sum,
    which rounds to [1]; subtracting [1] again leaves [0], not [2^-25]. *)
Lemma vec_add_sub_rounds :
  let a := Vec4.mk two_m25 zero zero zero in
  let b := Vec4.mk one zero zero zero in
  fin4 a = true /\ fin4 b = true /\
  (forall sse, fin4 (Vec4.op_add sse a b) = true) /\
  (forall sse, Vec4.op_sub sse (Vec4.op_add sse a b) b = Vec4.default) /\
  (forall sse, Vec4.op_eq (Vec4.op_sub sse (Vec4.op_add sse a b) b) a = false) /\
  Vec3.op_eq (Vec3.op_sub (Vec3.op_add (Vec3.mk two_m25 zero zero) (Vec3.mk one zero zero))
                          (Vec3.mk one zero zero)) (Vec3.mk two_m25 zero zero) = false /\
  Vec2.op_eq (Vec2.op_sub (Vec2.op_add (Vec2.mk two_m25 zero) (Vec2.mk one zero))
                          (Vec2.mk one zero)) (Vec2.mk two_m25 zero) = false.
Proof.
  cbv zeta. repeat split; try (intros []; reflexivity).
Qed.

(** ** Matrices *)

(** The four lanes of [QM_mat4_mult_column_sse], written out. *)
Lemma mult_column_sse_lanes (c : __m128) (a : QMmat4) :
  QM_mat4_mult_column_sse c a =
  mk128 (f0 c * m a 0 0 + f1 c * m a 1 0 + f2 c * m a 2 0 + f3 c * m a 3 0)
        (f0 c * m a 0 1 + f1 c * m a 1 1 + f2 c * m a 2 1 + f3 c * m a 3 1)
        (f0 c * m a 0 2 + f1 c * m a 1 2 + f2 c * m a 2 2 + f3 c * m a 3 2)
        (f0 c * m a 0 3 + f1 c * m a 1 3 + f2 c * m a 2 3 + f3 c * m a 3 3).
Proof. reflexivity. Qed.

(** C5: every entry of the SSE 4x4 product is the sum over [k] of
    [m1\[k\]\[i\] * m2\[j\]\[k\]] accumulated in the order [k = 0, 1, 2, 3],
    and the SSE product is the scalar one, entry by entry. *)
Theorem mat4_mul_sse_is_sum (m1 m2 : QMmat4) :
  Mat4.op_mul true m1 m2 = mat4_of_entries (mat4_entry_sum m1 m2)
  /\ Mat4.op_mul true m1 m2 = Mat4.op_mul false m1 m2.
Proof.
  assert (E : Mat4.op_mul true m1 m2 = mat4_of_entries (mat4_entry_sum m1 m2)).
  { unfold Mat4.op_mul. rewrite !mult_column_sse_lanes.
    destruct m1 as [[a00 a01 a02 a03] [a10 a11 a12 a13] [a20 a21 a22 a23] [a30 a31 a32 a33]].
    destruct m2 as [[b00 b01 b02 b03] [b10 b11 b12 b13] [b20 b21 b22 b23] [b30 b31 b32 b33]].
    cbn.
    repeat match goal with |- context [mul ?a ?b] =>
      match a with
      | b00 => idtac | b01 => idtac | b02 => idtac | b03 => idtac
      | b10 => idtac | b11 => idtac | b12 => idtac | b13 => idtac
      | b20 => idtac | b21 => idtac | b22 => idtac | b23 => idtac
      | b30 => idtac | b31 => idtac | b32 => idtac | b33 => idtac
      end; rewrite (mul_comm a b) end.
    reflexivity. }
  split; [exact E |].
  rewrite E.
  destruct m1 as [[a00 a01 a02 a03] [a10 a11 a12 a13] [a20 a21 a22 a23] [a30 a31 a32 a33]].
  destruct m2 as [[b00 b01 b02 b03] [b10 b11 b12 b13] [b20 b21 b22 b23] [b30 b31 b32 b33]].
  reflexivity.
Qed.

(** C8: on a host whose tangent at the argument is a (well-formed) number,
    [QM_perspective(90, 1.0, 0.1, 100.0)] has [m\[0\]\[0\] == m\[1\]\[1\]] and
    [m\[2\]\[3\] == -1]; and for every argument the eleven entries the function
    does not assign are [+0]. *)
Theorem perspective_scenario (H : CRT) :
  let t := QM_TANF (QM_deg_to_rad (lit 90 1 * lit_0_5)) in
  valid t = true -> is_nan t = false ->
  let p := QM_perspective (lit 90 1) (lit 1 1) (lit 1 10) (lit 100 1) in
  (m p 0 0 == m p 1 1) = true /\
  (m p 2 3 == - lit 1 1) = true /\
  forall fov aspect near far : float,
    Forall (fun ij => m (QM_perspective fov aspect near far) (fst ij) (snd ij) = zero)
           unassigned_perspective.
Proof.
  intros t Vt Nt p. split; [| split].
  - unfold p, QM_perspective. cbv zeta. fold t.
    cbn [m v at4 set_m set4 Mat4.default Vec4.default v0 v1 v2 v3 Vec4.x Vec4.y Vec4.z Vec4.w].
    change (lit 1 1) with one. change (lit 1 10) with (S754_finite false 13421773 (-27)).
    rewrite mul_one_l by (apply mul_valid; [assumption | reflexivity]).
    apply feqb_refl. apply div_finite_not_nan. now apply mul_finite_not_nan.
  - reflexivity.
  - intros fov aspect near far. unfold unassigned_perspective.
    repeat constructor.
Qed.

(** The scenario on the tabulated host. *)
Lemma perspective_scenario_witness :
  let t := @QM_TANF crt_sample (QM_deg_to_rad (lit 90 1 * lit_0_5)) in
  valid t = true /\ is_nan t = false /\
  let p := @QM_perspective crt_sample (lit 90 1) (lit 1 1) (lit 1 10) (lit 100 1) in
  (m p 0 0 == m p 1 1) = true.
Proof.
  cbv zeta. split; [reflexivity | split; [reflexivity |]].
  apply (perspective_scenario crt_sample); reflexivity.
Defined.

(** C9: [QM_translate(QMvec3(1,2,3)) * QMvec4(0,0,0,1)] is [QMvec4(1,2,3,1)],
    in both configurations. *)
Theorem translate_origin (sse : bool) :
  Mat4.op_mul_vec sse (QM_translate (Vec3.mk (lit 1 1) (lit 2 1) (lit 3 1)))
                     (Vec4.mk (lit 0 1) (lit 0 1) (lit 0 1) (lit 1 1))
  = Vec4.mk (lit 1 1) (lit 2 1) (lit 3 1) (lit 1 1).
Proof. destruct sse; vm_compute; reflexivity. Qed.

(** ** Quaternions *)

(** C1, the code at the failing input: with [QM_USE_SSE] the quotient
    [_mm_div_ps(result.packed, scale)] is dropped, so [QM_inverse] returns
    the conjugate as it is; for [q = (0,0,0,2)] that is [(-0,-0,-0,2)], where
    the conjugate scaled by [1 / dot(q,q)] is [(-0,-0,-0,0.5)].  The scalar
    branch, with [QM_dot] for the name it leaves undeclared, does scale. *)
Theorem inverse_sse_returns_conjugate :
  (forall qd q, QM_inverse true qd q = QM_conjugate q) /\
  (forall qd, QM_inverse true qd q_0002 = Quat.mk nzero nzero nzero lit_2) /\
  inverse_scaled true q_0002 = Quat.mk nzero nzero nzero lit_0_5 /\
  (forall qd, Quat.op_eq (QM_inverse true qd q_0002) (inverse_scaled true q_0002) = false) /\
  (forall q, QM_inverse false (Quat.QM_dot false) q = inverse_scaled false q).
Proof.
  repeat split; intros; reflexivity.
Qed.

(** C3, the counterexample: with [QM_USE_SSE] the zero quaternion has length
    zero and [QM_normalize] returns it unchanged; the division the test
    skips would have given four NaNs. *)
Lemma quat_normalize_sse_guarded :
  Quat.QM_length true Quat.default = zero /\
  Quat.QM_normalize true Quat.default = Quat.default /\
  Quat.op_div_scalar true Quat.default (Quat.QM_length true Quat.default)
    = Quat.mk nan nan nan nan.
Proof. repeat split. Qed.

(** C3, as amended: in both configurations [QM_normalize] on a quaternion
    whose length compares equal to zero returns the zero quaternion; the
    test of [len] is outside the [#if QM_USE_SSE]. *)
Theorem quat_normalize_zero_length (sse : bool) (q : QMquaternion) :
  (Quat.QM_length sse q == zero) = true -> Quat.QM_normalize sse q = Quat.default.
Proof.
  intros H. unfold Quat.QM_normalize, neqb. cbv zeta. unfold eqb in H. now rewrite H.
Qed.

(** A quaternion whose length underflows to zero. *)
Lemma quat_normalize_zero_length_witness :
  (Quat.QM_length true (Quat.mk two_m80 zero zero zero) == zero) = true /\
  Quat.QM_normalize true (Quat.mk two_m80 zero zero zero) = Quat.default.
Proof.
  split; [reflexivity |].
  apply (quat_normalize_zero_length true (Quat.mk two_m80 zero zero zero)). reflexivity.
Defined.

(** The two branches of the quaternion product agree. *)
Lemma quat_mul_sse_eq_scalar (q1 q2 : QMquaternion) :
  quat_valid q1 = true ->
  Quat.op_mul true q1 q2 = Quat.op_mul false q1 q2.
Proof.
  unfold quat_valid. intros H.
  apply andb_prop in H as [H Hw]. apply andb_prop in H as [H Hz].
  apply andb_prop in H as [Hx Hy].
  destruct q1 as [x1 y1 z1 w1], q2 as [x2 y2 z2 w2]. cbn [Quat.x Quat.y Quat.z Quat.w] in *.
  unfold Quat.op_mul.
  cbv [_MM_SHUFFLE _mm_shuffle_ps _mm_xor_ps _mm_setr_ps _mm_mul_ps _mm_add_ps map2
       Quat.packed Quat.of_packed f0 f1 f2 f3 lane Z.shiftl Z.shiftr Z.lor Z.land
       Z.shiftl Pos.iter Pos.lor Pos.land Z.opp Z.div2 Pos.div2 Z.of_N
       Quat.x Quat.y Quat.z Quat.w].
  rewrite !xor_lane_zero, !xor_lane_neg_zero by assumption.
  rewrite !mul_neg_l, !add_neg_r. reflexivity.
Qed.

(** C4: for well-formed binary32 components, the SSE quaternion product has
    exactly the four components of the scalar Hamilton formula, and so has
    the scalar branch. *)
Theorem quat_mul_sse_is_hamilton (q1 q2 : QMquaternion) :
  quat_valid q1 = true ->
  Quat.op_mul true q1 q2 = hamilton q1 q2 /\ Quat.op_mul false q1 q2 = hamilton q1 q2.
Proof.
  intros H. rewrite (quat_mul_sse_eq_scalar q1 q2 H).
  destruct q1, q2. split; reflexivity.
Qed.

(** Two quaternions whose products and sums round. *)
Lemma quat_mul_sse_is_hamilton_witness :
  let q1 := Quat.mk (lit 1 1) (lit 2 1) (lit 3 1) (lit 4 1) in
  let q2 := Quat.mk (lit 5 1) (lit (-6) 1) (lit 7 10) (lit 8 3) in
  quat_valid q1 = true /\ Quat.op_mul true q1 q2 = hamilton q1 q2.
Proof.
  cbv zeta. split; [reflexivity |].
  exact (proj1 (quat_mul_sse_is_hamilton
                  (Quat.mk (lit 1 1) (lit 2 1) (lit 3 1) (lit 4 1))
                  (Quat.mk (lit 5 1) (lit (-6) 1) (lit 7 10) (lit 8 3)) eq_refl)).
Defined.

(** The tabulated host meets the four points of Annex F. *)
Lemma crt_sample_annex_f : annex_f crt_sample.
Proof.
  repeat split. intros a Ha. cbn [QM_ACOSF crt_sample].
  now rewrite (ltb_not_eqb one a Ha).
Qed.

(** [QM_slerp] of a unit quaternion with itself, on a host that returns
    [+0] for [acosf(1)] and for [sinf(+0)]. *)
Section SlerpSelf.

Context (H : CRT).
Hypothesis acos_one : QM_ACOSF one = zero.
Hypothesis sin_zero : QM_SINF zero = zero.

Variable QM_USE_SSE : bool.
Variable q : QMquaternion.
Variable a : float.
Hypothesis unit_dot : Quat.QM_dot QM_USE_SSE q q = one.

Lemma slerp_unit_not_finite :
  let r := QM_slerp QM_USE_SSE q q a in
  is_finite (Quat.x r) = false /\ is_finite (Quat.y r) = false /\
  is_finite (Quat.z r) = false /\ is_finite (Quat.w r) = false.
Proof.
  intros r. unfold r, QM_slerp. cbv zeta.
  rewrite unit_dot, acos_one, sin_zero.
  change (one / zero) with pinf.
  destruct QM_USE_SSE; cbn; repeat split; apply mul_pinf_not_finite.
Qed.

(** C7, as amended: on a host with [acosf(1) = +0] and [sinf(+0) = +0], for
    every quaternion [q] with finite components and [dot(q,q) = 1] and every
    [a], no component of [QM_slerp(q, q, a)] is finite (each is a product
    with [1 / sin(0) = +inf]), so [QM_slerp(q, q, a) == q] is false. *)
Theorem slerp_self_unit :
  quat_finite q = true ->
  let r := QM_slerp QM_USE_SSE q q a in
  is_finite (Quat.x r) = false /\ is_finite (Quat.y r) = false /\
  is_finite (Quat.z r) = false /\ is_finite (Quat.w r) = false /\
  Quat.op_eq r q = false.
Proof.
  intros Hfin r.
  destruct slerp_unit_not_finite as (Hx & Hy & Hz & Hw).
  fold r in Hx, Hy, Hz, Hw. repeat split; try assumption.
  unfold Quat.op_eq. rewrite (eqb_not_finite _ _ Hx); [reflexivity |].
  unfold quat_finite in Hfin. rewrite !andb_true_iff in Hfin. tauto.
Qed.

End SlerpSelf.

(** The identity quaternion at [a = 0.5], on the tabulated host. *)
Lemma slerp_self_unit_witness :
  @QM_ACOSF crt_sample one = zero /\ @QM_SINF crt_sample zero = zero /\
  Quat.QM_dot true QM_quaternion_identity QM_quaternion_identity = one /\
  quat_finite QM_quaternion_identity = true /\
  Quat.op_eq (@QM_slerp true crt_sample QM_quaternion_identity QM_quaternion_identity lit_0_5)
             QM_quaternion_identity = false.
Proof.
  split; [reflexivity | split; [reflexivity | split; [reflexivity | split; [reflexivity |]]]].
  apply (slerp_self_unit crt_sample eq_refl eq_refl true QM_quaternion_identity lit_0_5
           eq_refl eq_refl).
Defined.

(** C7, the counterexample: at [a = 0.5], on every host that meets Annex F
    and in both configurations, [QM_slerp(q, q, a) == q] is false for the
    identity quaternion, where the sine of the angle is zero, and for
    [q = (0,0,0,2)], where it is a NaN and not zero. *)
Lemma slerp_self_counterexample :
  (forall (H : CRT) (sse : bool), annex_f H ->
     QM_SINF (QM_ACOSF (Quat.QM_dot sse QM_quaternion_identity QM_quaternion_identity)) = zero /\
     Quat.op_eq (QM_slerp sse QM_quaternion_identity QM_quaternion_identity lit_0_5)
                QM_quaternion_identity = false) /\
  (forall (H : CRT) (sse : bool), annex_f H ->
     QM_SINF (QM_ACOSF (Quat.QM_dot sse q_0002 q_0002)) = nan /\
     Quat.op_eq (QM_slerp sse q_0002 q_0002 lit_0_5) q_0002 = false).
Proof.
  split; intros H sse (Hacos & Hdom & Hsin & Hnan).
  - assert (Hdot : Quat.QM_dot sse QM_quaternion_identity QM_quaternion_identity = one)
      by (destruct sse; reflexivity).
    split; [now rewrite Hdot, Hacos |].
    destruct (slerp_unit_not_finite H Hacos Hsin sse QM_quaternion_identity lit_0_5 Hdot)
      as (Hx & _).
    unfold Quat.op_eq. rewrite (eqb_not_finite _ _ Hx); reflexivity.
  - assert (Hdot : Quat.QM_dot sse q_0002 q_0002 = lit 4 1) by (destruct sse; reflexivity).
    assert (Hang : QM_ACOSF (Quat.QM_dot sse q_0002 q_0002) = nan)
      by (rewrite Hdot; apply Hdom; reflexivity).
    split; [now rewrite Hang, Hnan |].
    unfold QM_slerp. cbv zeta. rewrite Hang.
    change (lit_0_5 * nan) with nan. change ((one - lit_0_5) * nan) with nan.
    rewrite Hnan. destruct sse; reflexivity.
Qed.

(** Negating [x], [y] and [z] leaves every square, hence the dot product,
    as it is. *)
Lemma quat_dot_conjugate (sse : bool) (q : QMquaternion) :
  Quat.QM_dot sse (QM_conjugate q) (QM_conjugate q) = Quat.QM_dot sse q q.
Proof.
  destruct q as [x y z w], sse; cbn; fold (mul (- x) (- x)) (mul (- y) (- y)) (mul (- z) (- z));
    rewrite !mul_neg_neg; reflexivity.
Qed.

(** A sum of squares of numbers is a number, and so is its square root. *)
Lemma quat_length_not_nan (sse : bool) (q : QMquaternion) :
  quat_has_nan q = false -> is_nan (Quat.QM_length sse q) = false.
Proof.
  destruct q as [x y z w]. unfold quat_has_nan. cbn [Quat.x Quat.y Quat.z Quat.w].
  rewrite !orb_false_iff. intros [[[Hx Hy] Hz] Hw].
  unfold Quat.QM_length, QM_SQRTF. apply sqrtf_signed_false.
  pose proof (mul_self_signed x Hx). pose proof (mul_self_signed y Hy).
  pose proof (mul_self_signed z Hz). pose proof (mul_self_signed w Hw).
  destruct sse; cbn [Quat.QM_dot Quat.packed _mm_mul_ps _mm_hadd_ps _mm_store_ss map2
                     f0 f1 f2 f3 Quat.x Quat.y Quat.z Quat.w];
    repeat apply add_signed_false; assumption.
Qed.

(** C10: for every quaternion [q], [QM_length(QM_conjugate(q))] and
    [QM_length(q)] are the same float; and [==] between them is true
    whenever no component of [q] is a NaN. *)
Theorem conjugate_length (sse : bool) (q : QMquaternion) :
  Quat.QM_length sse (QM_conjugate q) = Quat.QM_length sse q /\
  (quat_has_nan q = false ->
   (Quat.QM_length sse (QM_conjugate q) == Quat.QM_length sse q) = true).
Proof.
  assert (E : Quat.QM_length sse (QM_conjugate q) = Quat.QM_length sse q).
  { unfold Quat.QM_length. now rewrite quat_dot_conjugate. }
  split; [exact E |].
  intros Hn. rewrite E. apply feqb_refl. now apply quat_length_not_nan.
Qed.

(** A quaternion of finite components. *)
Lemma conjugate_length_witness :
  let q := Quat.mk (lit 1 1) (lit (-2) 1) (lit 3 10) (lit 4 1) in
  quat_has_nan q = false /\
  (Quat.QM_length true (QM_conjugate q) == Quat.QM_length true q) = true.
Proof.
  cbv zeta. split; [reflexivity |].
  apply (proj2 (conjugate_length true (Quat.mk (lit 1 1) (lit (-2) 1) (lit 3 10) (lit 4 1)))).
  reflexivity.
Defined.

(** * Further properties of the header's functions *)

(** ** More of binary32 arithmetic: commuting, negation, zeros *)

Section MoreAlgebra.

Lemma add_comm (a b : float) : a + b = b + a.
Proof.
  unfold add, SFadd.
  destruct a as [[] | [] | | sa ma ea], b as [[] | [] | | sb mb eb]; try reflexivity.
  now rewrite Z.min_comm, Z.add_comm.
Qed.

Lemma sub_neg_r (a b : float) : a - (- b) = a + b.
Proof. rewrite <- add_neg_r. now rewrite neg_involutive. Qed.

Lemma mul_neg_r (a b : float) : a * (- b) = - (a * b).
Proof. now rewrite mul_comm, mul_neg_l, mul_comm. Qed.

Lemma binary_normalize_opp (k e : Z) :
  k <> 0%Z ->
  binary_normalize prec emax (- k) e false = - binary_normalize prec emax k e false.
Proof.
  intros Hk. destruct k as [| p | p]; [contradiction | |]; cbn [Z.opp binary_normalize];
    unfold binary_round; destruct (shl_align _ _ _) as [mz ez].
  - apply (binary_round_aux_negb false).
  - change (neg (binary_round_aux prec emax true (Z.pos mz) ez loc_Exact))
      with (neg (binary_round_aux prec emax (negb false) (Z.pos mz) ez loc_Exact)).
    rewrite binary_round_aux_negb. symmetry. apply neg_involutive.
Qed.

(** [b - a] is [-(a - b)], except that an exact cancellation is [+0] both
    ways. *)
Lemma sub_swap (a b : float) :
  b - a = - (a - b) \/ (a - b = zero /\ b - a = zero).
Proof.
  unfold sub, neg, SFsub.
  destruct a as [[] | [] | | sa ma ea], b as [[] | [] | | sb mb eb]; cbn [SFopp negb];
    try (left; reflexivity); try (right; split; reflexivity).
  - left. now rewrite negb_involutive.
  - left. now rewrite negb_involutive.
  - rewrite (Z.min_comm eb ea).
    set (ka := cond_Zopp sa _). set (kb := cond_Zopp sb _).
    destruct (Z.eq_dec (ka - kb) 0) as [E | N].
    + right. replace (kb - ka)%Z with 0%Z by lia. rewrite E. split; reflexivity.
    + left. replace (kb - ka)%Z with (- (ka - kb))%Z by lia.
      now apply binary_normalize_opp.
Qed.

Lemma sub_self (a : float) : is_finite a = true -> a - a = zero.
Proof.
  destruct a as [[] | [] | | s m e]; cbn [is_finite]; intros H; try discriminate;
    try reflexivity.
  unfold sub, SFsub. now rewrite Z.sub_diag.
Qed.

Lemma sub_self_cases (a : float) : a - a = zero \/ a - a = nan.
Proof.
  destruct a as [[] | [] | | s m e]; try (left; reflexivity); try (right; reflexivity).
  left. now apply sub_self.
Qed.

Lemma add_neg_self (a : float) : is_finite a = true -> a + (- a) = zero.
Proof. intros H. rewrite add_neg_r. now apply sub_self. Qed.

(** Doubling commutes with negation: no cancellation can occur. *)
Lemma add_self_neg (a : float) : (- a) + (- a) = - (a + a).
Proof.
  destruct a as [[] | [] | | s m e]; try reflexivity.
  unfold add, neg, SFadd. cbn [SFopp].
  rewrite cond_Zopp_negb.
  set (k := cond_Zopp s _).
  replace (- k + - k)%Z with (- (k + k))%Z by lia.
  apply binary_normalize_opp.
  unfold k. destruct s; cbn [cond_Zopp]; lia.
Qed.

End MoreAlgebra.

(** ** Zeros and [==] *)

Section Zeros.

Lemma same_refl (a : float) : same a a.
Proof. now left. Qed.

Lemma same_sym (a b : float) : same a b -> same b a.
Proof. intros [-> | [Ha Hb]]; [now left | now right]. Qed.

Lemma same_trans (a b c : float) : same a b -> same b c -> same a c.
Proof.
  intros [-> | [Ha Hb]] [<- | [Hb' Hc]]; try (now left); try (now right).
Qed.

Lemma same_eqb (a b : float) : same a b -> is_nan a = false -> (a == b) = true.
Proof.
  intros [<- | [Ha Hb]] Hn; [now apply feqb_refl |].
  destruct a, b; try discriminate. reflexivity.
Qed.

Lemma eqb_same (a b : float) : (a == b) = true -> same a b.
Proof.
  destruct a as [sa | sa | | sa ma ea], b as [sb | sb | | sb mb eb];
    unfold eqb, SFeqb, SFcompare; intros H;
    try (right; split; reflexivity);
    try (destruct sa; discriminate H); try (destruct sb; discriminate H);
    try discriminate H.
  - left. destruct sa, sb; try discriminate H; reflexivity.
  - left. destruct sa, sb; try discriminate H.
    + destruct (Z.compare_spec ea eb) as [-> | |]; try discriminate H.
      destruct (Pos.compare_cont Eq ma mb) eqn:E; try discriminate H.
      apply (Pos.compare_eq ma mb) in E. now subst.
    + destruct (Z.compare_spec ea eb) as [-> | |]; try discriminate H.
      destruct (Pos.compare_cont Eq ma mb) eqn:E; try discriminate H.
      apply (Pos.compare_eq ma mb) in E. now subst.
Qed.

Lemma same_finite (a b : float) : same a b -> is_finite a = true -> is_finite b = true.
Proof. intros [<- | [_ Hb]] H; [assumption | now destruct b]. Qed.

Lemma same_valid (a b : float) : same a b -> valid a = true -> valid b = true.
Proof. intros [<- | [_ Hb]] H; [assumption | now destruct b]. Qed.

Lemma same_fin (a b : float) : same a b -> fin a = true -> fin b = true.
Proof.
  unfold fin. rewrite !andb_true_iff. intros S [V F].
  split; [exact (same_valid _ _ S V) | exact (same_finite _ _ S F)].
Qed.

Lemma is_zero_same (a b : float) : is_zero a = true -> is_zero b = true -> same a b.
Proof. now right. Qed.

Lemma same_zero (a b : float) : same a b -> is_zero b = true -> is_zero a = true.
Proof. intros [-> | [Ha _]] H; assumption. Qed.

(** Adding a zero on either side gives the other operand back, or a zero. *)
Lemma add_zero_r (a z : float) : is_zero z = true -> same (a + z) a.
Proof.
  destruct z as [sz | | |]; try discriminate. intros _.
  destruct a as [[] | [] | | s m e], sz; try (left; reflexivity); right; split; reflexivity.
Qed.

Lemma add_zero_l (a z : float) : is_zero z = true -> same (z + a) a.
Proof. intros H. rewrite add_comm. now apply add_zero_r. Qed.

Lemma sub_zero_r (a z : float) : is_zero z = true -> same (a - z) a.
Proof.
  intros H. rewrite <- add_neg_r. apply add_zero_r. now destruct z.
Qed.

Lemma mul_zero_l (z a : float) : is_zero z = true -> is_finite a = true -> is_zero (z * a) = true.
Proof.
  destruct z as [sz | | |]; try discriminate. intros _.
  now destruct a as [sa | sa | | sa ma ea].
Qed.

Lemma mul_zero_r (a z : float) : is_zero z = true -> is_finite a = true -> is_zero (a * z) = true.
Proof. intros Hz Ha. rewrite mul_comm. now apply mul_zero_l. Qed.

Lemma mul_one_r (a : float) : valid a = true -> a * one = a.
Proof. intros H. rewrite mul_comm. now apply mul_one_l. Qed.

(** [+], [-], [*] and unary [-] respect [same]. *)
Lemma add_same (a a' b b' : float) : same a a' -> same b b' -> same (a + b) (a' + b').
Proof.
  intros [<- | [Ha Ha']] [<- | [Hb Hb']].
  - apply same_refl.
  - apply (same_trans _ a); [now apply add_zero_r | apply same_sym; now apply add_zero_r].
  - apply (same_trans _ b); [now apply add_zero_l | apply same_sym; now apply add_zero_l].
  - right. destruct a as [[] | | |], a' as [[] | | |], b as [[] | | |], b' as [[] | | |];
      try discriminate; split; reflexivity.
Qed.

Lemma neg_same (a a' : float) : same a a' -> same (- a) (- a').
Proof.
  intros [<- | [Ha Ha']]; [apply same_refl |].
  right. destruct a, a'; try discriminate. split; reflexivity.
Qed.

Lemma sub_same (a a' b b' : float) : same a a' -> same b b' -> same (a - b) (a' - b').
Proof.
  intros Ha Hb. rewrite <- !add_neg_r. apply add_same; [assumption | now apply neg_same].
Qed.

Lemma mul_same_l (a a' b : float) : is_finite b = true -> same a a' -> same (a * b) (a' * b).
Proof.
  intros Hb [<- | [Ha Ha']]; [apply same_refl |].
  right. split; now apply mul_zero_l.
Qed.

Lemma mul_same_r (a b b' : float) : is_finite a = true -> same b b' -> same (a * b) (a * b').
Proof. intros Ha S. rewrite (mul_comm a b), (mul_comm a b'). now apply mul_same_l. Qed.

End Zeros.

(** ** Comparisons, minimum and maximum *)

Section MoreComparisons.

Lemma eqb_self (a : float) : (a == a) = negb (is_nan a).
Proof.
  destruct (is_nan a) eqn:E; [destruct a; try discriminate; reflexivity |].
  now apply feqb_refl.
Qed.

Lemma eqb_not_nan (a b : float) : (a == b) = true -> is_nan a = false /\ is_nan b = false.
Proof.
  destruct a as [sa | sa | | sa ma ea], b as [sb | sb | | sb mb eb]; intros H;
    try discriminate H; split; reflexivity.
Qed.

Lemma eqb_sym (a b : float) : (a == b) = (b == a).
Proof.
  destruct (a == b) eqn:E1, (b == a) eqn:E2; try reflexivity.
  - pose proof (eqb_not_nan _ _ E1) as [_ Hb].
    rewrite (same_eqb b a (same_sym _ _ (eqb_same _ _ E1)) Hb) in E2. discriminate.
  - pose proof (eqb_not_nan _ _ E2) as [_ Ha].
    rewrite (same_eqb a b (same_sym _ _ (eqb_same _ _ E2)) Ha) in E1. discriminate.
Qed.

Lemma ltb_irrefl (a : float) : ltb a a = false.
Proof.
  unfold ltb, SFltb.
  destruct a as [[] | [] | | [] m e]; cbn [SFcompare]; try reflexivity;
    now rewrite Z.compare_refl, Pos.compare_cont_refl.
Qed.

Lemma ltb_asym (a b : float) : ltb a b = true -> ltb b a = false.
Proof.
  unfold ltb, SFltb.
  destruct a as [sa | sa | | sa ma ea], b as [sb | sb | | sb mb eb];
    try (destruct sa); try (destruct sb); cbn [SFcompare]; try discriminate; try reflexivity.
  - rewrite (Z.compare_antisym ea eb), (compare_cont_swap mb ma).
    destruct (ea ?= eb)%Z; cbn [CompOpp]; try discriminate; try reflexivity.
    destruct (Pos.compare_cont Eq ma mb); cbn [CompOpp]; try discriminate; reflexivity.
  - rewrite (Z.compare_antisym ea eb), (compare_cont_swap mb ma).
    destruct (ea ?= eb)%Z; cbn [CompOpp]; try discriminate; try reflexivity.
    destruct (Pos.compare_cont Eq ma mb); cbn [CompOpp]; try discriminate; reflexivity.
Qed.

Lemma ltb_not_nan (a b : float) : ltb a b = true -> is_nan a = false /\ is_nan b = false.
Proof.
  destruct a as [sa | sa | | sa ma ea], b as [sb | sb | | sb mb eb]; intros H;
    try discriminate H; split; reflexivity.
Qed.

Lemma is_nan_QM_MIN (a b : float) : is_nan (QM_MIN a b) = is_nan b.
Proof.
  unfold QM_MIN. destruct (ltb a b) eqn:E; [| reflexivity].
  apply ltb_not_nan in E as [-> ->]. reflexivity.
Qed.

Lemma is_nan_QM_MAX (a b : float) : is_nan (QM_MAX a b) = is_nan b.
Proof.
  unfold QM_MAX. destruct (ltb b a) eqn:E; [| reflexivity].
  apply ltb_not_nan in E as [-> ->]. reflexivity.
Qed.

Lemma QM_MIN_below (a b : float) :
  ltb a (QM_MIN a b) = false /\ ltb b (QM_MIN a b) = false.
Proof.
  unfold QM_MIN. destruct (ltb a b) eqn:E.
  - split; [apply ltb_irrefl | now apply ltb_asym].
  - split; [exact E | apply ltb_irrefl].
Qed.

Lemma QM_MAX_above (a b : float) :
  ltb (QM_MAX a b) a = false /\ ltb (QM_MAX a b) b = false.
Proof.
  unfold QM_MAX. destruct (ltb b a) eqn:E.
  - split; [apply ltb_irrefl | now apply ltb_asym].
  - split; [exact E | apply ltb_irrefl].
Qed.

(** The SSE minimum and maximum are the macros, lane by lane. *)
Lemma vec4_min_lanes (sse : bool) (v1 v2 : QMvec4) :
  Vec4.QM_min sse v1 v2 =
  Vec4.mk (QM_MIN (Vec4.x v1) (Vec4.x v2)) (QM_MIN (Vec4.y v1) (Vec4.y v2))
          (QM_MIN (Vec4.z v1) (Vec4.z v2)) (QM_MIN (Vec4.w v1) (Vec4.w v2)).
Proof. destruct sse; reflexivity. Qed.

Lemma vec4_max_lanes (sse : bool) (v1 v2 : QMvec4) :
  Vec4.QM_max sse v1 v2 =
  Vec4.mk (QM_MAX (Vec4.x v1) (Vec4.x v2)) (QM_MAX (Vec4.y v1) (Vec4.y v2))
          (QM_MAX (Vec4.z v1) (Vec4.z v2)) (QM_MAX (Vec4.w v1) (Vec4.w v2)).
Proof. destruct sse; reflexivity. Qed.

End MoreComparisons.

(** ** Sums of squares *)

Section Squares.

Lemma signed_nonneg (r : float) : signed false r -> nonneg_or_nan r.
Proof. destruct r; cbn; tauto. Qed.

Lemma mul_self_nonneg (a : float) : nonneg_or_nan (a * a).
Proof.
  destruct (is_nan a) eqn:E; [destruct a; try discriminate; exact I |].
  apply signed_nonneg. now apply mul_self_signed.
Qed.

Lemma add_nonneg (a b : float) : nonneg_or_nan a -> nonneg_or_nan b -> nonneg_or_nan (a + b).
Proof.
  intros Ha Hb.
  destruct (is_nan a) eqn:Ea; [destruct a; try discriminate; exact I |].
  destruct (is_nan b) eqn:Eb; [destruct a, b; try discriminate; exact I |].
  apply signed_nonneg, add_signed_false.
  - destruct a; try discriminate; exact Ha.
  - destruct b; try discriminate; exact Hb.
Qed.

Lemma sqrtf_nonneg (a : float) : nonneg_or_nan a -> nonneg_or_nan (sqrtf a).
Proof.
  destruct a as [sa | sa | | sa ma ea]; cbn [nonneg_or_nan]; intros Ha; subst;
    try exact I; try reflexivity.
  unfold sqrtf, SFsqrt, SFsqrt_core_binary.
  set (e' := Z.min _ _). set (m' := match (ea - 2 * e')%Z with Z.pos _ => _ | _ => _ end).
  assert (Hm' : (0 <= m')%Z).
  { unfold m'. destruct (ea - 2 * e')%Z; try lia. apply Z.shiftl_nonneg. lia. }
  pose proof (Z.sqrtrem_spec m' Hm') as Hs.
  destruct (Z.sqrtrem m') as [q r].
  apply signed_nonneg. apply binary_round_aux_signed. lia.
Qed.

Lemma nonneg_not_ltb (r : float) : nonneg_or_nan r -> ltb r zero = false /\ r <> nzero.
Proof.
  destruct r as [s | s | | s m e]; cbn [nonneg_or_nan]; intros H; subst;
    (split; [reflexivity | discriminate]).
Qed.

(** The square of a difference does not depend on the order. *)
Lemma sq_sub_swap (a b : float) : (a - b) * (a - b) = (b - a) * (b - a).
Proof.
  destruct (sub_swap a b) as [-> | [-> ->]]; [| reflexivity].
  now rewrite mul_neg_neg.
Qed.

End Squares.

(** ** Vectors: dot product, addition, length, distance, equality *)

(** X1: the dot product does not depend on the order of its operands, in
    any dimension, for quaternions, and in both configurations: the two
    results are the same float. *)
Theorem dot_commutes :
  (forall v1 v2 : QMvec2, Vec2.QM_dot v1 v2 = Vec2.QM_dot v2 v1) /\
  (forall v1 v2 : QMvec3, Vec3.QM_dot v1 v2 = Vec3.QM_dot v2 v1) /\
  (forall (sse : bool) (v1 v2 : QMvec4), Vec4.QM_dot sse v1 v2 = Vec4.QM_dot sse v2 v1) /\
  (forall (sse : bool) (q1 q2 : QMquaternion), Quat.QM_dot sse q1 q2 = Quat.QM_dot sse q2 q1).
Proof.
  split; [| split; [| split]].
  - intros [x1 y1] [x2 y2]. unfold Vec2.QM_dot. cbn [Vec2.x Vec2.y].
    now rewrite (mul_comm x1), (mul_comm y1).
  - intros [x1 y1 z1] [x2 y2 z2]. unfold Vec3.QM_dot. cbn [Vec3.x Vec3.y Vec3.z].
    now rewrite (mul_comm x1), (mul_comm y1), (mul_comm z1).
  - intros sse [x1 y1 z1 w1] [x2 y2 z2 w2]. unfold Vec4.QM_dot, _mm_mul_ps.
    cbn [Vec4.packed _mm_mul_ps _mm_hadd_ps _mm_store_ss map2 f0 f1 f2 f3
         Vec4.x Vec4.y Vec4.z Vec4.w].
    now rewrite (mul_comm x1), (mul_comm y1), (mul_comm z1), (mul_comm w1).
  - intros sse [x1 y1 z1 w1] [x2 y2 z2 w2]. unfold Quat.QM_dot, _mm_mul_ps.
    cbn [Quat.packed _mm_mul_ps _mm_hadd_ps _mm_store_ss map2 f0 f1 f2 f3
         Quat.x Quat.y Quat.z Quat.w].
    now rewrite (mul_comm x1), (mul_comm y1), (mul_comm z1), (mul_comm w1).
Qed.

(** X2: [operator+] on vectors and quaternions, and the componentwise
    [operator*] on vectors, do not depend on the order of their operands. *)
Theorem add_mul_commute :
  (forall v1 v2 : QMvec2,
     Vec2.op_add v1 v2 = Vec2.op_add v2 v1 /\ Vec2.op_mul v1 v2 = Vec2.op_mul v2 v1) /\
  (forall v1 v2 : QMvec3,
     Vec3.op_add v1 v2 = Vec3.op_add v2 v1 /\ Vec3.op_mul v1 v2 = Vec3.op_mul v2 v1) /\
  (forall (sse : bool) (v1 v2 : QMvec4),
     Vec4.op_add sse v1 v2 = Vec4.op_add sse v2 v1 /\
     Vec4.op_mul sse v1 v2 = Vec4.op_mul sse v2 v1) /\
  (forall (sse : bool) (q1 q2 : QMquaternion), Quat.op_add sse q1 q2 = Quat.op_add sse q2 q1).
Proof.
  split; [| split; [| split]].
  - intros [x1 y1] [x2 y2]. unfold Vec2.op_add, Vec2.op_mul. cbn [Vec2.x Vec2.y].
    now rewrite (add_comm x1), (add_comm y1), (mul_comm x1), (mul_comm y1).
  - intros [x1 y1 z1] [x2 y2 z2]. unfold Vec3.op_add, Vec3.op_mul. cbn [Vec3.x Vec3.y Vec3.z].
    now rewrite (add_comm x1), (add_comm y1), (add_comm z1),
      (mul_comm x1), (mul_comm y1), (mul_comm z1).
  - intros sse [x1 y1 z1 w1] [x2 y2 z2 w2].
    unfold Vec4.op_add, Vec4.op_mul, _mm_add_ps, _mm_mul_ps, map2, Vec4.of_packed, Vec4.packed.
    cbn [Vec4.packed Vec4.of_packed _mm_add_ps _mm_mul_ps map2 f0 f1 f2 f3
         Vec4.x Vec4.y Vec4.z Vec4.w].
    now rewrite (add_comm x1), (add_comm y1), (add_comm z1), (add_comm w1),
      (mul_comm x1), (mul_comm y1), (mul_comm z1), (mul_comm w1).
  - intros sse [x1 y1 z1 w1] [x2 y2 z2 w2]. unfold Quat.op_add, _mm_add_ps, map2, Quat.of_packed, Quat.packed.
    cbn [Quat.packed Quat.of_packed _mm_add_ps map2 f0 f1 f2 f3
         Quat.x Quat.y Quat.z Quat.w].
    now rewrite (add_comm x1), (add_comm y1), (add_comm z1), (add_comm w1).
Qed.

(** X3: [QM_length] never returns a negative number, and never [-0]: for
    every input the test [length < 0] is false.  (A NaN component gives a
    NaN length.) *)
Theorem length_not_negative :
  (forall v : QMvec2, ltb (Vec2.QM_length v) zero = false /\ Vec2.QM_length v <> nzero) /\
  (forall v : QMvec3, ltb (Vec3.QM_length v) zero = false /\ Vec3.QM_length v <> nzero) /\
  (forall (sse : bool) (v : QMvec4),
     ltb (Vec4.QM_length sse v) zero = false /\ Vec4.QM_length sse v <> nzero) /\
  (forall (sse : bool) (q : QMquaternion),
     ltb (Quat.QM_length sse q) zero = false /\ Quat.QM_length sse q <> nzero).
Proof.
  split; [| split; [| split]].
  - intros [x y]. apply nonneg_not_ltb. unfold Vec2.QM_length, QM_SQRTF, Vec2.QM_dot.
    apply sqrtf_nonneg. repeat apply add_nonneg; apply mul_self_nonneg.
  - intros [x y z]. apply nonneg_not_ltb. unfold Vec3.QM_length, QM_SQRTF, Vec3.QM_dot.
    apply sqrtf_nonneg. repeat apply add_nonneg; apply mul_self_nonneg.
  - intros sse [x y z w]. apply nonneg_not_ltb. unfold Vec4.QM_length, QM_SQRTF.
    apply sqrtf_nonneg.
    destruct sse; cbn [Vec4.QM_dot Vec4.packed _mm_mul_ps _mm_hadd_ps _mm_store_ss map2
                       f0 f1 f2 f3 Vec4.x Vec4.y Vec4.z Vec4.w];
      repeat apply add_nonneg; apply mul_self_nonneg.
  - intros sse [x y z w]. apply nonneg_not_ltb. unfold Quat.QM_length, QM_SQRTF.
    apply sqrtf_nonneg.
    destruct sse; cbn [Quat.QM_dot Quat.packed _mm_mul_ps _mm_hadd_ps _mm_store_ss map2
                       f0 f1 f2 f3 Quat.x Quat.y Quat.z Quat.w];
      repeat apply add_nonneg; apply mul_self_nonneg.
Qed.

(** X4: [operator==] on vectors and quaternions is symmetric, and [v == v]
    holds exactly when no component of [v] is a NaN. *)
Theorem eq_symmetric_reflexive :
  (forall v1 v2 : QMvec2,
     Vec2.op_eq v1 v2 = Vec2.op_eq v2 v1 /\ Vec2.op_eq v1 v1 = negb (nan2 v1)) /\
  (forall v1 v2 : QMvec3,
     Vec3.op_eq v1 v2 = Vec3.op_eq v2 v1 /\ Vec3.op_eq v1 v1 = negb (nan3 v1)) /\
  (forall v1 v2 : QMvec4,
     Vec4.op_eq v1 v2 = Vec4.op_eq v2 v1 /\ Vec4.op_eq v1 v1 = negb (nan4 v1)) /\
  (forall q1 q2 : QMquaternion,
     Quat.op_eq q1 q2 = Quat.op_eq q2 q1 /\ Quat.op_eq q1 q1 = negb (quat_has_nan q1)).
Proof.
  split; [| split; [| split]].
  - intros [x1 y1] [x2 y2]. unfold Vec2.op_eq, nan2. cbn [Vec2.x Vec2.y].
    rewrite (eqb_sym x1), (eqb_sym y1), !eqb_self, !negb_orb. split; reflexivity.
  - intros [x1 y1 z1] [x2 y2 z2]. unfold Vec3.op_eq, nan3. cbn [Vec3.x Vec3.y Vec3.z].
    rewrite (eqb_sym x1), (eqb_sym y1), (eqb_sym z1), !eqb_self, !negb_orb.
    split; reflexivity.
  - intros [x1 y1 z1 w1] [x2 y2 z2 w2]. unfold Vec4.op_eq, nan4.
    cbn [Vec4.x Vec4.y Vec4.z Vec4.w].
    rewrite (eqb_sym x1), (eqb_sym y1), (eqb_sym z1), (eqb_sym w1), !eqb_self, !negb_orb.
    split; reflexivity.
  - intros [x1 y1 z1 w1] [x2 y2 z2 w2]. unfold Quat.op_eq, quat_has_nan.
    cbn [Quat.x Quat.y Quat.z Quat.w].
    rewrite (eqb_sym x1), (eqb_sym y1), (eqb_sym z1), (eqb_sym w1), !eqb_self, !negb_orb.
    split; reflexivity.
Qed.

(** X5: [QM_distance] does not depend on the order of its operands: the two
    results are the same float, whatever the components are. *)
Theorem distance_symmetric :
  (forall v1 v2 : QMvec2, Vec2.QM_distance v1 v2 = Vec2.QM_distance v2 v1) /\
  (forall v1 v2 : QMvec3, Vec3.QM_distance v1 v2 = Vec3.QM_distance v2 v1) /\
  (forall (sse : bool) (v1 v2 : QMvec4),
     Vec4.QM_distance sse v1 v2 = Vec4.QM_distance sse v2 v1).
Proof.
  split; [| split].
  - intros [x1 y1] [x2 y2].
    unfold Vec2.QM_distance, Vec2.QM_length, Vec2.QM_dot, Vec2.op_sub. cbn [Vec2.x Vec2.y].
    now rewrite (sq_sub_swap x1 x2), (sq_sub_swap y1 y2).
  - intros [x1 y1 z1] [x2 y2 z2].
    unfold Vec3.QM_distance, Vec3.QM_length, Vec3.QM_dot, Vec3.op_sub.
    cbn [Vec3.x Vec3.y Vec3.z].
    now rewrite (sq_sub_swap x1 x2), (sq_sub_swap y1 y2), (sq_sub_swap z1 z2).
  - intros sse [x1 y1 z1 w1] [x2 y2 z2 w2].
    unfold Vec4.QM_distance, Vec4.QM_length, Vec4.QM_dot, Vec4.op_sub.
    destruct sse; lanes;
      now rewrite (sq_sub_swap x1 x2), (sq_sub_swap y1 y2), (sq_sub_swap z1 z2),
        (sq_sub_swap w1 w2).
Qed.

(** X6: the distance from a vector of finite components to itself is [+0]. *)
Theorem distance_self_zero :
  (forall v : QMvec2, fin2 v = true -> Vec2.QM_distance v v = zero) /\
  (forall v : QMvec3, fin3 v = true -> Vec3.QM_distance v v = zero) /\
  (forall (sse : bool) (v : QMvec4), fin4 v = true -> Vec4.QM_distance sse v v = zero).
Proof.
  split; [| split].
  - intros [x y]. unfold fin2, fin. cbn [Vec2.x Vec2.y]. rewrite !andb_true_iff.
    intros [[_ Fx] [_ Fy]].
    unfold Vec2.QM_distance, Vec2.QM_length, Vec2.QM_dot, Vec2.op_sub. cbn [Vec2.x Vec2.y].
    rewrite (sub_self x Fx), (sub_self y Fy). reflexivity.
  - intros [x y z]. unfold fin3, fin. cbn [Vec3.x Vec3.y Vec3.z]. rewrite !andb_true_iff.
    intros [[[_ Fx] [_ Fy]] [_ Fz]].
    unfold Vec3.QM_distance, Vec3.QM_length, Vec3.QM_dot, Vec3.op_sub.
    cbn [Vec3.x Vec3.y Vec3.z].
    rewrite (sub_self x Fx), (sub_self y Fy), (sub_self z Fz). reflexivity.
  - intros sse [x y z w]. unfold fin4, fin. cbn [Vec4.x Vec4.y Vec4.z Vec4.w].
    rewrite !andb_true_iff. intros [[[[_ Fx] [_ Fy]] [_ Fz]] [_ Fw]].
    unfold Vec4.QM_distance, Vec4.QM_length, Vec4.QM_dot, Vec4.op_sub.
    destruct sse; lanes;
      rewrite (sub_self x Fx), (sub_self y Fy), (sub_self z Fz), (sub_self w Fw);
      reflexivity.
Qed.

(** The vectors [(1, -2)], [(1, -2, 0.3)] and [(1, -2, 0.3, 4)]. *)
Lemma distance_self_zero_witness :
  Vec2.QM_distance (Vec2.mk (lit 1 1) (lit (-2) 1)) (Vec2.mk (lit 1 1) (lit (-2) 1)) = zero /\
  Vec3.QM_distance (Vec3.mk (lit 1 1) (lit (-2) 1) (lit 3 10))
                   (Vec3.mk (lit 1 1) (lit (-2) 1) (lit 3 10)) = zero /\
  Vec4.QM_distance true (Vec4.mk (lit 1 1) (lit (-2) 1) (lit 3 10) (lit 4 1))
                        (Vec4.mk (lit 1 1) (lit (-2) 1) (lit 3 10) (lit 4 1)) = zero.
Proof.
  split; [| split].
  - exact (proj1 distance_self_zero (Vec2.mk (lit 1 1) (lit (-2) 1)) eq_refl).
  - exact (proj1 (proj2 distance_self_zero)
             (Vec3.mk (lit 1 1) (lit (-2) 1) (lit 3 10)) eq_refl).
  - exact (proj2 (proj2 distance_self_zero) true
             (Vec4.mk (lit 1 1) (lit (-2) 1) (lit 3 10) (lit 4 1)) eq_refl).
Defined.

Section Overflow.

Lemma div_pinf_zero (a : float) : is_finite a = true -> is_zero (a / pinf) = true.
Proof. destruct a; cbn [is_finite]; intros H; try discriminate; reflexivity. Qed.

Lemma is_zero_eqb_zero (a : float) : is_zero a = true -> (a == zero) = true.
Proof. destruct a; cbn [is_zero]; intros H; try discriminate; reflexivity. Qed.

Lemma eqb_zero_is_zero (a : float) : (a == zero) = true -> is_zero a = true.
Proof.
  intros H. apply eqb_same in H. destruct H as [-> | [H _]]; [reflexivity | exact H].
Qed.

End Overflow.

(** X7: when the sum of squares of a vector of finite components overflows
    to [+inf], [QM_normalize] returns zeros, not a unit vector: the length is
    [+inf], it passes the test [len != 0], and every component divided by it
    is a zero.  In dimension 4 and for quaternions, in both configurations. *)
Theorem normalize_overflow :
  (forall v : QMvec2, fin2 v = true -> Vec2.QM_dot v v = pinf ->
     Vec2.op_eq (Vec2.QM_normalize v) (Vec2.mk zero zero) = true) /\
  (forall v : QMvec3, fin3 v = true -> Vec3.QM_dot v v = pinf ->
     Vec3.op_eq (Vec3.QM_normalize v) (Vec3.mk zero zero zero) = true) /\
  (forall (sse : bool) (v : QMvec4), fin4 v = true -> Vec4.QM_dot sse v v = pinf ->
     Vec4.op_eq (Vec4.QM_normalize sse v) (Vec4.mk zero zero zero zero) = true) /\
  (forall (sse : bool) (q : QMquaternion), quat_fin q = true -> Quat.QM_dot sse q q = pinf ->
     Quat.op_eq (Quat.QM_normalize sse q) (Quat.mk zero zero zero zero) = true).
Proof.
  split; [| split; [| split]].
  - intros [x y]. unfold fin2, fin. cbn [Vec2.x Vec2.y]. rewrite !andb_true_iff.
    intros [[_ Fx] [_ Fy]] Hd.
    unfold Vec2.QM_normalize, Vec2.QM_length. rewrite Hd.
    change (QM_SQRTF pinf) with pinf. change (pinf != zero) with true. cbv iota zeta.
    unfold Vec2.op_div_scalar, Vec2.op_eq. cbn [Vec2.x Vec2.y].
    now rewrite !is_zero_eqb_zero by now apply div_pinf_zero.
  - intros [x y z]. unfold fin3, fin. cbn [Vec3.x Vec3.y Vec3.z]. rewrite !andb_true_iff.
    intros [[[_ Fx] [_ Fy]] [_ Fz]] Hd.
    unfold Vec3.QM_normalize, Vec3.QM_length. rewrite Hd.
    change (QM_SQRTF pinf) with pinf. change (pinf != zero) with true. cbv iota zeta.
    unfold Vec3.op_div_scalar, Vec3.op_eq. cbn [Vec3.x Vec3.y Vec3.z].
    now rewrite !is_zero_eqb_zero by now apply div_pinf_zero.
  - intros sse [x y z w]. unfold fin4, fin. cbn [Vec4.x Vec4.y Vec4.z Vec4.w].
    rewrite !andb_true_iff. intros [[[[_ Fx] [_ Fy]] [_ Fz]] [_ Fw]] Hd.
    unfold Vec4.QM_normalize, Vec4.QM_length. rewrite Hd.
    change (QM_SQRTF pinf) with pinf. cbv zeta.
    unfold Vec4.op_div_scalar, Vec4.op_eq. destruct sse; lanes;
      now rewrite !is_zero_eqb_zero by now apply div_pinf_zero.
  - intros sse [x y z w]. unfold quat_fin, fin. cbn [Quat.x Quat.y Quat.z Quat.w].
    rewrite !andb_true_iff. intros [[[[_ Fx] [_ Fy]] [_ Fz]] [_ Fw]] Hd.
    unfold Quat.QM_normalize, Quat.QM_length. rewrite Hd.
    change (QM_SQRTF pinf) with pinf. change (pinf != zero) with true. cbv iota zeta.
    unfold Quat.op_div_scalar, Quat.op_eq. destruct sse; lanes;
      now rewrite !is_zero_eqb_zero by now apply div_pinf_zero.
Qed.

(** The vectors [(2^100, 1, ...)]. *)
Lemma normalize_overflow_witness :
  Vec2.op_eq (Vec2.QM_normalize (Vec2.mk two_100 one)) (Vec2.mk zero zero) = true /\
  Vec3.op_eq (Vec3.QM_normalize (Vec3.mk two_100 one one)) (Vec3.mk zero zero zero) = true /\
  Vec4.op_eq (Vec4.QM_normalize true (Vec4.mk two_100 one one one))
             (Vec4.mk zero zero zero zero) = true /\
  Quat.op_eq (Quat.QM_normalize true (Quat.mk two_100 one one one))
             (Quat.mk zero zero zero zero) = true.
Proof.
  split; [| split; [| split]].
  - exact (proj1 normalize_overflow (Vec2.mk two_100 one) eq_refl eq_refl).
  - exact (proj1 (proj2 normalize_overflow) (Vec3.mk two_100 one one) eq_refl eq_refl).
  - exact (proj1 (proj2 (proj2 normalize_overflow)) true
             (Vec4.mk two_100 one one one) eq_refl eq_refl).
  - exact (proj2 (proj2 (proj2 normalize_overflow)) true
             (Quat.mk two_100 one one one) eq_refl eq_refl).
Defined.

(** ** Vectors: minimum, maximum, cross product *)

(** X8: no component of [QM_min(v1, v2)] is greater than the same component
    of [v1] or of [v2], and no component of [QM_max(v1, v2)] is less; in
    dimension 4 in both configurations, [_mm_min_ps] and [_mm_max_ps] being
    the macros lane by lane. *)
Theorem min_max_bounds :
  (forall v1 v2 : QMvec2,
     not_above2 (Vec2.QM_min v1 v2) v1 = true /\ not_above2 (Vec2.QM_min v1 v2) v2 = true /\
     not_above2 v1 (Vec2.QM_max v1 v2) = true /\ not_above2 v2 (Vec2.QM_max v1 v2) = true) /\
  (forall v1 v2 : QMvec3,
     not_above3 (Vec3.QM_min v1 v2) v1 = true /\ not_above3 (Vec3.QM_min v1 v2) v2 = true /\
     not_above3 v1 (Vec3.QM_max v1 v2) = true /\ not_above3 v2 (Vec3.QM_max v1 v2) = true) /\
  (forall (sse : bool) (v1 v2 : QMvec4),
     not_above4 (Vec4.QM_min sse v1 v2) v1 = true /\
     not_above4 (Vec4.QM_min sse v1 v2) v2 = true /\
     not_above4 v1 (Vec4.QM_max sse v1 v2) = true /\
     not_above4 v2 (Vec4.QM_max sse v1 v2) = true).
Proof.
  split; [| split].
  - intros [x1 y1] [x2 y2]. unfold not_above2, Vec2.QM_min, Vec2.QM_max.
    cbn [Vec2.x Vec2.y].
    destruct (QM_MIN_below x1 x2) as [-> ->], (QM_MIN_below y1 y2) as [-> ->],
      (QM_MAX_above x1 x2) as [-> ->], (QM_MAX_above y1 y2) as [-> ->].
    repeat split.
  - intros [x1 y1 z1] [x2 y2 z2]. unfold not_above3, Vec3.QM_min, Vec3.QM_max.
    cbn [Vec3.x Vec3.y Vec3.z].
    destruct (QM_MIN_below x1 x2) as [-> ->], (QM_MIN_below y1 y2) as [-> ->],
      (QM_MIN_below z1 z2) as [-> ->],
      (QM_MAX_above x1 x2) as [-> ->], (QM_MAX_above y1 y2) as [-> ->],
      (QM_MAX_above z1 z2) as [-> ->].
    repeat split.
  - intros sse [x1 y1 z1 w1] [x2 y2 z2 w2]. rewrite vec4_min_lanes, vec4_max_lanes.
    unfold not_above4. cbn [Vec4.x Vec4.y Vec4.z Vec4.w].
    destruct (QM_MIN_below x1 x2) as [-> ->], (QM_MIN_below y1 y2) as [-> ->],
      (QM_MIN_below z1 z2) as [-> ->], (QM_MIN_below w1 w2) as [-> ->],
      (QM_MAX_above x1 x2) as [-> ->], (QM_MAX_above y1 y2) as [-> ->],
      (QM_MAX_above z1 z2) as [-> ->], (QM_MAX_above w1 w2) as [-> ->].
    repeat split.
Qed.

(** X9: [QM_min] and [QM_max] have a NaN component exactly when their second
    operand has one: a NaN in the first operand is dropped (the comparison
    is false and the second operand's component is returned), a NaN in the
    second comes through. *)
Theorem min_max_nan :
  (forall v1 v2 : QMvec2,
     nan2 (Vec2.QM_min v1 v2) = nan2 v2 /\ nan2 (Vec2.QM_max v1 v2) = nan2 v2) /\
  (forall v1 v2 : QMvec3,
     nan3 (Vec3.QM_min v1 v2) = nan3 v2 /\ nan3 (Vec3.QM_max v1 v2) = nan3 v2) /\
  (forall (sse : bool) (v1 v2 : QMvec4),
     nan4 (Vec4.QM_min sse v1 v2) = nan4 v2 /\ nan4 (Vec4.QM_max sse v1 v2) = nan4 v2).
Proof.
  split; [| split].
  - intros [x1 y1] [x2 y2]. unfold nan2, Vec2.QM_min, Vec2.QM_max. cbn [Vec2.x Vec2.y].
    now rewrite !is_nan_QM_MIN, !is_nan_QM_MAX.
  - intros [x1 y1 z1] [x2 y2 z2]. unfold nan3, Vec3.QM_min, Vec3.QM_max.
    cbn [Vec3.x Vec3.y Vec3.z].
    now rewrite !is_nan_QM_MIN, !is_nan_QM_MAX.
  - intros sse [x1 y1 z1 w1] [x2 y2 z2 w2]. rewrite vec4_min_lanes, vec4_max_lanes.
    unfold nan4. cbn [Vec4.x Vec4.y Vec4.z Vec4.w].
    now rewrite !is_nan_QM_MIN, !is_nan_QM_MAX.
Qed.

(** X10: every component of [QM_cross(v, v)] is [+0] or a NaN, and the
    cross product of a vector with itself is the zero vector whenever the
    three products of its components are finite. *)
Theorem cross_self (v : QMvec3) :
  (zero_or_nan (Vec3.x (Vec3.QM_cross v v)) /\ zero_or_nan (Vec3.y (Vec3.QM_cross v v)) /\
   zero_or_nan (Vec3.z (Vec3.QM_cross v v))) /\
  (is_finite (Vec3.y v * Vec3.z v) = true -> is_finite (Vec3.z v * Vec3.x v) = true ->
   is_finite (Vec3.x v * Vec3.y v) = true -> Vec3.QM_cross v v = Vec3.mk zero zero zero).
Proof.
  destruct v as [x y z]. unfold Vec3.QM_cross. cbn [Vec3.x Vec3.y Vec3.z].
  rewrite (mul_comm z y), (mul_comm x z), (mul_comm y x).
  split.
  - repeat split; apply sub_self_cases.
  - intros H1 H2 H3. now rewrite (sub_self _ H1), (sub_self _ H2), (sub_self _ H3).
Qed.

(** The vector [(1, -2, 0.3)]. *)
Lemma cross_self_witness :
  Vec3.QM_cross (Vec3.mk (lit 1 1) (lit (-2) 1) (lit 3 10))
                (Vec3.mk (lit 1 1) (lit (-2) 1) (lit 3 10)) = Vec3.mk zero zero zero.
Proof.
  exact (proj2 (cross_self (Vec3.mk (lit 1 1) (lit (-2) 1) (lit 3 10)))
           eq_refl eq_refl eq_refl).
Defined.

(** X11: [QM_cross(v2, v1)] is [QM_cross(v1, v2)] with every component
    negated, except that a component which cancels exactly is [+0] in both. *)
Theorem cross_anticommutes (v1 v2 : QMvec3) :
  opp_or_zero (Vec3.x (Vec3.QM_cross v1 v2)) (Vec3.x (Vec3.QM_cross v2 v1)) /\
  opp_or_zero (Vec3.y (Vec3.QM_cross v1 v2)) (Vec3.y (Vec3.QM_cross v2 v1)) /\
  opp_or_zero (Vec3.z (Vec3.QM_cross v1 v2)) (Vec3.z (Vec3.QM_cross v2 v1)).
Proof.
  destruct v1 as [x1 y1 z1], v2 as [x2 y2 z2]. unfold Vec3.QM_cross, opp_or_zero.
  cbn [Vec3.x Vec3.y Vec3.z].
  rewrite (mul_comm y2 z1), (mul_comm z2 y1), (mul_comm z2 x1), (mul_comm x2 z1),
    (mul_comm x2 y1), (mul_comm y2 x1).
  repeat split; apply sub_swap.
Qed.

Section Absolute.

Lemma ltb_neg_zero (x : float) : ltb zero x = false -> ltb (- x) zero = false.
Proof. destruct x as [[] | [] | | [] m e]; intros H; try discriminate H; reflexivity. Qed.

Lemma is_nan_neg (x : float) : is_nan (- x) = is_nan x.
Proof. now destruct x. Qed.

End Absolute.

(** X12: the macro [QM_ABS] never returns a negative number ([QM_ABS(x) <
    0] is false), returns [x] or [-x], and a NaN exactly for a NaN; on a
    zero it flips the sign ([0 > 0] is false), so [QM_ABS(+0)] is [-0]. *)
Theorem abs_not_negative (x : float) :
  ltb (QM_ABS x) zero = false /\ is_nan (QM_ABS x) = is_nan x /\
  (QM_ABS x = x \/ QM_ABS x = - x) /\
  (is_zero x = true -> QM_ABS x = - x).
Proof.
  unfold QM_ABS. destruct (ltb zero x) eqn:E.
  - split; [now apply ltb_asym | split; [reflexivity | split; [now left |]]].
    intros Hz. destruct x; discriminate.
  - split; [now apply ltb_neg_zero | split; [apply is_nan_neg | split; [now right |]]].
    reflexivity.
Qed.

(** [QM_ABS(+0)] is [-0]. *)
Lemma abs_not_negative_witness : QM_ABS zero = nzero.
Proof. exact (proj2 (proj2 (proj2 (abs_not_negative zero))) eq_refl). Defined.

(** ** Matrices: products and transposes *)

Section MatrixLanes.

(** Both configurations of [operator*(QMmat4, QMvec4)], written out. *)
Lemma mat4_mul_vec_lanes (sse : bool) (a : QMmat4) (v : QMvec4) :
  Mat4.op_mul_vec sse a v =
  Vec4.mk
    (m a 0 0 * Vec4.x v + m a 1 0 * Vec4.y v + m a 2 0 * Vec4.z v + m a 3 0 * Vec4.w v)
    (m a 0 1 * Vec4.x v + m a 1 1 * Vec4.y v + m a 2 1 * Vec4.z v + m a 3 1 * Vec4.w v)
    (m a 0 2 * Vec4.x v + m a 1 2 * Vec4.y v + m a 2 2 * Vec4.z v + m a 3 2 * Vec4.w v)
    (m a 0 3 * Vec4.x v + m a 1 3 * Vec4.y v + m a 2 3 * Vec4.z v + m a 3 3 * Vec4.w v).
Proof.
  destruct sse; [| reflexivity].
  unfold Mat4.op_mul_vec. rewrite mult_column_sse_lanes.
  unfold Vec4.of_packed, Vec4.packed. cbn [f0 f1 f2 f3].
  repeat first [reflexivity | apply mul_comm | progress f_equal].
Qed.

(** Column [j] of a product is the left matrix times column [j] of the
    right one. *)
Lemma mat4_mul_by_columns (sse : bool) (m1 m2 : QMmat4) :
  Mat4.op_mul sse m1 m2 =
  Mat4.mk (Mat4.op_mul_vec sse m1 (v0 m2)) (Mat4.op_mul_vec sse m1 (v1 m2))
          (Mat4.op_mul_vec sse m1 (v2 m2)) (Mat4.op_mul_vec sse m1 (v3 m2)).
Proof.
  destruct sse; [reflexivity |].
  destruct m1 as [[a00 a01 a02 a03] [a10 a11 a12 a13] [a20 a21 a22 a23] [a30 a31 a32 a33]].
  destruct m2 as [[b00 b01 b02 b03] [b10 b11 b12 b13] [b20 b21 b22 b23] [b30 b31 b32 b33]].
  reflexivity.
Qed.

Lemma mat3_mul_by_columns (m1 m2 : Mat3.QMmat3) :
  Mat3.op_mul m1 m2 =
  Mat3.mk (Mat3.op_mul_vec m1 (Mat3.v0 m2)) (Mat3.op_mul_vec m1 (Mat3.v1 m2))
          (Mat3.op_mul_vec m1 (Mat3.v2 m2)).
Proof.
  destruct m1 as [[a00 a01 a02] [a10 a11 a12] [a20 a21 a22]].
  destruct m2 as [[b00 b01 b02] [b10 b11 b12] [b20 b21 b22]].
  reflexivity.
Qed.

(** Both configurations of [QM_transpose] on [QMmat4], written out. *)
Lemma mat4_transpose_lanes (sse : bool) (a : QMmat4) :
  Mat4.QM_transpose sse a =
  Mat4.mk (Vec4.mk (m a 0 0) (m a 1 0) (m a 2 0) (m a 3 0))
          (Vec4.mk (m a 0 1) (m a 1 1) (m a 2 1) (m a 3 1))
          (Vec4.mk (m a 0 2) (m a 1 2) (m a 2 2) (m a 3 2))
          (Vec4.mk (m a 0 3) (m a 1 3) (m a 2 3) (m a 3 3)).
Proof.
  destruct a as [[a00 a01 a02 a03] [a10 a11 a12 a13] [a20 a21 a22 a23] [a30 a31 a32 a33]].
  destruct sse; reflexivity.
Qed.

End MatrixLanes.

(** X13: [operator*(QMmat4, QMvec4)] gives the same four floats with and
    without SSE: [QM_mat4_mult_column_sse] multiplies and accumulates in the
    order of the scalar sums. *)
Theorem mat4_mul_vec_sse_is_scalar (a : QMmat4) (v : QMvec4) :
  Mat4.op_mul_vec true a v = Mat4.op_mul_vec false a v.
Proof.
  unfold Mat4.op_mul_vec. rewrite mult_column_sse_lanes.
  unfold Vec4.of_packed, Vec4.packed. cbn [f0 f1 f2 f3].
  repeat first [reflexivity | apply mul_comm | progress f_equal].
Qed.

(** X14: column [j] of the matrix product [m1 * m2] is the matrix-vector
    product of [m1] with column [j] of [m2], for 3x3 and for 4x4 matrices in
    both configurations. *)
Theorem mul_column_is_mul_vec :
  (forall (sse : bool) (m1 m2 : QMmat4) (j : nat),
     Mat4.v (Mat4.op_mul sse m1 m2) j = Mat4.op_mul_vec sse m1 (Mat4.v m2 j)) /\
  (forall (m1 m2 : Mat3.QMmat3) (j : nat),
     Mat3.v (Mat3.op_mul m1 m2) j = Mat3.op_mul_vec m1 (Mat3.v m2 j)).
Proof.
  split.
  - intros sse m1 m2 j. rewrite mat4_mul_by_columns.
    destruct j as [| [| [| j]]]; reflexivity.
  - intros m1 m2 j. rewrite mat3_mul_by_columns.
    destruct j as [| [| j]]; reflexivity.
Qed.

(** X15: [QM_transpose] with SSE ([_MM_TRANSPOSE4_PS]) is the scalar
    transpose; transposing twice gives the matrix back, for 3x3 and 4x4
    matrices; and [QM_top_left] of the transpose is the transpose of
    [QM_top_left]. *)
Theorem transpose_involutive :
  (forall a : QMmat4, Mat4.QM_transpose true a = Mat4.QM_transpose false a) /\
  (forall (sse sse' : bool) (a : QMmat4),
     Mat4.QM_transpose sse (Mat4.QM_transpose sse' a) = a) /\
  (forall a : Mat3.QMmat3, Mat3.QM_transpose (Mat3.QM_transpose a) = a) /\
  (forall (sse : bool) (a : QMmat4),
     Mat4.QM_top_left (Mat4.QM_transpose sse a) = Mat3.QM_transpose (Mat4.QM_top_left a)).
Proof.
  split; [| split; [| split]].
  - intros a. now rewrite !mat4_transpose_lanes.
  - intros sse sse' a. rewrite !mat4_transpose_lanes.
    destruct a as [[a00 a01 a02 a03] [a10 a11 a12 a13] [a20 a21 a22 a23] [a30 a31 a32 a33]].
    reflexivity.
  - intros [[a00 a01 a02] [a10 a11 a12] [a20 a21 a22]]. reflexivity.
  - intros sse a. rewrite mat4_transpose_lanes.
    destruct a as [[a00 a01 a02 a03] [a10 a11 a12 a13] [a20 a21 a22 a23] [a30 a31 a32 a33]].
    reflexivity.
Qed.

(** X16: the transpose of a product is the product of the transposes in
    the other order, float for float: the same products are accumulated in
    the same order.  For 3x3 and for 4x4 matrices in every configuration. *)
Theorem transpose_mul :
  (forall (sse sse' : bool) (a b : QMmat4),
     Mat4.QM_transpose sse (Mat4.op_mul sse' a b) =
     Mat4.op_mul sse' (Mat4.QM_transpose sse b) (Mat4.QM_transpose sse a)) /\
  (forall a b : Mat3.QMmat3,
     Mat3.QM_transpose (Mat3.op_mul a b) =
     Mat3.op_mul (Mat3.QM_transpose b) (Mat3.QM_transpose a)).
Proof.
  split.
  - intros sse sse' a b.
    rewrite !mat4_mul_by_columns, !mat4_transpose_lanes, !mat4_mul_vec_lanes.
    destruct a as [[a00 a01 a02 a03] [a10 a11 a12 a13] [a20 a21 a22 a23] [a30 a31 a32 a33]].
    destruct b as [[b00 b01 b02 b03] [b10 b11 b12 b13] [b20 b21 b22 b23] [b30 b31 b32 b33]].
    cbn [m v at4 v0 v1 v2 v3 Vec4.x Vec4.y Vec4.z Vec4.w].
    repeat first [reflexivity | apply mul_comm | progress f_equal].
  - intros [[a00 a01 a02] [a10 a11 a12] [a20 a21 a22]]
           [[b00 b01 b02] [b10 b11 b12] [b20 b21 b22]].
    unfold Mat3.QM_transpose, Mat3.op_mul.
    cbn [Mat3.m Mat3.v Mat3.at3 Mat3.set_m Mat3.set3 Mat3.default Vec3.default
         Mat3.v0 Mat3.v1 Mat3.v2 Vec3.x Vec3.y Vec3.z].
    repeat first [reflexivity | apply mul_comm | progress f_equal].
Qed.

(** ** Matrices applied to vectors: identity, translation, scaling *)

Section SameChains.

Lemma add_zero_r' (a z b : float) : is_zero z = true -> same a b -> same (a + z) b.
Proof. intros Hz S. apply (same_trans _ a); [now apply add_zero_r | exact S]. Qed.

Lemma add_zero_l' (z a b : float) : is_zero z = true -> same a b -> same (z + a) b.
Proof. intros Hz S. apply (same_trans _ a); [now apply add_zero_l | exact S]. Qed.

Lemma sub_zero_r' (a z b : float) : is_zero z = true -> same a b -> same (a - z) b.
Proof. intros Hz S. apply (same_trans _ a); [now apply sub_zero_r | exact S]. Qed.

Lemma same_eqb_r (a b : float) : same a b -> is_nan b = false -> (a == b) = true.
Proof. intros S N. rewrite eqb_sym. apply same_eqb; [now apply same_sym | exact N]. Qed.

Lemma fin_parts (a : float) :
  fin a = true -> valid a = true /\ is_finite a = true /\ is_nan a = false.
Proof.
  unfold fin. rewrite andb_true_iff. intros [V F]. repeat split; try assumption.
  now destruct a.
Qed.

Lemma add_fin_not_nan (a b : float) :
  is_finite a = true -> is_finite b = true -> is_nan (a + b) = false.
Proof.
  destruct a as [[] | [] | | sa ma ea], b as [[] | [] | | sb mb eb]; cbn [is_finite];
    intros Ha Hb; try discriminate; try reflexivity.
  unfold add, SFadd.
  match goal with |- is_nan (binary_normalize _ _ ?S _ _) = false =>
    destruct (Z.eq_dec S 0) as [-> | Hnz];
      [reflexivity | exact (proj2 (rounded_valid _ _ (binary_normalize_rounded S _ Hnz)))]
  end.
Qed.

Lemma mul_fin_not_nan (a b : float) :
  is_finite a = true -> is_finite b = true -> is_nan (a * b) = false.
Proof.
  destruct b as [sb | sb | | sb mb eb]; cbn [is_finite]; intros Ha Hb; try discriminate.
  - now destruct a.
  - apply mul_finite_not_nan. now destruct a.
Qed.

Lemma add_is_zero (a b : float) :
  is_zero a = true -> is_zero b = true -> is_zero (a + b) = true.
Proof. destruct a as [[] | | |], b as [[] | | |]; intros Ha Hb; try discriminate; reflexivity. Qed.

Lemma sub_is_zero (a b : float) :
  is_zero a = true -> is_zero b = true -> is_zero (a - b) = true.
Proof. destruct a as [[] | | |], b as [[] | | |]; intros Ha Hb; try discriminate; reflexivity. Qed.

Lemma neg_is_zero (a : float) : is_zero a = true -> is_zero (- a) = true.
Proof. destruct a; intros Ha; try discriminate; reflexivity. Qed.

End SameChains.

(** A term that is a zero: a zero literal, or a zero times a finite number. *)
Ltac is_zero_tac :=
  first [ reflexivity
        | assumption
        | apply mul_zero_l; [is_zero_tac | assumption]
        | apply mul_zero_r; [is_zero_tac | assumption]
        | apply add_is_zero; is_zero_tac
        | apply sub_is_zero; is_zero_tac
        | apply neg_is_zero; is_zero_tac ].

(** Drops the zero terms of a sum. *)
Ltac same_chain :=
  repeat first [ apply same_refl
               | apply is_zero_same; is_zero_tac
               | apply add_zero_r'; [is_zero_tac |]
               | apply add_zero_l'; [is_zero_tac |]
               | apply sub_zero_r'; [is_zero_tac |] ].

Section Transforms.

Lemma mat4_id_vec_same (sse : bool) (x y z w : float) :
  fin x = true -> fin y = true -> fin z = true -> fin w = true ->
  let r := Mat4.op_mul_vec sse QM_mat4_identity (Vec4.mk x y z w) in
  same (Vec4.x r) x /\ same (Vec4.y r) y /\ same (Vec4.z r) z /\ same (Vec4.w r) w.
Proof.
  intros Hx Hy Hz Hw.
  apply fin_parts in Hx as (Vx & Fx & Nx). apply fin_parts in Hy as (Vy & Fy & Ny).
  apply fin_parts in Hz as (Vz & Fz & Nz). apply fin_parts in Hw as (Vw & Fw & Nw).
  cbv zeta. rewrite mat4_mul_vec_lanes.
  cbn [m v at4 QM_mat4_identity v0 v1 v2 v3 Vec4.x Vec4.y Vec4.z Vec4.w].
  rewrite !mul_one_l by assumption.
  repeat split; same_chain.
Qed.

Lemma mat4_unit_vec_eq (sse : bool) (a : QMmat4) :
  fin_mat4 a = true ->
  let r0 := Mat4.op_mul_vec sse a (Vec4.mk one zero zero zero) in
  let r1 := Mat4.op_mul_vec sse a (Vec4.mk zero one zero zero) in
  let r2 := Mat4.op_mul_vec sse a (Vec4.mk zero zero one zero) in
  let r3 := Mat4.op_mul_vec sse a (Vec4.mk zero zero zero one) in
  Vec4.op_eq r0 (v0 a) = true /\ Vec4.op_eq r1 (v1 a) = true /\
  Vec4.op_eq r2 (v2 a) = true /\ Vec4.op_eq r3 (v3 a) = true.
Proof.
  destruct a as [[a00 a01 a02 a03] [a10 a11 a12 a13] [a20 a21 a22 a23] [a30 a31 a32 a33]].
  unfold fin_mat4, fin4. cbn [v0 v1 v2 v3 Vec4.x Vec4.y Vec4.z Vec4.w].
  rewrite !andb_true_iff.
  intros [[[[[[H00 H01] H02] H03] [[[H10 H11] H12] H13]] [[[H20 H21] H22] H23]]
          [[[H30 H31] H32] H33]].
  apply fin_parts in H00 as (V00 & F00 & N00). apply fin_parts in H01 as (V01 & F01 & N01).
  apply fin_parts in H02 as (V02 & F02 & N02). apply fin_parts in H03 as (V03 & F03 & N03).
  apply fin_parts in H10 as (V10 & F10 & N10). apply fin_parts in H11 as (V11 & F11 & N11).
  apply fin_parts in H12 as (V12 & F12 & N12). apply fin_parts in H13 as (V13 & F13 & N13).
  apply fin_parts in H20 as (V20 & F20 & N20). apply fin_parts in H21 as (V21 & F21 & N21).
  apply fin_parts in H22 as (V22 & F22 & N22). apply fin_parts in H23 as (V23 & F23 & N23).
  apply fin_parts in H30 as (V30 & F30 & N30). apply fin_parts in H31 as (V31 & F31 & N31).
  apply fin_parts in H32 as (V32 & F32 & N32). apply fin_parts in H33 as (V33 & F33 & N33).
  cbv zeta. rewrite !mat4_mul_vec_lanes. unfold Vec4.op_eq.
  cbn [m v at4 v0 v1 v2 v3 Vec4.x Vec4.y Vec4.z Vec4.w].
  rewrite !mul_one_r by assumption.
  rewrite !andb_true_iff.
  repeat split; (apply same_eqb_r; [same_chain | assumption]).
Qed.

End Transforms.

Section IdentityVec.

Lemma mat4_id_vec_eq (sse : bool) (c : QMvec4) :
  fin4 c = true -> Vec4.op_eq (Mat4.op_mul_vec sse QM_mat4_identity c) c = true.
Proof.
  destruct c as [x y z w]. unfold fin4. cbn [Vec4.x Vec4.y Vec4.z Vec4.w].
  rewrite !andb_true_iff. intros [[[Hx Hy] Hz] Hw].
  pose proof (mat4_id_vec_same sse x y z w Hx Hy Hz Hw) as (Sx & Sy & Sz & Sw).
  cbv zeta in Sx, Sy, Sz, Sw.
  apply fin_parts in Hx as (_ & _ & Nx). apply fin_parts in Hy as (_ & _ & Ny).
  apply fin_parts in Hz as (_ & _ & Nz). apply fin_parts in Hw as (_ & _ & Nw).
  unfold Vec4.op_eq. cbn [Vec4.x Vec4.y Vec4.z Vec4.w] in *.
  now rewrite (same_eqb_r _ _ Sx Nx), (same_eqb_r _ _ Sy Ny), (same_eqb_r _ _ Sz Nz),
    (same_eqb_r _ _ Sw Nw).
Qed.

End IdentityVec.

(** X17: the identity matrix times a vector of finite components compares
    equal to the vector ([-0] comes back as [+0]), for 3x3 and for 4x4
    matrices in both configurations. *)
Theorem identity_mul_vec :
  (forall (sse : bool) (v : QMvec4), fin4 v = true ->
     Vec4.op_eq (Mat4.op_mul_vec sse QM_mat4_identity v) v = true) /\
  (forall v : QMvec3, fin3 v = true ->
     Vec3.op_eq (Mat3.op_mul_vec Mat3.QM_mat3_identity v) v = true).
Proof.
  split.
  - intros sse v. apply mat4_id_vec_eq.
  - intros [x y z]. unfold fin3. cbn [Vec3.x Vec3.y Vec3.z].
    rewrite !andb_true_iff. intros [[Hx Hy] Hz].
    apply fin_parts in Hx as (Vx & Fx & Nx). apply fin_parts in Hy as (Vy & Fy & Ny).
    apply fin_parts in Hz as (Vz & Fz & Nz).
    unfold Mat3.op_mul_vec, Vec3.op_eq.
    cbn [Mat3.m Mat3.v Mat3.at3 Mat3.QM_mat3_identity Mat3.v0 Mat3.v1 Mat3.v2
         Vec3.x Vec3.y Vec3.z].
    rewrite !mul_one_l by assumption.
    rewrite !andb_true_iff.
    repeat split; (apply same_eqb_r; [same_chain | assumption]).
Qed.

(** The vectors [(1, -2, 0.3, -0)] and [(1, -0, 0.3)]. *)
Lemma identity_mul_vec_witness :
  Vec4.op_eq (Mat4.op_mul_vec true QM_mat4_identity
                (Vec4.mk (lit 1 1) (lit (-2) 1) (lit 3 10) nzero))
             (Vec4.mk (lit 1 1) (lit (-2) 1) (lit 3 10) nzero) = true /\
  Vec3.op_eq (Mat3.op_mul_vec Mat3.QM_mat3_identity (Vec3.mk (lit 1 1) nzero (lit 3 10)))
             (Vec3.mk (lit 1 1) nzero (lit 3 10)) = true.
Proof.
  split.
  - exact (proj1 identity_mul_vec true
             (Vec4.mk (lit 1 1) (lit (-2) 1) (lit 3 10) nzero) eq_refl).
  - exact (proj2 identity_mul_vec (Vec3.mk (lit 1 1) nzero (lit 3 10)) eq_refl).
Defined.

(** X18: the identity is neutral for the 4x4 product on both sides, up to
    [==]: for a matrix [a] of finite entries, [identity * a] and
    [a * identity] compare equal to [a] entry by entry, in both
    configurations. *)
Theorem mat4_identity_mul (sse : bool) (a : QMmat4) :
  fin_mat4 a = true ->
  mat4_eq (Mat4.op_mul sse QM_mat4_identity a) a = true /\
  mat4_eq (Mat4.op_mul sse a QM_mat4_identity) a = true.
Proof.
  intros Ha. unfold mat4_eq. rewrite !mat4_mul_by_columns. cbn [v0 v1 v2 v3].
  split.
  - revert Ha. unfold fin_mat4. rewrite !andb_true_iff. intros [[[H0 H1] H2] H3].
    now rewrite !mat4_id_vec_eq.
  - pose proof (mat4_unit_vec_eq sse a Ha) as (E0 & E1 & E2 & E3).
    cbv zeta in E0, E1, E2, E3.
    change (v0 QM_mat4_identity) with (Vec4.mk one zero zero zero).
    change (v1 QM_mat4_identity) with (Vec4.mk zero one zero zero).
    change (v2 QM_mat4_identity) with (Vec4.mk zero zero one zero).
    change (v3 QM_mat4_identity) with (Vec4.mk zero zero zero one).
    now rewrite E0, E1, E2, E3.
Qed.

(** A matrix of finite entries, with negative zeros. *)
Lemma mat4_identity_mul_witness :
  let a := Mat4.mk (Vec4.mk (lit 1 1) (lit (-2) 1) (lit 3 10) nzero)
                   (Vec4.mk nzero (lit 5 1) zero (lit 1 3))
                   (Vec4.mk (lit 7 1) nzero (lit (-1) 7) one)
                   (Vec4.mk zero zero nzero (lit 9 1)) in
  mat4_eq (Mat4.op_mul true QM_mat4_identity a) a = true /\
  mat4_eq (Mat4.op_mul true a QM_mat4_identity) a = true.
Proof.
  cbv zeta.
  exact (mat4_identity_mul true
           (Mat4.mk (Vec4.mk (lit 1 1) (lit (-2) 1) (lit 3 10) nzero)
                    (Vec4.mk nzero (lit 5 1) zero (lit 1 3))
                    (Vec4.mk (lit 7 1) nzero (lit (-1) 7) one)
                    (Vec4.mk zero zero nzero (lit 9 1))) eq_refl).
Defined.

(** A float that is not a NaN: a finite one, or a sum or product of finite
    ones. *)
Ltac not_nan_tac :=
  first [ assumption
        | reflexivity
        | apply add_fin_not_nan; assumption
        | apply mul_fin_not_nan; assumption ].

(** X19: [QM_translate(t)] moves a point and leaves a direction alone: for
    finite [t] and [p], [QM_translate(t) * (p, 1)] compares equal to
    [(p + t, 1)] and [QM_translate(t) * (p, 0)] to [(p, 0)], in both
    configurations; and the same for the 3x3 [QM_translate] on [QMvec2]. *)
Theorem translate_point :
  (forall (sse : bool) (t p : QMvec3), fin3 t = true -> fin3 p = true ->
     Vec4.op_eq
       (Mat4.op_mul_vec sse (Mat4.QM_translate t)
          (Vec4.mk (Vec3.x p) (Vec3.y p) (Vec3.z p) one))
       (Vec4.mk (Vec3.x (Vec3.op_add p t)) (Vec3.y (Vec3.op_add p t))
                (Vec3.z (Vec3.op_add p t)) one) = true /\
     Vec4.op_eq
       (Mat4.op_mul_vec sse (Mat4.QM_translate t)
          (Vec4.mk (Vec3.x p) (Vec3.y p) (Vec3.z p) zero))
       (Vec4.mk (Vec3.x p) (Vec3.y p) (Vec3.z p) zero) = true) /\
  (forall t p : QMvec2, fin2 t = true -> fin2 p = true ->
     Vec3.op_eq
       (Mat3.op_mul_vec (Mat3.QM_translate t) (Vec3.mk (Vec2.x p) (Vec2.y p) one))
       (Vec3.mk (Vec2.x (Vec2.op_add p t)) (Vec2.y (Vec2.op_add p t)) one) = true /\
     Vec3.op_eq
       (Mat3.op_mul_vec (Mat3.QM_translate t) (Vec3.mk (Vec2.x p) (Vec2.y p) zero))
       (Vec3.mk (Vec2.x p) (Vec2.y p) zero) = true).
Proof.
  split.
  - intros sse [tx ty tz] [px py pz]. unfold fin3. cbn [Vec3.x Vec3.y Vec3.z].
    rewrite !andb_true_iff. intros [[Htx Hty] Htz] [[Hpx Hpy] Hpz].
    apply fin_parts in Htx as (Vtx & Ftx & Ntx). apply fin_parts in Hty as (Vty & Fty & Nty).
    apply fin_parts in Htz as (Vtz & Ftz & Ntz). apply fin_parts in Hpx as (Vpx & Fpx & Npx).
    apply fin_parts in Hpy as (Vpy & Fpy & Npy). apply fin_parts in Hpz as (Vpz & Fpz & Npz).
    rewrite !mat4_mul_vec_lanes. unfold Mat4.QM_translate, Vec4.op_eq, Vec3.op_add.
    cbv zeta.
    cbn [m v at4 set_m set4 QM_mat4_identity v0 v1 v2 v3 Vec4.x Vec4.y Vec4.z Vec4.w
         Vec3.x Vec3.y Vec3.z].
    rewrite !mul_one_l, !mul_one_r by first [assumption | reflexivity].
    rewrite !andb_true_iff.
    repeat split;
      (apply same_eqb_r;
       [first [apply add_same; [same_chain | apply same_refl] | same_chain] | not_nan_tac]).
  - intros [tx ty] [px py]. unfold fin2. cbn [Vec2.x Vec2.y].
    rewrite !andb_true_iff. intros [Htx Hty] [Hpx Hpy].
    apply fin_parts in Htx as (Vtx & Ftx & Ntx). apply fin_parts in Hty as (Vty & Fty & Nty).
    apply fin_parts in Hpx as (Vpx & Fpx & Npx). apply fin_parts in Hpy as (Vpy & Fpy & Npy).
    unfold Mat3.op_mul_vec, Mat3.QM_translate, Vec3.op_eq, Vec2.op_add. cbv zeta.
    cbn [Mat3.m Mat3.v Mat3.at3 Mat3.set_m Mat3.set3 Mat3.QM_mat3_identity
         Mat3.v0 Mat3.v1 Mat3.v2 Vec3.x Vec3.y Vec3.z Vec2.x Vec2.y].
    rewrite !mul_one_l, !mul_one_r by first [assumption | reflexivity].
    rewrite !andb_true_iff.
    repeat split;
      (apply same_eqb_r;
       [first [apply add_same; [same_chain | apply same_refl] | same_chain] | not_nan_tac]).
Qed.

(** The translation by [(1, 2, 3)] at the point [(0.3, -0, 5)], and by
    [(1, 2)] at [(0.3, -0)]. *)
Lemma translate_point_witness :
  Vec4.op_eq
    (Mat4.op_mul_vec true (Mat4.QM_translate (Vec3.mk (lit 1 1) (lit 2 1) (lit 3 1)))
       (Vec4.mk (lit 3 10) nzero (lit 5 1) one))
    (Vec4.mk (lit 3 10 + lit 1 1) (nzero + lit 2 1) (lit 5 1 + lit 3 1) one) = true /\
  Vec3.op_eq
    (Mat3.op_mul_vec (Mat3.QM_translate (Vec2.mk (lit 1 1) (lit 2 1)))
       (Vec3.mk (lit 3 10) nzero one))
    (Vec3.mk (lit 3 10 + lit 1 1) (nzero + lit 2 1) one) = true.
Proof.
  split.
  - exact (proj1 (proj1 translate_point true (Vec3.mk (lit 1 1) (lit 2 1) (lit 3 1))
                    (Vec3.mk (lit 3 10) nzero (lit 5 1)) eq_refl eq_refl)).
  - exact (proj1 (proj2 translate_point (Vec2.mk (lit 1 1) (lit 2 1))
                    (Vec2.mk (lit 3 10) nzero) eq_refl eq_refl)).
Defined.

(** X20: [QM_scale(s)] multiplies component by component: for finite [s]
    and [v], [QM_scale(s) * v] compares equal to [(s.x v.x, s.y v.y, s.z v.z,
    v.w)], in both configurations; and the same for the 3x3 [QM_scale] on
    [QMvec2]. *)
Theorem scale_vec :
  (forall (sse : bool) (s : QMvec3) (v : QMvec4), fin3 s = true -> fin4 v = true ->
     Vec4.op_eq (Mat4.op_mul_vec sse (Mat4.QM_scale s) v)
       (Vec4.mk (Vec3.x s * Vec4.x v) (Vec3.y s * Vec4.y v) (Vec3.z s * Vec4.z v)
                (Vec4.w v)) = true) /\
  (forall (s : QMvec2) (v : QMvec3), fin2 s = true -> fin3 v = true ->
     Vec3.op_eq (Mat3.op_mul_vec (Mat3.QM_scale s) v)
       (Vec3.mk (Vec2.x s * Vec3.x v) (Vec2.y s * Vec3.y v) (Vec3.z v)) = true).
Proof.
  split.
  - intros sse [sx sy sz] [x y z w]. unfold fin3, fin4.
    cbn [Vec3.x Vec3.y Vec3.z Vec4.x Vec4.y Vec4.z Vec4.w].
    rewrite !andb_true_iff. intros [[Hsx Hsy] Hsz] [[[Hx Hy] Hz] Hw].
    apply fin_parts in Hsx as (Vsx & Fsx & Nsx). apply fin_parts in Hsy as (Vsy & Fsy & Nsy).
    apply fin_parts in Hsz as (Vsz & Fsz & Nsz).
    apply fin_parts in Hx as (Vx & Fx & Nx). apply fin_parts in Hy as (Vy & Fy & Ny).
    apply fin_parts in Hz as (Vz & Fz & Nz). apply fin_parts in Hw as (Vw & Fw & Nw).
    rewrite !mat4_mul_vec_lanes. unfold Mat4.QM_scale, Vec4.op_eq. cbv zeta.
    cbn [m v at4 set_m set4 QM_mat4_identity v0 v1 v2 v3 Vec4.x Vec4.y Vec4.z Vec4.w].
    rewrite !mul_one_l by assumption.
    rewrite !andb_true_iff.
    repeat split; (apply same_eqb_r; [same_chain | not_nan_tac]).
  - intros [sx sy] [x y z]. unfold fin2, fin3. cbn [Vec2.x Vec2.y Vec3.x Vec3.y Vec3.z].
    rewrite !andb_true_iff. intros [Hsx Hsy] [[Hx Hy] Hz].
    apply fin_parts in Hsx as (Vsx & Fsx & Nsx). apply fin_parts in Hsy as (Vsy & Fsy & Nsy).
    apply fin_parts in Hx as (Vx & Fx & Nx). apply fin_parts in Hy as (Vy & Fy & Ny).
    apply fin_parts in Hz as (Vz & Fz & Nz).
    unfold Mat3.op_mul_vec, Mat3.QM_scale, Vec3.op_eq. cbv zeta.
    cbn [Mat3.m Mat3.v Mat3.at3 Mat3.set_m Mat3.set3 Mat3.QM_mat3_identity
         Mat3.v0 Mat3.v1 Mat3.v2 Vec3.x Vec3.y Vec3.z].
    rewrite !mul_one_l by assumption.
    rewrite !andb_true_iff.
    repeat split; (apply same_eqb_r; [same_chain | not_nan_tac]).
Qed.

(** Scaling by [(2, -3, 0.5)] the vector [(0.3, -0, 5, 1)], and by
    [(2, -3)] the vector [(0.3, -0, 1)]. *)
Lemma scale_vec_witness :
  Vec4.op_eq
    (Mat4.op_mul_vec true (Mat4.QM_scale (Vec3.mk (lit 2 1) (lit (-3) 1) (lit 1 2)))
       (Vec4.mk (lit 3 10) nzero (lit 5 1) one))
    (Vec4.mk (lit 2 1 * lit 3 10) (lit (-3) 1 * nzero) (lit 1 2 * lit 5 1) one) = true /\
  Vec3.op_eq
    (Mat3.op_mul_vec (Mat3.QM_scale (Vec2.mk (lit 2 1) (lit (-3) 1)))
       (Vec3.mk (lit 3 10) nzero one))
    (Vec3.mk (lit 2 1 * lit 3 10) (lit (-3) 1 * nzero) one) = true.
Proof.
  split.
  - exact (proj1 scale_vec true (Vec3.mk (lit 2 1) (lit (-3) 1) (lit 1 2))
             (Vec4.mk (lit 3 10) nzero (lit 5 1) one) eq_refl eq_refl).
  - exact (proj2 scale_vec (Vec2.mk (lit 2 1) (lit (-3) 1))
             (Vec3.mk (lit 3 10) nzero one) eq_refl eq_refl).
Defined.

(** ** Matrix inverse *)

Section Inverse.

Lemma div_one_zero (d : float) :
  (d == zero) = true -> exists s : bool, one / d = S754_infinity s.
Proof.
  intros H. apply eqb_zero_is_zero in H. destruct d as [s | | |]; try discriminate.
  exists s. reflexivity.
Qed.

Lemma mul_inf_not_finite (c : float) (s : bool) : is_finite (c * S754_infinity s) = false.
Proof. destruct c; reflexivity. Qed.

(** Both configurations scale every cofactor by [1 / det]. *)
Lemma mat4_inverse_lanes (sse : bool) (a : QMmat4) :
  Mat4.QM_inverse sse a =
  let c := Mat4.inverse_cofactors a in
  let det := one / Mat4.inverse_det a in
  Mat4.mk (Vec4.mk (m c 0 0 * det) (m c 0 1 * det) (m c 0 2 * det) (m c 0 3 * det))
          (Vec4.mk (m c 1 0 * det) (m c 1 1 * det) (m c 1 2 * det) (m c 1 3 * det))
          (Vec4.mk (m c 2 0 * det) (m c 2 1 * det) (m c 2 2 * det) (m c 2 3 * det))
          (Vec4.mk (m c 3 0 * det) (m c 3 1 * det) (m c 3 2 * det) (m c 3 3 * det)).
Proof.
  unfold Mat4.QM_inverse. cbv zeta.
  generalize (one / Mat4.inverse_det a). generalize (Mat4.inverse_cofactors a).
  intros [[c00 c01 c02 c03] [c10 c11 c12 c13] [c20 c21 c22 c23] [c30 c31 c32 c33]] det.
  destruct sse; reflexivity.
Qed.

Lemma mat3_inverse_lanes (a : Mat3.QMmat3) :
  exists c : Mat3.QMmat3,
    let det := one / Mat3.inverse_det a in
    Mat3.QM_inverse a =
    Mat3.mk (Vec3.mk (Mat3.m c 0 0 * det) (Mat3.m c 0 1 * det) (Mat3.m c 0 2 * det))
            (Vec3.mk (Mat3.m c 1 0 * det) (Mat3.m c 1 1 * det) (Mat3.m c 1 2 * det))
            (Vec3.mk (Mat3.m c 2 0 * det) (Mat3.m c 2 1 * det) (Mat3.m c 2 2 * det)).
Proof.
  destruct a as [[a b c] [d e f] [g h i]].
  exists (Mat3.mk (Vec3.mk (e * i - f * h) (- (b * i - h * c)) (b * f - e * c))
                  (Vec3.mk (- (d * i - g * f)) (a * i - c * g) (- (a * f - d * c)))
                  (Vec3.mk (d * h - g * e) (- (a * h - g * b)) (a * e - b * d))).
  reflexivity.
Qed.

End Inverse.

(** X21: [QM_inverse] of a matrix whose determinant (as the function sums
    it) compares equal to zero has no finite entry: the reciprocal is an
    infinity and every cofactor times it is an infinity or a NaN.  For 3x3
    and for 4x4 matrices in both configurations; nothing tests the
    determinant. *)
Theorem inverse_singular :
  (forall (sse : bool) (a : QMmat4) (i j : nat), (Mat4.inverse_det a == zero) = true ->
     is_finite (m (Mat4.QM_inverse sse a) i j) = false) /\
  (forall (a : Mat3.QMmat3) (i j : nat), (Mat3.inverse_det a == zero) = true ->
     is_finite (Mat3.m (Mat3.QM_inverse a) i j) = false).
Proof.
  split.
  - intros sse a i j H. rewrite mat4_inverse_lanes. cbv zeta.
    destruct (div_one_zero _ H) as [s ->].
    destruct i as [| [| [| i]]], j as [| [| [| j]]];
      cbn [m v at4 v0 v1 v2 v3 Vec4.x Vec4.y Vec4.z Vec4.w]; apply mul_inf_not_finite.
  - intros a i j H. destruct (mat3_inverse_lanes a) as [c E]. cbv zeta in E. rewrite E.
    destruct (div_one_zero _ H) as [s ->].
    destruct i as [| [| i]], j as [| [| j]];
      cbn [Mat3.m Mat3.v Mat3.at3 Mat3.v0 Mat3.v1 Mat3.v2 Vec3.x Vec3.y Vec3.z];
      apply mul_inf_not_finite.
Qed.

(** The matrices whose entries are all [1]. *)
Lemma inverse_singular_witness :
  is_finite (m (Mat4.QM_inverse true
                  (Mat4.mk (Vec4.mk one one one one) (Vec4.mk one one one one)
                           (Vec4.mk one one one one) (Vec4.mk one one one one))) 1 2) = false /\
  is_finite (Mat3.m (Mat3.QM_inverse
                       (Mat3.mk (Vec3.mk one one one) (Vec3.mk one one one)
                                (Vec3.mk one one one))) 1 2) = false.
Proof.
  split.
  - apply (proj1 inverse_singular true
             (Mat4.mk (Vec4.mk one one one one) (Vec4.mk one one one one)
                      (Vec4.mk one one one one) (Vec4.mk one one one one)) 1%nat 2%nat).
    vm_compute. reflexivity.
  - apply (proj2 inverse_singular
             (Mat3.mk (Vec3.mk one one one) (Vec3.mk one one one) (Vec3.mk one one one))
             1%nat 2%nat).
    vm_compute. reflexivity.
Defined.

(** ** Quaternions *)

(** X22: [QM_quaternion_from_euler] gives the same four floats with and
    without SSE, on every host: the shuffles and [_mm_addsub_ps] build
    exactly the four scalar expressions. *)
Theorem from_euler_sse_is_scalar (H : CRT) (angles : QMvec3) :
  Quat.QM_quaternion_from_euler true angles = Quat.QM_quaternion_from_euler false angles.
Proof.
  unfold Quat.QM_quaternion_from_euler. cbv zeta. cbn [Vec3.x Vec3.y Vec3.z].
  generalize (QM_SINF (QM_deg_to_rad (Vec3.x angles * lit_0_5))).
  generalize (QM_COSF (QM_deg_to_rad (Vec3.x angles * lit_0_5))).
  generalize (QM_SINF (QM_deg_to_rad (Vec3.y angles * lit_0_5))).
  generalize (QM_COSF (QM_deg_to_rad (Vec3.y angles * lit_0_5))).
  generalize (QM_SINF (QM_deg_to_rad (Vec3.z angles * lit_0_5))).
  generalize (QM_COSF (QM_deg_to_rad (Vec3.z angles * lit_0_5))).
  intros cosz sinz cosy siny cosx sinx. reflexivity.
Qed.

(** X23: the matrix of the conjugate is the transpose of the matrix of the
    quaternion, and [q] and [-q] have the same matrix, float for float and
    for every [q]. *)
Theorem to_mat4_conjugate (sse : bool) (q : QMquaternion) :
  Quat.QM_quaternion_to_mat4 (QM_conjugate q) =
    Mat4.QM_transpose sse (Quat.QM_quaternion_to_mat4 q) /\
  Quat.QM_quaternion_to_mat4 (Quat.mk (- Quat.x q) (- Quat.y q) (- Quat.z q) (- Quat.w q)) =
    Quat.QM_quaternion_to_mat4 q.
Proof.
  rewrite mat4_transpose_lanes. destruct q as [x y z w].
  unfold Quat.QM_quaternion_to_mat4, QM_conjugate. cbv zeta.
  cbn [m v at4 set_m set4 QM_mat4_identity v0 v1 v2 v3 Vec4.x Vec4.y Vec4.z Vec4.w
       Quat.x Quat.y Quat.z Quat.w].
  rewrite !add_self_neg, !mul_neg_l, !mul_neg_r, !neg_involutive, !sub_neg_r, !add_neg_r.
  split; reflexivity.
Qed.

(** X24: the identity quaternion is neutral for the product on both sides,
    up to [==]: for [q] of finite components, [q * identity] and
    [identity * q] compare equal to [q], in both configurations. *)
Theorem quat_mul_identity (sse : bool) (q : QMquaternion) :
  quat_fin q = true ->
  Quat.op_eq (Quat.op_mul sse q QM_quaternion_identity) q = true /\
  Quat.op_eq (Quat.op_mul sse QM_quaternion_identity q) q = true.
Proof.
  intros Hq.
  assert (Vq : quat_valid q = true).
  { revert Hq. unfold quat_fin, quat_valid, fin. rewrite !andb_true_iff. tauto. }
  assert (E1 : Quat.op_mul sse q QM_quaternion_identity =
               Quat.op_mul false q QM_quaternion_identity)
    by (destruct sse; [now apply quat_mul_sse_eq_scalar | reflexivity]).
  assert (E2 : Quat.op_mul sse QM_quaternion_identity q =
               Quat.op_mul false QM_quaternion_identity q)
    by (destruct sse; [now apply quat_mul_sse_eq_scalar | reflexivity]).
  rewrite E1, E2. clear E1 E2 Vq.
  destruct q as [x y z w]. revert Hq. unfold quat_fin. cbn [Quat.x Quat.y Quat.z Quat.w].
  rewrite !andb_true_iff. intros [[[Hx Hy] Hz] Hw].
  apply fin_parts in Hx as (Vx & Fx & Nx). apply fin_parts in Hy as (Vy & Fy & Ny).
  apply fin_parts in Hz as (Vz & Fz & Nz). apply fin_parts in Hw as (Vw & Fw & Nw).
  unfold Quat.op_mul, Quat.op_eq, QM_quaternion_identity.
  cbn [Quat.x Quat.y Quat.z Quat.w].
  rewrite !mul_one_l, !mul_one_r by assumption.
  rewrite !andb_true_iff.
  repeat split; (apply same_eqb_r; [same_chain | assumption]).
Qed.

(** A quaternion with a negative zero. *)
Lemma quat_mul_identity_witness :
  Quat.op_eq (Quat.op_mul true (Quat.mk (lit 1 1) nzero (lit 3 10) (lit (-4) 1))
                QM_quaternion_identity)
             (Quat.mk (lit 1 1) nzero (lit 3 10) (lit (-4) 1)) = true /\
  Quat.op_eq (Quat.op_mul true QM_quaternion_identity
                (Quat.mk (lit 1 1) nzero (lit 3 10) (lit (-4) 1)))
             (Quat.mk (lit 1 1) nzero (lit 3 10) (lit (-4) 1)) = true.
Proof.
  exact (quat_mul_identity true (Quat.mk (lit 1 1) nzero (lit 3 10) (lit (-4) 1)) eq_refl).
Defined.

(** ** Matrix sums, rotations, projections *)

Section MatrixSums.

Lemma mat4_add_lanes (sse : bool) (a b : QMmat4) :
  Mat4.op_add sse a b =
  Mat4.mk (Vec4.op_add false (v0 a) (v0 b)) (Vec4.op_add false (v1 a) (v1 b))
          (Vec4.op_add false (v2 a) (v2 b)) (Vec4.op_add false (v3 a) (v3 b)).
Proof.
  destruct a as [[a00 a01 a02 a03] [a10 a11 a12 a13] [a20 a21 a22 a23] [a30 a31 a32 a33]].
  destruct b as [[b00 b01 b02 b03] [b10 b11 b12 b13] [b20 b21 b22 b23] [b30 b31 b32 b33]].
  destruct sse; reflexivity.
Qed.

Lemma mat4_sub_lanes (sse : bool) (a b : QMmat4) :
  Mat4.op_sub sse a b =
  Mat4.mk (Vec4.op_sub false (v0 a) (v0 b)) (Vec4.op_sub false (v1 a) (v1 b))
          (Vec4.op_sub false (v2 a) (v2 b)) (Vec4.op_sub false (v3 a) (v3 b)).
Proof.
  destruct a as [[a00 a01 a02 a03] [a10 a11 a12 a13] [a20 a21 a22 a23] [a30 a31 a32 a33]].
  destruct b as [[b00 b01 b02 b03] [b10 b11 b12 b13] [b20 b21 b22 b23] [b30 b31 b32 b33]].
  destruct sse; reflexivity.
Qed.

End MatrixSums.

(** X25: matrix [operator+] does not depend on the order of its operands,
    and [QM_transpose] distributes over [operator+] and [operator-], float
    for float; for 3x3 and for 4x4 matrices in every configuration. *)
Theorem mat_add_transpose :
  (forall (sse sse' : bool) (a b : QMmat4),
     Mat4.op_add sse a b = Mat4.op_add sse b a /\
     Mat4.QM_transpose sse' (Mat4.op_add sse a b) =
       Mat4.op_add sse (Mat4.QM_transpose sse' a) (Mat4.QM_transpose sse' b) /\
     Mat4.QM_transpose sse' (Mat4.op_sub sse a b) =
       Mat4.op_sub sse (Mat4.QM_transpose sse' a) (Mat4.QM_transpose sse' b)) /\
  (forall a b : Mat3.QMmat3,
     Mat3.op_add a b = Mat3.op_add b a /\
     Mat3.QM_transpose (Mat3.op_add a b) =
       Mat3.op_add (Mat3.QM_transpose a) (Mat3.QM_transpose b) /\
     Mat3.QM_transpose (Mat3.op_sub a b) =
       Mat3.op_sub (Mat3.QM_transpose a) (Mat3.QM_transpose b)).
Proof.
  split.
  - intros sse sse' a b.
    rewrite !mat4_add_lanes, !mat4_sub_lanes, !mat4_transpose_lanes.
    destruct a as [[a00 a01 a02 a03] [a10 a11 a12 a13] [a20 a21 a22 a23] [a30 a31 a32 a33]].
    destruct b as [[b00 b01 b02 b03] [b10 b11 b12 b13] [b20 b21 b22 b23] [b30 b31 b32 b33]].
    unfold Vec4.op_add, Vec4.op_sub.
    cbn [m v at4 v0 v1 v2 v3 Vec4.x Vec4.y Vec4.z Vec4.w].
    split; [| split; reflexivity].
    repeat first [reflexivity | apply add_comm | progress f_equal].
  - intros [[a00 a01 a02] [a10 a11 a12] [a20 a21 a22]]
           [[b00 b01 b02] [b10 b11 b12] [b20 b21 b22]].
    unfold Mat3.op_add, Mat3.op_sub, Mat3.QM_transpose.
    cbn [Mat3.m Mat3.v Mat3.at3 Mat3.set_m Mat3.set3 Mat3.default Vec3.default
         Mat3.v0 Mat3.v1 Mat3.v2 Vec3.x Vec3.y Vec3.z].
    split; [| split; reflexivity].
    repeat first [reflexivity | apply add_comm | progress f_equal].
Qed.

Section Degenerate.

Lemma div_zero_not_finite (a d : float) : is_zero d = true -> is_finite (a / d) = false.
Proof.
  destruct d as [sd | | |]; try discriminate. intros _. now destruct a.
Qed.

Lemma sub_eqb_is_zero (a b : float) :
  is_finite a = true -> (a == b) = true -> is_zero (a - b) = true /\ is_zero (b - a) = true.
Proof.
  intros Fa E. apply eqb_same in E. destruct E as [<- | [Za Zb]].
  - rewrite (sub_self a Fa). split; reflexivity.
  - split; now apply sub_is_zero.
Qed.

End Degenerate.

(** X26: [QM_orthographic] does not test its volume: when [right == left]
    (finite), the entries [m\[0\]\[0\]] and [m\[3\]\[0\]] are infinities or
    NaN, and likewise [m\[1\]\[1\]], [m\[3\]\[1\]] when [top == bot] and
    [m\[2\]\[2\]], [m\[3\]\[2\]] when [near == far]. *)
Theorem orthographic_degenerate (left right bot top near far : float) :
  (is_finite right = true -> (right == left) = true ->
   is_finite (m (Mat4.QM_orthographic left right bot top near far) 0 0) = false /\
   is_finite (m (Mat4.QM_orthographic left right bot top near far) 3 0) = false) /\
  (is_finite top = true -> (top == bot) = true ->
   is_finite (m (Mat4.QM_orthographic left right bot top near far) 1 1) = false /\
   is_finite (m (Mat4.QM_orthographic left right bot top near far) 3 1) = false) /\
  (is_finite near = true -> (near == far) = true ->
   is_finite (m (Mat4.QM_orthographic left right bot top near far) 2 2) = false /\
   is_finite (m (Mat4.QM_orthographic left right bot top near far) 3 2) = false).
Proof.
  unfold Mat4.QM_orthographic. cbv zeta.
  cbn [m v at4 set_m set4 QM_mat4_identity v0 v1 v2 v3 Vec4.x Vec4.y Vec4.z Vec4.w].
  split; [| split]; intros F E; destruct (sub_eqb_is_zero _ _ F E) as [Z1 Z2];
    split; now apply div_zero_not_finite.
Qed.

(** The volume [\[1, 1\] x \[2, 2\] x \[3, 3\]]. *)
Lemma orthographic_degenerate_witness :
  is_finite (m (Mat4.QM_orthographic one one lit_2 lit_2 (lit 3 1) (lit 3 1)) 0 0) = false /\
  is_finite (m (Mat4.QM_orthographic one one lit_2 lit_2 (lit 3 1) (lit 3 1)) 1 1) = false /\
  is_finite (m (Mat4.QM_orthographic one one lit_2 lit_2 (lit 3 1) (lit 3 1)) 2 2) = false.
Proof.
  split; [| split].
  - exact (proj1 (proj1 (orthographic_degenerate one one lit_2 lit_2 (lit 3 1) (lit 3 1))
                    eq_refl eq_refl)).
  - exact (proj1 (proj1 (proj2 (orthographic_degenerate one one lit_2 lit_2 (lit 3 1)
                                  (lit 3 1))) eq_refl eq_refl)).
  - exact (proj1 (proj2 (proj2 (orthographic_degenerate one one lit_2 lit_2 (lit 3 1)
                                  (lit 3 1))) eq_refl eq_refl)).
Defined.

(** Rotations on a host whose [sinf] is odd and whose [cosf] is even. *)
Section OppositeAngle.

Context (H : CRT).
Hypothesis sin_odd : forall a : float, QM_SINF (- a) = - QM_SINF a.
Hypothesis cos_even : forall a : float, QM_COSF (- a) = QM_COSF a.

Lemma deg_to_rad_neg (a : float) : QM_deg_to_rad (- a) = - QM_deg_to_rad a.
Proof. unfold QM_deg_to_rad. apply mul_neg_l. Qed.

(** X27: on such a host the rotation by the opposite angle is the
    transpose, float for float: for the 3x3 [QM_rotate(angle)], for the 4x4
    [QM_rotate(axis, angle)] (in both configurations of the transpose), and
    [QM_quaternion_from_axis_angle(axis, -angle)] is the conjugate of
    [QM_quaternion_from_axis_angle(axis, angle)]. *)
Theorem rotate_opposite_angle (sse : bool) (axis : QMvec3) (angle : float) :
  Mat3.QM_rotate (- angle) = Mat3.QM_transpose (Mat3.QM_rotate angle) /\
  Mat4.QM_rotate axis (- angle) = Mat4.QM_transpose sse (Mat4.QM_rotate axis angle) /\
  Quat.QM_quaternion_from_axis_angle axis (- angle) =
    QM_conjugate (Quat.QM_quaternion_from_axis_angle axis angle).
Proof.
  split; [| split].
  - unfold Mat3.QM_rotate. cbv zeta. rewrite deg_to_rad_neg, sin_odd, cos_even.
    generalize (QM_SINF (QM_deg_to_rad angle)), (QM_COSF (QM_deg_to_rad angle)).
    intros s c. unfold Mat3.QM_transpose.
    cbn [Mat3.m Mat3.v Mat3.at3 Mat3.set_m Mat3.set3 Mat3.default Vec3.default
         Mat3.QM_mat3_identity Mat3.v0 Mat3.v1 Mat3.v2 Vec3.x Vec3.y Vec3.z].
    now rewrite neg_involutive.
  - rewrite mat4_transpose_lanes. unfold Mat4.QM_rotate. cbv zeta.
    rewrite deg_to_rad_neg, sin_odd, cos_even.
    generalize (QM_SINF (QM_deg_to_rad angle)), (QM_COSF (QM_deg_to_rad angle)).
    generalize (Vec3.QM_normalize axis). intros [nx ny nz] s c.
    cbn [m v at4 set_m set4 QM_mat4_identity v0 v1 v2 v3 Vec4.x Vec4.y Vec4.z Vec4.w
         Vec3.x Vec3.y Vec3.z].
    rewrite !mul_neg_r, !add_neg_r, !sub_neg_r.
    rewrite (mul_comm ny nx), (mul_comm nz nx), (mul_comm nz ny). reflexivity.
  - unfold Quat.QM_quaternion_from_axis_angle, QM_conjugate. cbv zeta.
    cbn [Quat.x Quat.y Quat.z Quat.w].
    rewrite mul_neg_l, deg_to_rad_neg, sin_odd, cos_even, !mul_neg_r. reflexivity.
Qed.

End OppositeAngle.

(** The tabulated host is odd and even in this sense. *)
Lemma rotate_opposite_angle_witness :
  (forall a : float, @QM_SINF crt_sample (- a) = - @QM_SINF crt_sample a) /\
  (forall a : float, @QM_COSF crt_sample (- a) = @QM_COSF crt_sample a) /\
  @Mat3.QM_rotate crt_sample (- zero) = Mat3.QM_transpose (@Mat3.QM_rotate crt_sample zero).
Proof.
  assert (Hs : forall a : float, @QM_SINF crt_sample (- a) = - @QM_SINF crt_sample a)
    by (intros [[] | [] | | [] m e]; reflexivity).
  assert (Hc : forall a : float, @QM_COSF crt_sample (- a) = @QM_COSF crt_sample a)
    by (intros [[] | [] | | [] m e]; reflexivity).
  split; [exact Hs | split; [exact Hc |]].
  exact (proj1 (rotate_opposite_angle crt_sample Hs Hc true (Vec3.mk one zero zero) zero)).
Defined.

(** ** Degenerate axes and directions *)

Section ZeroVectors.


Lemma vec3_normalize_zeros (x y z : float) :
  is_zero x = true -> is_zero y = true -> is_zero z = true ->
  Vec3.QM_normalize (Vec3.mk x y z) = Vec3.default.
Proof.
  destruct x as [[] | | |], y as [[] | | |], z as [[] | | |]; intros Hx Hy Hz;
    try discriminate; reflexivity.
Qed.

Lemma vec3_normalize_cross_zero (ux uy uz : float) :
  is_finite ux = true -> is_finite uy = true -> is_finite uz = true ->
  Vec3.QM_normalize (Vec3.QM_cross (Vec3.mk ux uy uz) Vec3.default) = Vec3.default.
Proof.
  intros Fx Fy Fz. unfold Vec3.QM_cross. cbn [Vec3.default Vec3.x Vec3.y Vec3.z].
  apply vec3_normalize_zeros; is_zero_tac.
Qed.

Lemma neg_finite (a : float) : is_finite (- a) = is_finite a.
Proof. now destruct a. Qed.

End ZeroVectors.

(** Compares an entry that is the expected one up to the sign of zero. *)
Ltac entry_eq := apply same_eqb_r; [same_chain | not_nan_tac].



(** X29: [QM_lookat] with the eye at the target does not produce a NaN: the
    direction [normalize(pos - target)] is the zero vector, so are the right
    and up vectors, and for finite [pos] and [up] the view matrix compares
    equal to the matrix that sends every point to the origin (zero but for
    [m\[3\]\[3\] = 1]), in both configurations. *)
Theorem lookat_eye_at_target (sse : bool) (pos target up : QMvec3) :
  fin3 pos = true -> fin3 up = true -> Vec3.op_eq pos target = true ->
  mat4_eq (Mat4.QM_lookat sse pos target up) (Mat4.QM_scale (Vec3.mk zero zero zero)) = true.
Proof.
  destruct pos as [px py pz], target as [tx ty tz], up as [ux uy uz].
  unfold fin3, Vec3.op_eq. cbn [Vec3.x Vec3.y Vec3.z]. rewrite !andb_true_iff.
  intros [[Hpx Hpy] Hpz] [[Hux Huy] Huz] [[Ex Ey] Ez].
  apply fin_parts in Hpx as (Vpx & Fpx & Npx). apply fin_parts in Hpy as (Vpy & Fpy & Npy).
  apply fin_parts in Hpz as (Vpz & Fpz & Npz). apply fin_parts in Hux as (Vux & Fux & Nux).
  apply fin_parts in Huy as (Vuy & Fuy & Nuy). apply fin_parts in Huz as (Vuz & Fuz & Nuz).
  destruct (sub_eqb_is_zero _ _ Fpx Ex) as [Zx _].
  destruct (sub_eqb_is_zero _ _ Fpy Ey) as [Zy _].
  destruct (sub_eqb_is_zero _ _ Fpz Ez) as [Zz _].
  unfold Mat4.QM_lookat, Mat4.QM_look. cbv zeta.
  unfold Vec3.op_sub. cbn [Vec3.x Vec3.y Vec3.z].
  rewrite (vec3_normalize_zeros _ _ _ Zx Zy Zz).
  rewrite (vec3_normalize_cross_zero ux uy uz Fux Fuy Fuz).
  change (Vec3.QM_cross Vec3.default Vec3.default) with Vec3.default.
  assert (Fnx : is_finite (- px) = true) by now rewrite neg_finite.
  assert (Fny : is_finite (- py) = true) by now rewrite neg_finite.
  assert (Fnz : is_finite (- pz) = true) by now rewrite neg_finite.
  revert Fnx Fny Fnz. generalize (- px), (- py), (- pz). intros nx ny nz Fnx Fny Fnz.
  rewrite mat4_mul_by_columns, !mat4_mul_vec_lanes.
  unfold mat4_eq, Vec4.op_eq, Mat4.QM_translate, Mat4.QM_scale. cbv zeta.
  cbn [m v at4 set_m set4 QM_mat4_identity v0 v1 v2 v3 Vec4.x Vec4.y Vec4.z Vec4.w
       Vec3.default Vec3.x Vec3.y Vec3.z].
  rewrite !andb_true_iff.
  repeat split; entry_eq.
Qed.

(** The eye and the target at [(1, -2, 0.3)], up [(0, 1, 0)]. *)
Lemma lookat_eye_at_target_witness :
  mat4_eq (Mat4.QM_lookat true (Vec3.mk (lit 1 1) (lit (-2) 1) (lit 3 10))
             (Vec3.mk (lit 1 1) (lit (-2) 1) (lit 3 10)) (Vec3.mk zero one zero))
          (Mat4.QM_scale (Vec3.mk zero zero zero)) = true.
Proof.
  exact (lookat_eye_at_target true (Vec3.mk (lit 1 1) (lit (-2) 1) (lit 3 10))
           (Vec3.mk (lit 1 1) (lit (-2) 1) (lit 3 10)) (Vec3.mk zero one zero)
           eq_refl eq_refl eq_refl).
Defined.

(** ** The view matrix *)

Section View.

Lemma add_neg_neg_same (a b : float) : same ((- a) + (- b)) (- (a + b)).
Proof.
  destruct a as [[] | [] | | sa ma ea], b as [[] | [] | | sb mb eb];
    try (left; reflexivity); try (right; split; reflexivity).
  unfold add, neg, SFadd. cbn [SFopp]. rewrite !cond_Zopp_negb.
  set (ka := cond_Zopp sa _). set (kb := cond_Zopp sb _).
  destruct (Z.eq_dec (ka + kb) 0) as [E | N].
  - right. replace (- ka + - kb)%Z with 0%Z by lia. rewrite E. split; reflexivity.
  - left. replace (- ka + - kb)%Z with (- (ka + kb))%Z by lia.
    now apply binary_normalize_opp.
Qed.

Lemma neg_valid (a : float) : valid (- a) = valid a.
Proof. now destruct a. Qed.

(** A row of the rotation part against the translation by [-p]: the dot
    product with [p] and the entry of the fourth column cancel. *)
Lemma view_row_cancels (a b c px py pz a' b' c' t : float) :
  fin a = true -> fin b = true -> fin c = true ->
  fin px = true -> fin py = true -> fin pz = true ->
  same a' a -> same b' b -> same c' c ->
  same t (a * (- px) + b * (- py) + c * (- pz)) -> fin t = true ->
  same (a' * px + b' * py + c' * pz + t * one) zero.
Proof.
  intros Ha Hb Hc Hpx Hpy Hpz Sa Sb Sc St Ht.
  apply fin_parts in Ha as (Va & Fa & Na). apply fin_parts in Hb as (Vb & Fb & Nb).
  apply fin_parts in Hc as (Vc & Fc & Nc). apply fin_parts in Hpx as (Vpx & Fpx & Npx).
  apply fin_parts in Hpy as (Vpy & Fpy & Npy). apply fin_parts in Hpz as (Vpz & Fpz & Npz).
  apply fin_parts in Ht as (Vt & Ft & Nt).
  rewrite (mul_one_r t Vt).
  set (P := a * px + b * py + c * pz).
  assert (SP : same (a' * px + b' * py + c' * pz) P).
  { unfold P. repeat apply add_same; now apply mul_same_l. }
  assert (SN : same t (- P)).
  { apply (same_trans _ _ _ St). rewrite !mul_neg_r. unfold P.
    apply (same_trans _ (- (a * px + b * py) + - (c * pz))).
    - apply add_same; [apply add_neg_neg_same | apply same_refl].
    - apply add_neg_neg_same. }
  assert (FP : is_finite P = true).
  { rewrite <- neg_finite. exact (same_finite _ _ SN Ft). }
  rewrite <- (add_neg_self P FP). now apply add_same.
Qed.

End View.

(** X30: the view matrix sends the eye to the origin.  When [pos], [dir]
    and the right and up vectors [QM_look] computes are finite, and so is
    the fourth column of the view matrix (the dot products with [pos] do not
    overflow), [QM_look(pos, dir, up) * (pos, 1)] compares equal to
    [(0, 0, 0, 1)]: each rounded dot product cancels against the entry of
    the fourth column, which is its negation.  In both configurations. *)
Theorem look_eye_to_origin (sse : bool) (pos dir up : QMvec3) :
  let r := Vec3.QM_normalize (Vec3.QM_cross up dir) in
  let u := Vec3.QM_cross dir r in
  fin3 pos = true -> fin3 dir = true -> fin3 r = true -> fin3 u = true ->
  fin4 (v3 (Mat4.QM_look sse pos dir up)) = true ->
  Vec4.op_eq
    (Mat4.op_mul_vec sse (Mat4.QM_look sse pos dir up)
       (Vec4.mk (Vec3.x pos) (Vec3.y pos) (Vec3.z pos) one))
    (Vec4.mk zero zero zero one) = true.
Proof.
  intros r u. unfold Mat4.QM_look. cbv zeta.
  change (Vec3.QM_normalize (Vec3.QM_cross up dir)) with r.
  change (Vec3.QM_cross dir r) with u.
  clearbody u. clearbody r.
  destruct pos as [px py pz], dir as [dx dy dz], r as [rx ry rz], u as [ux uy uz].
  unfold fin3, fin4. rewrite mat4_mul_by_columns, !mat4_mul_vec_lanes.
  unfold Mat4.QM_translate, Vec4.op_eq. cbv zeta.
  cbn [m v at4 set_m set4 QM_mat4_identity v0 v1 v2 v3 Vec4.x Vec4.y Vec4.z Vec4.w
       Vec3.x Vec3.y Vec3.z].
  rewrite !andb_true_iff.
  intros [[Hpx Hpy] Hpz] [[Hdx Hdy] Hdz] [[Hrx Hry] Hrz] [[Hux Huy] Huz]
         [[[Ht0 Ht1] Ht2] Ht3].
  assert (Fp : is_finite px = true /\ is_finite py = true /\ is_finite pz = true).
  { apply fin_parts in Hpx as (_ & ? & _). apply fin_parts in Hpy as (_ & ? & _).
    apply fin_parts in Hpz as (_ & ? & _). repeat split; assumption. }
  destruct Fp as (Fpx & Fpy & Fpz).
  assert (Fn : is_finite (- px) = true /\ is_finite (- py) = true /\ is_finite (- pz) = true)
    by (rewrite !neg_finite; repeat split; assumption).
  destruct Fn as (Fnx & Fny & Fnz).
  pose proof (fin_parts _ Hdx) as (Vdx & Fdx & _). pose proof (fin_parts _ Hdy) as (Vdy & Fdy & _).
  pose proof (fin_parts _ Hdz) as (Vdz & Fdz & _). pose proof (fin_parts _ Hrx) as (Vrx & Frx & _).
  pose proof (fin_parts _ Hry) as (Vry & Fry & _). pose proof (fin_parts _ Hrz) as (Vrz & Frz & _).
  pose proof (fin_parts _ Hux) as (Vux & Fux & _). pose proof (fin_parts _ Huy) as (Vuy & Fuy & _).
  pose proof (fin_parts _ Huz) as (Vuz & Fuz & _).
  repeat split.
  - apply same_eqb_r; [| reflexivity].
    apply (view_row_cancels rx ry rz px py pz); try assumption;
      rewrite ?mul_one_r by assumption; same_chain.
  - apply same_eqb_r; [| reflexivity].
    apply (view_row_cancels ux uy uz px py pz); try assumption;
      rewrite ?mul_one_r by assumption; same_chain.
  - apply same_eqb_r; [| reflexivity].
    apply (view_row_cancels dx dy dz px py pz); try assumption;
      rewrite ?mul_one_r by assumption; same_chain.
  - apply same_eqb_r; [| reflexivity].
    rewrite !mul_one_l, !mul_one_r by reflexivity.
    same_chain.
    apply (same_trans _ (one * one)); [| left; reflexivity].
    apply mul_same_l; [reflexivity | same_chain].
Qed.

(** The eye at [(1, -2, 3)] looking along [-z], up [(0, 1, 0)]. *)
Lemma look_eye_to_origin_witness :
  Vec4.op_eq
    (Mat4.op_mul_vec true
       (Mat4.QM_look true (Vec3.mk (lit 1 1) (lit (-2) 1) (lit 3 1))
          (Vec3.mk zero zero (lit (-1) 1)) (Vec3.mk zero one zero))
       (Vec4.mk (lit 1 1) (lit (-2) 1) (lit 3 1) one))
    (Vec4.mk zero zero zero one) = true.
Proof.
  apply (look_eye_to_origin true (Vec3.mk (lit 1 1) (lit (-2) 1) (lit 3 1))
           (Vec3.mk zero zero (lit (-1) 1)) (Vec3.mk zero one zero));
    vm_compute; reflexivity.
Defined.
